(** * serial_server.py: a shallow embedding of [SerialServer]

    The server relays line-delimited commands from TCP clients to one serial
    device.  This file models the class [SerialServer] of
    [src/serial_server.py]: its lifecycle methods ([open], [close], [stop],
    the [timeout] property), the two readiness handlers ([process_socket],
    [process_serial]) and the loop [serve_forever].

    Python objects with identity (sockets, [ClientBuffers]) are numbered and
    kept in a store, so that the aliasing between the selector's key data and
    the entries of [ser_queue] is preserved.  Everything the operating system
    or the device decides (what [recv] returns, how many bytes [write]
    accepts, whether [shutdown] raises) is an explicit input of the model;
    everything the program does to the outside is appended to a trace. *)

From Stdlib Require Import QArith Qround Qabs Lqa.
From stdpp Require Import gmap list strings.

Set Default Proof Using "Type".

(** ** Bytes *)

Module Bytes.

Abbreviation byte := Byte.byte.
Abbreviation bytes := (list Byte.byte).

Definition of_string (s : String.string) : bytes := String.list_byte_of_string s.
Arguments of_string s%_string.

Definition LF : byte := Byte.x0a.
Definition CR : byte := Byte.x0d.

Definition byte_eqb (a b : byte) : bool := Byte.eqb a b.

(** [s.startswith(p)] *)
Fixpoint starts_with (p s : bytes) : bool :=
  match p, s with
  | [], _ => true
  | _ :: _, [] => false
  | a :: p', b :: s' => byte_eqb a b && starts_with p' s'
  end.

(** [bytearray.split(sep)] for a non-empty [sep]: the occurrences of [sep]
    are found from left to right and do not overlap.  [skip] counts the bytes
    of the occurrence just found that are still to be passed over, [cur] is
    the segment being collected, most recent byte first. *)
Fixpoint split_go (sep : bytes) (skip : nat) (cur : bytes) (s : bytes) : list bytes :=
  match s with
  | [] => [rev cur]
  | b :: s' =>
      match skip with
      | S k => split_go sep k cur s'
      | O =>
          if starts_with sep s
          then rev cur :: split_go sep (length sep - 1) [] s'
          else split_go sep 0 (b :: cur) s'
      end
  end.

(** [s.split(sep)]; Python raises [ValueError] for an empty separator, which
    is [None] here. *)
Definition split (sep s : bytes) : option (list bytes) :=
  match sep with
  | [] => None
  | _ :: _ => Some (split_go sep 0 [] s)
  end.

(** [sep.join(parts)] *)
Fixpoint join (sep : bytes) (parts : list bytes) : bytes :=
  match parts with
  | [] => []
  | [p] => p
  | p :: ps => p ++ sep ++ join sep ps
  end.

(** [bytes.replace(old, new)] for a non-empty [old]. *)
Fixpoint replace_go (old new : bytes) (skip : nat) (s : bytes) : bytes :=
  match s with
  | [] => []
  | b :: s' =>
      match skip with
      | S k => replace_go old new k s'
      | O =>
          if starts_with old s
          then new ++ replace_go old new (length old - 1) s'
          else b :: replace_go old new 0 s'
      end
  end.

(** [s.replace(old, new)]; with an empty [old] Python inserts [new] before
    every byte and at the end. *)
Definition replace (old new s : bytes) : bytes :=
  match old with
  | [] => new ++ flat_map (fun b => b :: new) s
  | _ :: _ => replace_go old new 0 s
  end.

End Bytes.
Import Bytes.

(** ** Exceptions, results, and the objects of the program *)

(** The exceptions the modelled code raises or lets through.  [OSError]
    carries its [errno]; pySerial's [SerialException] and
    [SerialTimeoutException] are subclasses of [OSError] with no [errno]. *)
Inductive exn :=
| Exception_                  (* [Exception()], no arguments *)
| OSError (errno : option Z)
| RuntimeError
| ValueError
| KeyError
| IndexError
| AttributeError.

Definition EBUSY : Z := 16.

Definition is_OSError (e : exn) : bool :=
  match e with OSError _ => true | _ => false end.

(** [e.errno == EBUSY] *)
Definition errno_is (e : exn) (n : Z) : bool :=
  match e with OSError (Some k) => Z.eqb k n | _ => false end.

(** The outcome of a call: it returns, it raises, or the inputs supplied by
    the environment ran out while it was still running ([Blocked]). *)
Inductive result (A : Type) :=
| Ok (a : A)
| Raise (e : exn)
| Blocked.
Arguments Ok {A} a.
Arguments Raise {A} e.
Arguments Blocked {A}.

Definition EVENT_READ : N := 1.
Definition EVENT_WRITE : N := 2.

(** Python truth value of an event mask. *)
Definition truthy (m : N) : bool := negb (N.eqb m 0).

(** What a selector can watch: a socket (the listening one or a client) or
    the serial device. *)
Inductive fileobj := FSock (s : nat) | FSerial.

#[global] Instance fileobj_eq_dec : EqDecision fileobj.
Proof. solve_decision. Defined.

#[global] Instance fileobj_countable : Countable fileobj :=
  inj_countable'
    (fun f => match f with FSock s => inr s | FSerial => inl tt end)
    (fun x => match x with inr s => FSock s | inl _ => FSerial end)
    (fun f => match f with FSock _ => eq_refl | FSerial => eq_refl end).

(** The [data] attached to a registration: [None] for the listening socket,
    a reference to a [ClientBuffers] object for a client, and a reference to
    [self.ser_queue] for the device. *)
Inductive keydata := DNone | DClient (b : nat) | DQueue.

(** A selector: file object to (events, data). *)
Abbreviation selector := (gmap fileobj (N * keydata)).

(** The part of a pySerial [Serial] object the server touches. *)
Record Serial := mkSerial {
  is_open : bool;
  ser_timeout : Q;
  ser_write_timeout : option Q
}.

(** [class ClientBuffers] *)
Record ClientBuffers := mkClientBuffers {
  cb_sock : nat;
  in_buf : bytes;
  out_buf : bytes
}.

(** What the program does to the outside, in the order it does it. *)
Inductive action :=
| Acquire                              (* the [Serial] constructor is called *)
| Sleep                                (* [sleep(0.1)] *)
| Enqueue (cmd : bytes) (cb : nat)     (* [self.ser_queue.append((cmd, data))] *)
| Transact (cmd : bytes) (cb : nat)    (* [data.pop(0)] returned this entry *)
| DevWrite (bs : bytes)                (* the bytes one [ser.write] call accepted *)
| DevFlush                             (* [ser.flush()] *)
| DevRead (reply : bytes)              (* [ser.read_until(self.eol_ser)] returned *)
| SockSend (s : nat) (bs : bytes)      (* the bytes one [sock.send] call accepted *)
| SockShutdown (s : nat)               (* [shutdown(SHUT_RDWR)] *)
| SockClose (s : nat).                 (* [close()] on a socket *)

(** The server object, followed by the part of the world it lives in: the
    store of [ClientBuffers] objects, the next fresh object number, the clock
    read by [time()], and the trace. *)
Record Server := mkServer {
  _open : bool;
  _serving : bool;
  _shutdown_request : bool;
  eol_sock : bytes;
  eol_ser : bytes;
  kw_timeout : Q;                      (* [self.ser_kwargs['timeout']] *)
  kw_write_timeout : option Q;         (* [self.ser_kwargs.get('write_timeout')] *)
  _timeout : Q;
  serial : option Serial;
  sock : option nat;
  sel : option selector;
  ser_queue : list (bytes * nat);
  clients : gset nat;
  objs : gmap nat ClientBuffers;
  next_id : nat;
  clock : Q;
  trace : list action
}.

Definition set_open v '(mkServer a b c d e f g h i j k l m n o p q) :=
  mkServer v b c d e f g h i j k l m n o p q.
Definition set_serving v '(mkServer a b c d e f g h i j k l m n o p q) :=
  mkServer a v c d e f g h i j k l m n o p q.
Definition set_shutdown_request v '(mkServer a b c d e f g h i j k l m n o p q) :=
  mkServer a b v d e f g h i j k l m n o p q.
Definition set_timeout v '(mkServer a b c d e f g h i j k l m n o p q) :=
  mkServer a b c d e f g v i j k l m n o p q.
Definition set_serial v '(mkServer a b c d e f g h i j k l m n o p q) :=
  mkServer a b c d e f g h v j k l m n o p q.
Definition set_sock v '(mkServer a b c d e f g h i j k l m n o p q) :=
  mkServer a b c d e f g h i v k l m n o p q.
Definition set_sel v '(mkServer a b c d e f g h i j k l m n o p q) :=
  mkServer a b c d e f g h i j v l m n o p q.
Definition set_ser_queue v '(mkServer a b c d e f g h i j k l m n o p q) :=
  mkServer a b c d e f g h i j k v m n o p q.
Definition set_clients v '(mkServer a b c d e f g h i j k l m n o p q) :=
  mkServer a b c d e f g h i j k l v n o p q.
Definition set_objs v '(mkServer a b c d e f g h i j k l m n o p q) :=
  mkServer a b c d e f g h i j k l m v o p q.
Definition set_next_id v '(mkServer a b c d e f g h i j k l m n o p q) :=
  mkServer a b c d e f g h i j k l m n v p q.
Definition set_clock v '(mkServer a b c d e f g h i j k l m n o p q) :=
  mkServer a b c d e f g h i j k l m n o v q.
Definition set_trace v '(mkServer a b c d e f g h i j k l m n o p q) :=
  mkServer a b c d e f g h i j k l m n o p v.

(** ** A state and exception monad *)

Definition M (A : Type) : Type := Server -> result A * Server.

Definition ret {A} (a : A) : M A := fun st => (Ok a, st).
Definition raise {A} (e : exn) : M A := fun st => (Raise e, st).
Definition blocked {A} : M A := fun st => (Blocked, st).

Definition bind {A B} (c : M A) (k : A -> M B) : M B :=
  fun st =>
    match c st with
    | (Ok a, st') => k a st'
    | (Raise e, st') => (Raise e, st')
    | (Blocked, st') => (Blocked, st')
    end.

Definition get : M Server := fun st => (Ok st, st).
Definition modify (f : Server -> Server) : M unit := fun st => (Ok tt, f st).

Declare Scope m_scope.
Delimit Scope m_scope with M.
Notation "x <- c ;; k" := (bind c (fun x => k))
  (at level 100, c at next level, right associativity) : m_scope.
Notation "c >> k" := (bind c (fun _ => k))
  (at level 100, right associativity) : m_scope.
Open Scope m_scope.

(** [if cond: body] with no [else]. *)
Definition when (b : bool) (c : M unit) : M unit := if b then c else ret tt.

(** [for x in xs: body] *)
Fixpoint for_each {A} (xs : list A) (body : A -> M unit) : M unit :=
  match xs with
  | [] => ret tt
  | x :: xs' => body x >> for_each xs' body
  end.

(** [with suppress(OSError): body] *)
Definition suppress_OSError (body : M unit) : M unit :=
  fun st =>
    match body st with
    | (Raise e, st') => if is_OSError e then (Ok tt, st') else (Raise e, st')
    | r => r
    end.

(** [try: body finally: cleanup].  An exception of [cleanup] replaces the
    one of [body]; nothing is cleaned up while [body] is still running. *)
Definition try_finally (body cleanup : M unit) : M unit :=
  fun st =>
    match body st with
    | (Ok _, st') => cleanup st'
    | (Raise e, st') =>
        match cleanup st' with
        | (Ok _, st'') => (Raise e, st'')
        | r => r
        end
    | (Blocked, st') => (Blocked, st')
    end.

Definition log (a : action) : M unit :=
  modify (fun st => set_trace (trace st ++ [a]) st).

(** A call into the operating system that the environment may make fail:
    [fault a] is the exception it raises, if any. *)
Definition syscall (fault : action -> option exn) (a : action) : M unit :=
  match fault a with
  | Some e => raise e
  | None => log a
  end.

Definition no_fault : action -> option exn := fun _ => None.

(** ** Selector operations *)

(** [self.sel] as a live selector; [None] has no methods. *)
Definition the_sel : M selector :=
  st <- get ;;
  match sel st with
  | Some m => ret m
  | None => raise AttributeError
  end.

(** [sel.register(fileobj, events, data)]: [KeyError] when already
    registered. *)
Definition sel_register (f : fileobj) (ev : N) (d : keydata) : M unit :=
  m <- the_sel ;;
  match m !! f with
  | Some _ => raise KeyError
  | None => modify (set_sel (Some (<[f := (ev, d)]> m)))
  end.

(** [sel.unregister(fileobj)]: [KeyError] when not registered. *)
Definition sel_unregister (f : fileobj) : M unit :=
  m <- the_sel ;;
  match m !! f with
  | Some _ => modify (set_sel (Some (delete f m)))
  | None => raise KeyError
  end.

(** [sel.modify(fileobj, events, data)]: [KeyError] when not registered. *)
Definition sel_modify (f : fileobj) (ev : N) (d : keydata) : M unit :=
  m <- the_sel ;;
  match m !! f with
  | Some _ => modify (set_sel (Some (<[f := (ev, d)]> m)))
  | None => raise KeyError
  end.

(** ** The [timeout] property *)

Definition Qltb (x y : Q) : bool := negb (Qle_bool y x).

(** [@timeout.setter]; [val] is the value after [float(val)]. *)
Definition timeout_set (val : Q) : M unit :=
  if Qltb val 0 then raise ValueError
  else
    st <- get ;;
    match serial st with
    | Some h => modify (set_serial (Some (mkSerial (is_open h) val (Some val))))
    | None => ret tt
    end >>
    modify (set_timeout val).

(** The object [SerialServer.__init__] builds when the timeout is accepted;
    [timeout] is what [ser_kwargs] gives for ['timeout'] (default [1.]),
    [write_timeout] what it gives for ['write_timeout']. *)
Definition init (eol_ser_ eol_sock_ : bytes) (timeout : option Q) (write_timeout : option Q) : Server :=
  let t := default 1%Q timeout in
  mkServer false false false eol_sock_ eol_ser_ t write_timeout t
           None None None [] ∅ ∅ 0 0%Q [].

(** [SerialServer.__init__]: the fields are set and the timeout goes through
    the property setter, which may reject it. *)
Definition SerialServer (eol_ser_ eol_sock_ : bytes) (timeout : option Q) (write_timeout : option Q)
  : result unit * Server :=
  timeout_set (default 1%Q timeout) (init eol_ser_ eol_sock_ timeout write_timeout).

(** ** Binary64 addition

    [time()] returns a Python float and [time_i + self.timeout] is an
    addition of floats: the exact sum, rounded to the nearest binary64
    number, to the one with the even significand when two are equally near.
    Floats are kept as the rationals they denote.  The infinities that
    binary64 gives for sums of magnitude 2^1024 and more have no counterpart
    here, as an infinite or undefined timeout has none. *)

Module Binary64.

(** The integer part of the binary logarithm of a positive [x]. *)
Definition ilog2 (x : Q) : Z :=
  let e := (Z.log2 (Qnum x) - Z.log2 (Z.pos (Qden x)))%Z in
  if Qle_bool (2 ^ e) x then e else (e - 1)%Z.

(** The integer nearest to [x]; of two, the even one. *)
Definition nearest_even (x : Q) : Z :=
  let n := Qfloor x in
  match (x - inject_Z n ?= 1 # 2)%Q with
  | Lt => n
  | Gt => (n + 1)%Z
  | Eq => if Z.even n then n else (n + 1)%Z
  end.

(** The exponent of the last place of the binary64 numbers next to [x]: 53
    significant bits, and no exponent below that of the smallest normal
    number, 2^-1022. *)
Definition ulp_exp (x : Q) : Z := (Z.max (ilog2 (Qabs x)) (-1022) - 52)%Z.

Definition round (x : Q) : Q :=
  if Qeq_bool x 0 then 0
  else let k := ulp_exp x in (inject_Z (nearest_even (x / 2 ^ k)) * 2 ^ k)%Q.

(** [x + y] on floats; adding zero to a float gives that float. *)
Definition add (x y : Q) : Q :=
  if Qeq_bool y 0 then x
  else if Qeq_bool x 0 then y
  else round (x + y).

End Binary64.

(** ** [open] *)

(** What one call of the [Serial] constructor does: it returns a port object
    (open or, when no port name was configured, not open) or it raises. *)
Inductive acq := AcqOk (opened : bool) | AcqRaise (e : exn).

(** One turn of the acquisition loop as the environment decides it: [lead]
    is the time that has passed since the clock was last read (or since the
    last [sleep] ended) when the loop condition calls [time()]; [acquire] is
    what the constructor does if it is called. *)
Record tick := mkTick { lead : Q; acquire : acq }.

Record OpenEnv := mkOpenEnv {
  ticks : list tick;
  listen : option exn                 (* [create_server] raises this *)
}.

(** [getattr(self.serial, 'is_open', False)] *)
Definition serial_is_open (st : Server) : bool :=
  match serial st with
  | Some h => is_open h
  | None => false
  end.

(** [time()] after [d] more time units have passed. *)
Definition time (d : Q) : M Q :=
  modify (fun st => set_clock (clock st + d)%Q st) >>
  st <- get ;; ret (clock st).

(** [sleep(0.1)] *)
Definition sleep_tenth : M unit :=
  modify (fun st => set_clock (clock st + (1 # 10))%Q st) >> log Sleep.

(** The [while time() < (time_i + self.timeout)] loop; it returns the value
    of [exc] at the end. *)
Fixpoint open_loop (deadline : Q) (exc : exn) (ts : list tick) : M exn :=
  match ts with
  | [] => blocked
  | t :: ts' =>
      now <- time (lead t) ;;
      if Qltb now deadline then
        log Acquire >>
        match acquire t with
        | AcqOk o =>
            st <- get ;;
            modify (set_serial (Some (mkSerial o (kw_timeout st) (kw_write_timeout st)))) >>
            ret exc
        | AcqRaise e =>
            if is_OSError e then
              when (errno_is e EBUSY) sleep_tenth >>
              open_loop deadline e ts'
            else raise e
        end
      else ret exc
  end.

Definition fresh : M nat :=
  st <- get ;;
  modify (set_next_id (S (next_id st))) >>
  ret (next_id st).

Definition open (env : OpenEnv) : M unit :=
  st <- get ;;
  if _open st then ret tt
  else
    (* a stale selector is closed and replaced, a stale port is closed *)
    modify (set_sel (Some ∅)) >>
    modify (set_serial None) >>
    modify (set_ser_queue []) >>
    st <- get ;;
    let time_i := clock st in
    exc <- open_loop (Binary64.add time_i (_timeout st)) Exception_ (ticks env) ;;
    st <- get ;;
    if negb (serial_is_open st) then raise exc
    else
      match listen env with
      | Some e => raise e
      | None =>
          s <- fresh ;;
          modify (set_sock (Some s)) >>
          sel_register (FSock s) EVENT_READ DNone >>
          modify (set_open true)
      end.

(** ** [close] and [stop] *)

Definition close (fault : action -> option exn) : M unit :=
  st <- get ;;
  if _serving st then raise RuntimeError
  else
    when (_open st)
      (suppress_OSError
         (_ <- the_sel ;;
          modify (set_sel None) >>
          (st <- get ;;
           match serial st with
           | Some _ => modify (set_serial None)
           | None => raise AttributeError
           end) >>
          modify (set_ser_queue []) >>
          (st <- get ;;
           match sock st with
           | Some s =>
               syscall fault (SockShutdown s) >>
               syscall fault (SockClose s) >>
               modify (set_sock None)
           | None => raise AttributeError
           end) >>
          (st <- get ;;
           for_each (elements (clients st)) (fun c => syscall fault (SockClose c))) >>
          modify (set_clients ∅)) >>
       modify (set_open false)).

Definition stop : M unit :=
  st <- get ;;
  when (_serving st) (modify (set_shutdown_request true)).

(** ** The readiness handlers *)

(** What one [ser.write] call does. *)
Inductive wres := Wrote (n : nat) | WriteRaises (e : exn).

(** What the operating system and the device answer to the calls one handler
    invocation makes. *)
Record io := mkIo {
  io_accept : option exn;             (* [sock.accept()] raises this *)
  io_recv : bytes + exn;              (* [sock.recv(1024)] *)
  io_send : nat + exn;                (* [sock.send(data.out_buf)] *)
  io_writes : list wres;              (* the successive [ser.write] calls *)
  io_reply : bytes;                   (* [ser.read_until(self.eol_ser)] *)
  io_fault : action -> option exn     (* [shutdown] or [close] raises *)
}.

(** The [ClientBuffers] object a key's [data] refers to. *)
Definition buffers_of (d : keydata) : M nat :=
  match d with
  | DClient b => ret b
  | _ => raise AttributeError
  end.

Definition load (b : nat) : M ClientBuffers :=
  st <- get ;;
  match objs st !! b with
  | Some cb => ret cb
  | None => raise AttributeError
  end.

Definition store_in_buf (b : nat) (v : bytes) : M unit :=
  cb <- load b ;;
  modify (fun st => set_objs (<[b := mkClientBuffers (cb_sock cb) v (out_buf cb)]> (objs st)) st).

Definition store_out_buf (b : nat) (v : bytes) : M unit :=
  cb <- load b ;;
  modify (fun st => set_objs (<[b := mkClientBuffers (cb_sock cb) (in_buf cb) v]> (objs st)) st).

(** Python truth value of a sequence. *)
Definition nonempty {A} (l : list A) : bool :=
  match l with [] => false | _ :: _ => true end.

Definition enqueue (cmd : bytes) (b : nat) : M unit :=
  modify (fun st => set_ser_queue (ser_queue st ++ [(cmd, b)]) st) >>
  log (Enqueue cmd b).

Definition process_socket (s : nat) (data : keydata) (mask : N) (w : io) : M unit :=
  match data with
  | DNone => (* listening socket *)
      when (truthy (N.land mask EVENT_READ))
        (match io_accept w with
         | Some e => raise e
         | None =>
             c <- fresh ;;
             modify (fun st => set_clients ({[c]} ∪ clients st) st) >>
             modify (fun st => set_objs (<[c := mkClientBuffers c [] []]> (objs st)) st) >>
             sel_register (FSock c) EVENT_READ (DClient c)
         end)
  | _ =>
      if truthy (N.land mask EVENT_READ) then (* client socket reading *)
        match io_recv w with
        | inr e => raise e
        | inl received =>
            if nonempty received then
              b <- buffers_of data ;;
              cb <- load b ;;
              store_in_buf b (in_buf cb ++ received) >>
              st <- get ;;
              match split (eol_sock st) (in_buf cb ++ received) with
              | None => raise ValueError
              | Some chunks =>
                  store_in_buf b (List.last chunks []) >>
                  let chunks := removelast chunks in
                  when (nonempty chunks)
                    (st <- get ;;
                     when (negb (nonempty (ser_queue st)))
                       (match serial st with
                        | Some _ => sel_register FSerial EVENT_WRITE DQueue
                        | None => raise ValueError
                        end) >>
                     for_each chunks (fun cmd => enqueue cmd b))
              end
            else
              sel_unregister (FSock s) >>
              (st <- get ;;
               if bool_decide (s ∈ clients st)
               then modify (set_clients (clients st ∖ {[s]}))
               else raise KeyError) >>
              syscall (io_fault w) (SockShutdown s) >>
              syscall (io_fault w) (SockClose s)
        end
      else if truthy (N.land mask EVENT_WRITE) then (* client socket writing *)
        b <- buffers_of data ;;
        cb <- load b ;;
        match io_send w with
        | inr e => raise e
        | inl sent =>
            log (SockSend s (take sent (out_buf cb))) >>
            store_out_buf b (drop sent (out_buf cb)) >>
            when (negb (nonempty (drop sent (out_buf cb))))
              (sel_modify (FSock s) EVENT_READ data)
        end
      else ret tt
  end.

(** [while query: written = ser.write(query); query = query[written:]] *)
Fixpoint write_all (ws : list wres) (query : bytes) : M unit :=
  match query with
  | [] => ret tt
  | _ :: _ =>
      match ws with
      | [] => blocked
      | Wrote n :: ws' => log (DevWrite (take n query)) >> write_all ws' (drop n query)
      | WriteRaises e :: _ => raise e
      end
  end.

Definition process_serial (data : keydata) (mask : N) (w : io) : M unit :=
  when (truthy (N.land mask EVENT_WRITE))
    (match data with
     | DQueue =>
         st <- get ;;
         match ser_queue st with
         | [] => raise IndexError
         | (cmd, clientbuf) :: rest =>
             modify (set_ser_queue rest) >>
             log (Transact cmd clientbuf) >>
             when (negb (nonempty rest)) (sel_unregister FSerial) >>
             write_all (io_writes w) (cmd ++ eol_ser st) >>
             log DevFlush >>
             log (DevRead (io_reply w)) >>
             let reply := replace (eol_ser st) (eol_sock st) (io_reply w) in
             cb <- load clientbuf ;;
             st <- get ;;
             when (negb (nonempty (out_buf cb)) && bool_decide (cb_sock cb ∈ clients st))
               (sel_modify (FSock (cb_sock cb)) (N.lor EVENT_READ EVENT_WRITE) (DClient clientbuf)) >>
             store_out_buf clientbuf (out_buf cb ++ reply)
         end
     | _ => raise AttributeError
     end).

(** ** [serve_forever] *)

(** One thing that happens while a batch of events is being worked off: a
    handle the operating system reported ready, or a termination signal
    whose handler calls [stop()]. *)
Inductive item :=
| Ready (f : fileobj) (mask : N) (w : io)
| Signal.

(** An entry of the list [self.sel.select(...)] returned: the key as it was
    when [select] ran, the event mask, and the answers of the environment. *)
Inductive event :=
| Ev (f : fileobj) (data : keydata) (mask : N) (w : io)
| EvSignal.

(** [self.sel.select(self.selector_timeout)]: a handle is reported at most
    once, only if it is registered, and with [events & key.events]. *)
Fixpoint select_go (m : selector) (seen : list fileobj) (its : list item) : list event :=
  match its with
  | [] => []
  | Signal :: its' => EvSignal :: select_go m seen its'
  | Ready f mask w :: its' =>
      if bool_decide (f ∈ seen) then select_go m seen its'
      else
        match m !! f with
        | Some (ev, data) =>
            if truthy (N.land mask ev)
            then Ev f data (N.land mask ev) w :: select_go m (f :: seen) its'
            else select_go m (f :: seen) its'
        | None => select_go m (f :: seen) its'
        end
  end.

Definition select (m : selector) (its : list item) : list event := select_go m [] its.

(** [for key, mask in events: ...]; a pending shutdown request leaves the
    loop by [break]. *)
Fixpoint handle_events (evs : list event) : M unit :=
  match evs with
  | [] => ret tt
  | EvSignal :: evs' => stop >> handle_events evs'
  | Ev f data mask w :: evs' =>
      st <- get ;;
      if _shutdown_request st then ret tt
      else
        match f with
        | FSock s => process_socket s data mask w
        | FSerial => process_serial data mask w
        end >>
        handle_events evs'
  end.

(** [while not self._shutdown_request: ...]; each element of [script] is
    what happens during one turn of the loop. *)
Fixpoint serve_loop (script : list (list item)) : M unit :=
  st <- get ;;
  if _shutdown_request st then ret tt
  else
    match script with
    | [] => blocked
    | its :: script' =>
        m <- the_sel ;;
        handle_events (select m its) >>
        serve_loop script'
    end.

(** [client.shutdown(SHUT_RDWR); client.close()] *)
Definition shutdown_and_close (fault : action -> option exn) (client : nat) : M unit :=
  syscall fault (SockShutdown client) >>
  syscall fault (SockClose client).

(** The [finally] block of [serve_forever]. *)
Definition serve_cleanup (fault : action -> option exn) : M unit :=
  suppress_OSError
    (st <- get ;;
     for_each (elements (clients st)) (shutdown_and_close fault)) >>
  modify (set_clients ∅) >>
  modify (set_serving false).

Record ServeEnv := mkServeEnv {
  sf_open : OpenEnv;
  sf_script : list (list item);
  sf_fault : action -> option exn
}.

Definition serve_forever (env : ServeEnv) : M unit :=
  (st <- get ;; when (negb (_open st)) (open (sf_open env))) >>
  modify (set_serving true) >>
  try_finally (serve_loop (sf_script env)) (serve_cleanup (sf_fault env)).

(** The registration of [f] in [self.sel], if there is one. *)
Definition interest (st : Server) (f : fileobj) : option (N * keydata) :=
  match sel st with
  | Some m => m !! f
  | None => None
  end.

(** ** Reading traces *)

(** The entries popped from the queue, in the order of the transactions. *)
Fixpoint served (t : list action) : list (bytes * nat) :=
  match t with
  | [] => []
  | Transact cmd cb :: t' => (cmd, cb) :: served t'
  | _ :: t' => served t'
  end.

(** The entries appended to the queue, in the order of the appends. *)
Fixpoint submitted (t : list action) : list (bytes * nat) :=
  match t with
  | [] => []
  | Enqueue cmd cb :: t' => (cmd, cb) :: submitted t'
  | _ :: t' => submitted t'
  end.

(** All bytes the device accepted. *)
Fixpoint device_received (t : list action) : bytes :=
  match t with
  | [] => []
  | DevWrite bs :: t' => bs ++ device_received t'
  | _ :: t' => device_received t'
  end.

(** All bytes sent on socket [s]. *)
Fixpoint sent_to (s : nat) (t : list action) : bytes :=
  match t with
  | [] => []
  | SockSend s' bs :: t' => if Nat.eqb s s' then bs ++ sent_to s t' else sent_to s t'
  | _ :: t' => sent_to s t'
  end.

(** The number of calls of the [Serial] constructor, and of [sleep]. *)
Fixpoint attempts (t : list action) : nat :=
  match t with
  | [] => 0
  | Acquire :: t' => S (attempts t')
  | _ :: t' => attempts t'
  end.

Fixpoint sleeps (t : list action) : nat :=
  match t with
  | [] => 0
  | Sleep :: t' => S (sleeps t')
  | _ :: t' => sleeps t'
  end.


(** ** Sample runs *)

Module Sample.

Definition accepts : io := mkIo None (inl []) (inl 0) [] [] no_fault.
Definition recvs (bs : bytes) : io := mkIo None (inl bs) (inl 0) [] [] no_fault.
Definition sends (n : nat) : io := mkIo None (inl []) (inl n) [] [] no_fault.
Definition device (ws : list wres) (reply : bytes) : io := mkIo None (inl []) (inl 0) ws reply no_fault.

(** The device is acquired at the first attempt. *)
Definition plug : OpenEnv := mkOpenEnv [mkTick 0 (AcqOk true)] None.

(** A server with device marker CR and socket marker LF, opened; the
    listening socket is object 0. *)
Definition opened : Server := snd (open plug (init [CR] [LF] None None)).

(** ... after one client, object 1, has connected. *)
Definition connected : Server :=
  snd (process_socket 0 DNone EVENT_READ accepts opened).

Definition connected_sel : selector :=
  <[FSock 1 := (EVENT_READ, DClient 1)]> {[FSock 0 := (EVENT_READ, DNone)]}.

(** ... after that client has sent the line PING. *)
Definition asked : Server :=
  snd (process_socket 1 (DClient 1) EVENT_READ (recvs (of_string "PING" ++ [LF])) connected).

(** ... after that client has then closed its connection. *)
Definition gone : Server :=
  snd (process_socket 1 (DClient 1) EVENT_READ (recvs []) asked).

(** ... and a server in the middle of [serve_forever]: it was opened by the
    call, one client has connected, and the loop is waiting for more. *)
Definition serving : Server :=
  snd (serve_forever
         (mkServeEnv plug [[Ready (FSock 0) EVENT_READ accepts]] no_fault)
         (init [CR] [LF] None None)).

End Sample.

(** ** Statements about the acquisition loop of [open] *)

Module Acquisition.

Definition ENOENT : Z := 2.

(** A failed attempt: the time that passed before the loop condition was
    evaluated, and the [errno] of the [OSError] the constructor raised. *)
Definition failure : Type := Q * option Z.

Definition to_tick (f : failure) : tick := mkTick (fst f) (AcqRaise (OSError (snd f))).

Definition busy (f : failure) : bool := errno_is (OSError (snd f)) EBUSY.

(** The clock after the attempt [f] that started at [now] has failed. *)
Definition after_failure (now : Q) (f : failure) : Q :=
  if busy f then (now + fst f + (1 # 10))%Q else (now + fst f)%Q.

(** Every one of the attempts [fs] starts before [deadline]. *)
Fixpoint window_open (deadline now : Q) (fs : list failure) : Prop :=
  match fs with
  | [] => True
  | f :: fs' => (now + fst f < deadline)%Q /\ window_open deadline (after_failure now f) fs'
  end.

Fixpoint clock_after (now : Q) (fs : list failure) : Q :=
  match fs with
  | [] => now
  | f :: fs' => clock_after (after_failure now f) fs'
  end.

Fixpoint busy_count (fs : list failure) : nat :=
  match fs with
  | [] => 0
  | f :: fs' => (if busy f then 1 else 0) + busy_count fs'
  end.

(** What the attempts [fs] leave in the trace. *)
Fixpoint failure_log (fs : list failure) : list action :=
  match fs with
  | [] => []
  | f :: fs' => Acquire :: (if busy f then [Sleep] else []) ++ failure_log fs'
  end.

(** The end of the grace window as [open] computes it on a server in state
    [st]: the float sum [time_i + self.timeout]. *)
Definition window_end (st : Server) : Q := Binary64.add (clock st) (_timeout st).

(** The error of the last attempt, [exc] when there was none. *)
Definition last_error (exc : exn) (fs : list failure) : exn :=
  List.last (map (fun f => OSError (snd f)) fs) exc.

(** The reading "a failure other than busy ends the loop at once": when the
    first attempt is made and fails with something else than [EBUSY], it is
    the only attempt and its error is what [open] raises. *)
Definition aborts_at_first_other_failure (env : OpenEnv) (st : Server) : Prop :=
  forall t ts e,
    ticks env = t :: ts ->
    (clock st + lead t < window_end st)%Q ->
    acquire t = AcqRaise e ->
    errno_is e EBUSY = false ->
    fst (open env st) = Raise e /\
    attempts (trace (snd (open env st))) = S (attempts (trace st)).

(** The device is missing at the first attempt and there at the second. *)
Definition late_device : OpenEnv :=
  mkOpenEnv [mkTick 0 (AcqRaise (OSError (Some ENOENT))); mkTick (1 # 2) (AcqOk true)] None.

End Acquisition.

(** ** Statements about the [timeout] property *)

Module TimeoutProperty.

(** The timeout the device handle works with. *)
Definition device_timeout (st : Server) : option Q := ser_timeout <$> serial st.

Definition same_timeout (a b : option Q) : Prop :=
  match a, b with
  | Some x, Some y => (x == y)%Q
  | None, None => True
  | _, _ => False
  end.

(** The reading "the timeout cannot be changed while Serving": an assignment
    to the property leaves the device timeout of a serving server as it
    was. *)
Definition frozen_while_serving (val : Q) (st : Server) : Prop :=
  _serving st = true ->
  same_timeout (device_timeout (snd (timeout_set val st))) (device_timeout st).

End TimeoutProperty.


(** ** Statements about the device transaction *)

(** Whether the answers [ws] of successive [ser.write] calls let [n] bytes
    through. *)
Fixpoint drains (ws : list wres) (n : nat) : bool :=
  match n with
  | O => true
  | S _ =>
      match ws with
      | Wrote k :: ws' => drains ws' (n - k)
      | _ => false
      end
  end.

(** What the loop of [write_all] appends to the trace. *)
Fixpoint write_log (ws : list wres) (query : bytes) : list action :=
  match query with
  | [] => []
  | _ :: _ =>
      match ws with
      | Wrote n :: ws' => DevWrite (take n query) :: write_log ws' (drop n query)
      | _ => []
      end
  end.

(** ** Statements about the queue and the device registration *)

Module Queue.

(** The device is registered for write-readiness. *)
Definition device_armed (st : Server) : Prop :=
  interest st FSerial = Some (EVENT_WRITE, DQueue).

(** The states a freshly opened server can get into by calls of the two
    handlers, whatever their arguments and whatever their outcome. *)
Inductive reachable : Server -> Prop :=
| reach_open (env : OpenEnv) (st st' : Server) :
    _open st = false ->
    open env st = (Ok tt, st') ->
    reachable st'
| reach_socket (s : nat) (data : keydata) (mask : N) (w : io) (st : Server) :
    reachable st ->
    reachable (snd (process_socket s data mask w st))
| reach_serial (data : keydata) (mask : N) (w : io) (st : Server) :
    reachable st ->
    reachable (snd (process_serial data mask w st)).

(** There is a live selector, and the device is either registered for
    writing with a non-empty queue or not registered with an empty one. *)
Definition armed_iff_pending (st : Server) : Prop :=
  exists m, sel st = Some m /\
    ((m !! FSerial = Some (EVENT_WRITE, DQueue) /\ ser_queue st <> []) \/
     (m !! FSerial = None /\ ser_queue st = [])).

(** From [st] to [st'] the trace has grown by [t], and what was taken from
    the queue meanwhile, followed by what is in it now, is what was in it
    before, followed by what was appended meanwhile. *)
Definition fifo_step (st st' : Server) : Prop :=
  exists t, trace st' = trace st ++ t /\
            served t ++ ser_queue st' = ser_queue st ++ submitted t.

(** The bytes the device accepted from the beginning of [t] up to the next
    transaction. *)
Fixpoint written (t : list action) : bytes :=
  match t with
  | [] => []
  | Transact _ _ :: _ => []
  | DevWrite bs :: t' => bs ++ written t'
  | _ :: t' => written t'
  end.

(** The device transactions of a trace, in the order they happened: the
    queue entry that was taken, and the bytes the device accepted before the
    next entry was taken. *)
Fixpoint transactions (t : list action) : list ((bytes * nat) * bytes) :=
  match t with
  | [] => []
  | Transact cmd b :: t' => ((cmd, b), written t') :: transactions t'
  | _ :: t' => transactions t'
  end.

(** The device was sent the command of the entry followed by the device
    marker [eol], all of it, or the beginning of it. *)
Definition sent_whole (eol : bytes) (x : (bytes * nat) * bytes) : Prop :=
  snd x = fst (fst x) ++ eol.

Definition sent_part (eol : bytes) (x : (bytes * nat) * bytes) : Prop :=
  snd x `prefix_of` fst (fst x) ++ eol.

Definition returned {A} (r : result A) : bool :=
  match r with
  | Ok _ => true
  | _ => false
  end.

(** Every transaction sent the device exactly its own command and the
    marker; when the call did not return, the last transaction may have
    stopped somewhere in its query. *)
Definition in_order (eol : bytes) (ok : bool) (txs : list ((bytes * nat) * bytes)) : Prop :=
  match ok with
  | true => Forall (sent_whole eol) txs
  | false => Forall (sent_whole eol) (removelast txs) /\
             (forall x, last txs = Some x -> sent_part eol x)
  end.

(** From [st] to the outcome [out] of a call the trace has grown by [t]; the
    device marker is the same; the device has accepted no byte outside a
    transaction, and the transactions are [in_order]. *)
Definition device_step {A} (st : Server) (out : result A * Server) : Prop :=
  exists t, trace (snd out) = trace st ++ t /\
            eol_ser (snd out) = eol_ser st /\
            written t = [] /\
            in_order (eol_ser st) (returned (fst out)) (transactions t).

(** The same for a call that has nothing to do with the queue or the
    device. *)
Definition silent_step (st st' : Server) : Prop :=
  exists t, trace st' = trace st ++ t /\
            eol_ser st' = eol_ser st /\
            served t = [] /\ device_received t = [].

(** Two clients (objects 1 and 2): client 2 sends one line, then client 1
    sends two lines in one segment; the device answers each query, taking
    one of them in two pieces; client 2 is sent its reply; a termination
    signal ends the loop. *)
Definition two_clients : ServeEnv :=
  mkServeEnv Sample.plug
    [ [Ready (FSock 0) EVENT_READ Sample.accepts];
      [Ready (FSock 0) EVENT_READ Sample.accepts];
      [Ready (FSock 2) EVENT_READ (Sample.recvs (of_string "B1" ++ [LF]));
       Ready (FSock 1) EVENT_READ (Sample.recvs (of_string "A1" ++ [LF] ++ of_string "A2" ++ [LF]))];
      [Ready FSerial EVENT_WRITE (Sample.device [Wrote 3] (of_string "b1" ++ [CR]))];
      [Ready FSerial EVENT_WRITE (Sample.device [Wrote 1; Wrote 2] (of_string "a1" ++ [CR]));
       Ready (FSock 2) EVENT_WRITE (Sample.sends 3)];
      [Ready FSerial EVENT_WRITE (Sample.device [Wrote 3] (of_string "a2" ++ [CR]));
       Signal;
       Ready (FSock 1) EVENT_WRITE (Sample.sends 6)] ]
    no_fault.

End Queue.

(** ** Statements about the cleanup of [serve_forever] *)

Module Cleanup.

Definition ENOTCONN : Z := 107.

(** The peer of socket 1 has reset the connection: [shutdown] on it raises
    [OSError(ENOTCONN)]. *)
Definition peer_reset : action -> option exn :=
  fun a =>
    match a with
    | SockShutdown 1 => Some (OSError (Some ENOTCONN))
    | _ => None
    end.

(** One client connects, then a termination signal arrives. *)
Definition connect_then_stop (fault : action -> option exn) : ServeEnv :=
  mkServeEnv Sample.plug [[Ready (FSock 0) EVENT_READ Sample.accepts]; [Signal]] fault.

End Cleanup.

(** ** The rest of the class: context manager and signal handler *)

(** [__enter__] *)
Definition __enter__ (env : OpenEnv) : M unit := open env.

(** [__exit__] *)
Definition __exit__ (fault : action -> option exn) : M unit := close fault.

Definition SIGINT : Z := 2.
Definition SIGTERM : Z := 15.

(** [handle_signals]; the message it prints is left out. *)
Definition handle_signals (signum : Z) : M unit :=
  st <- get ;;
  when ((Z.eqb signum SIGINT || Z.eqb signum SIGTERM) && _serving st) stop.

(** What the write loop of [process_serial] comes to for a query of [n]
    bytes. *)
Fixpoint write_outcome (ws : list wres) (n : nat) : result unit :=
  match n with
  | O => Ok tt
  | S _ =>
      match ws with
      | [] => Blocked
      | Wrote k :: ws' => write_outcome ws' (n - k)
      | WriteRaises e :: _ => Raise e
      end
  end.

(** From [st] to [st'] nothing of the lifecycle or the configuration has
    changed: the Open and Serving flags, the device handle, the listening
    socket, the end-of-line markers and the timeouts are the same, and a
    shutdown request that was set is still set. *)
Definition keeps_lifecycle (st st' : Server) : Prop :=
  _open st' = _open st /\ _serving st' = _serving st /\
  serial st' = serial st /\ sock st' = sock st /\
  eol_sock st' = eol_sock st /\ eol_ser st' = eol_ser st /\
  _timeout st' = _timeout st /\ kw_timeout st' = kw_timeout st /\
  kw_write_timeout st' = kw_write_timeout st /\
  (_shutdown_request st = true -> _shutdown_request st' = true).

Definition ECONNRESET : Z := 104.

(** One client connects; the next [recv] on its socket raises
    [ConnectionResetError]. *)
Definition reset_on_recv : ServeEnv :=
  mkServeEnv Sample.plug
    [ [Ready (FSock 0) EVENT_READ Sample.accepts];
      [Ready (FSock 1) EVENT_READ
         (mkIo None (inr (OSError (Some ECONNRESET))) (inl 0) [] [] no_fault)] ]
    no_fault.

(** The sample server after its client has sent the line PING and the device
    has answered PONG. *)
Definition replied : Server :=
  snd (process_serial DQueue EVENT_WRITE
         (Sample.device [Wrote 5] (of_string "PONG" ++ [CR])) Sample.asked).

(** [x] put in front of the first segment. *)
Definition prepend (x : bytes) (segments : list bytes) : list bytes :=
  match segments with
  | c :: cs => (x ++ c) :: cs
  | [] => []
  end.

(** ** Serving again *)

(** The arguments [loadconfig] collects for [__init__] from a section of the
    configuration file. *)
Record config := mkConfig {
  cfg_eol_ser : bytes;
  cfg_eol_sock : bytes;
  cfg_timeout : option Q;
  cfg_write_timeout : option Q
}.

(** [__init__] called on an existing object.  The assignments are made in
    the order of the source; the one to [self.timeout] goes through the
    property setter, which may raise and then leaves the assignments after
    it undone. *)
Definition __init__ (c : config) : M unit :=
  modify (set_open false) >>
  modify (set_serving false) >>
  modify (set_shutdown_request false) >>
  modify (fun st =>
    mkServer (_open st) (_serving st) (_shutdown_request st)
             (cfg_eol_sock c) (cfg_eol_ser c)
             (default 1%Q (cfg_timeout c)) (cfg_write_timeout c)
             (_timeout st) None (sock st) (sel st) (ser_queue st) (clients st)
             (objs st) (next_id st) (clock st) (trace st)) >>
  timeout_set (default 1%Q (cfg_timeout c)) >>
  modify (set_sock None) >>
  modify (set_sel None) >>
  modify (set_ser_queue []) >>
  modify (set_clients ∅).

(** [loadconfig].  Reading and parsing the file is the environment's: it
    raises, or it gives the arguments for [__init__]. *)
Definition loadconfig (read : exn + config) : M unit :=
  st <- get ;;
  if _open st then raise RuntimeError
  else
    match read with
    | inl e => raise e
    | inr c => __init__ c
    end.

(** A call of a method of the server other than [__init__] and
    [loadconfig]. *)
Inductive call :=
| CallOpen (env : OpenEnv)
| CallClose (fault : action -> option exn)
| CallEnter (env : OpenEnv)
| CallExit (fault : action -> option exn)
| CallStop
| CallTimeout (val : Q)
| CallSignal (signum : Z)
| CallSocket (s : nat) (data : keydata) (mask : N) (w : io)
| CallSerial (data : keydata) (mask : N) (w : io)
| CallServe (env : ServeEnv).

Definition run_call (c : call) : M unit :=
  match c with
  | CallOpen env => open env
  | CallClose fault => close fault
  | CallEnter env => __enter__ env
  | CallExit fault => __exit__ fault
  | CallStop => stop
  | CallTimeout val => timeout_set val
  | CallSignal signum => handle_signals signum
  | CallSocket s data mask w => process_socket s data mask w
  | CallSerial data mask w => process_serial data mask w
  | CallServe env => serve_forever env
  end.

(** The state after the calls [cs], one after the other, whatever each of
    them returned or raised. *)
Fixpoint run_calls (cs : list call) (st : Server) : Server :=
  match cs with
  | [] => st
  | c :: cs' => run_calls cs' (snd (run_call c st))
  end.

(** A shutdown request that is set stays set. *)
Definition keeps_request (st st' : Server) : Prop :=
  _shutdown_request st = true -> _shutdown_request st' = true.

(** [env] with nothing for the loop to look at. *)
Definition no_events (env : ServeEnv) : ServeEnv :=
  mkServeEnv (sf_open env) [] (sf_fault env).

(** The sample server after one client has connected and a termination
    signal has ended [serve_forever]; then closed; then configured again. *)
Definition has_served : Server :=
  snd (serve_forever (Cleanup.connect_then_stop no_fault) (init [CR] [LF] None None)).

Definition closed_again : Server := snd (close no_fault has_served).

Definition sample_config : config := mkConfig [CR] [LF] None None.

Definition configured_again : Server := snd (loadconfig (inr sample_config) closed_again).

(** A second round: the listening socket is now object 2; a client, object
    3, connects and sends the line PING, the device answers, a termination
    signal ends the loop. *)
Definition second_round : ServeEnv :=
  mkServeEnv Sample.plug
    [ [Ready (FSock 2) EVENT_READ Sample.accepts];
      [Ready (FSock 3) EVENT_READ (Sample.recvs (of_string "PING" ++ [LF]))];
      [Ready FSerial EVENT_WRITE (Sample.device [Wrote 5] (of_string "PONG" ++ [CR])); Signal] ]
    no_fault.

(** ** Sanity checks of the model *)

Example split_ex1 : split [LF] (of_string "ABCD" ++ [LF]) = Some [of_string "ABCD"; []].
Proof. reflexivity. Qed.
Example split_ex2 : split (of_string "aa") (of_string "aaa") = Some [[]; of_string "a"].
Proof. reflexivity. Qed.
Example split_ex3 : split (of_string "ab") (of_string "xabyabab") = Some [of_string "x"; of_string "y"; []; []].
Proof. reflexivity. Qed.
Example replace_ex1 : replace [CR] [LF] (of_string "PONG" ++ [CR]) = of_string "PONG" ++ [LF].
Proof. reflexivity. Qed.
Example replace_ex2 : replace [] (of_string "-") (of_string "ab") = of_string "-a-b-".
Proof. reflexivity. Qed.

Example opened_ok : fst (open Sample.plug (init [CR] [LF] None None)) = Ok tt.
Proof. vm_compute. reflexivity. Qed.
Example connected_clients : elements (clients Sample.connected) = [1].
Proof. vm_compute. reflexivity. Qed.

(** ** Facts about [split], [join] and [replace] *)

Section BytesFacts.

Lemma byte_eqb_eq (a b : byte) : byte_eqb a b = true <-> a = b.
Proof.
  unfold byte_eqb. split.
  - apply Byte.byte_dec_bl.
  - apply Byte.byte_dec_lb.
Qed.

Lemma starts_with_app (p r : bytes) : starts_with p (p ++ r) = true.
Proof.
  induction p as [|a p IH]; simpl; [reflexivity|].
  rewrite IH, andb_true_r. apply byte_eqb_eq. reflexivity.
Qed.

Lemma starts_with_inv (p s : bytes) :
  starts_with p s = true -> exists r, s = p ++ r.
Proof.
  revert s. induction p as [|a p IH]; intros s H.
  - exists s. reflexivity.
  - destruct s as [|b s]; simpl in H; [discriminate|].
    apply andb_true_iff in H as [Hab Hps].
    apply byte_eqb_eq in Hab. subst b.
    destruct (IH _ Hps) as [r ->]. exists r. reflexivity.
Qed.

Lemma split_go_skip (sep pre r cur : bytes) :
  split_go sep (length pre) cur (pre ++ r) = split_go sep 0 cur r.
Proof.
  induction pre as [|a pre IH]; simpl; [reflexivity | exact IH].
Qed.

Lemma split_go_nil (sep cur : bytes) : split_go sep 0 cur [] = [rev cur].
Proof. reflexivity. Qed.

(** At an occurrence of the separator the current segment ends. *)
Lemma split_go_match (sep r cur : bytes) :
  sep <> [] ->
  split_go sep 0 cur (sep ++ r) = rev cur :: split_go sep 0 [] r.
Proof.
  intros Hsep. destruct sep as [|a sep']; [congruence|].
  change ((a :: sep') ++ r) with (a :: (sep' ++ r)).
  cbn [split_go].
  change (a :: sep' ++ r) with ((a :: sep') ++ r).
  rewrite starts_with_app. f_equal.
  cbn [length]. rewrite Nat.sub_1_r. cbn [Nat.pred].
  apply split_go_skip.
Qed.

(** Elsewhere the byte joins the current segment. *)
Lemma split_go_other (sep s cur : bytes) (b : byte) :
  starts_with sep (b :: s) = false ->
  split_go sep 0 cur (b :: s) = split_go sep 0 (b :: cur) s.
Proof. intros H. cbn [split_go]. rewrite H. reflexivity. Qed.

Lemma split_go_nonempty (sep s cur : bytes) (k : nat) : split_go sep k cur s <> [].
Proof.
  revert k cur. induction s as [|b s IH]; intros k cur; cbn [split_go].
  - discriminate.
  - destruct k; [|apply IH].
    destruct (starts_with sep (b :: s)); [discriminate | apply IH].
Qed.

Lemma join_cons (sep p : bytes) (ps : list bytes) :
  ps <> [] -> join sep (p :: ps) = p ++ sep ++ join sep ps.
Proof. destruct ps; [congruence | reflexivity]. Qed.

Lemma join_split_go (sep : bytes) :
  sep <> [] ->
  forall n s cur, length s <= n -> join sep (split_go sep 0 cur s) = rev cur ++ s.
Proof.
  intros Hsep. induction n as [|n IH]; intros s cur Hlen.
  - destruct s; [|simpl in Hlen; lia]. simpl. rewrite app_nil_r. reflexivity.
  - destruct s as [|b s]; [simpl; rewrite app_nil_r; reflexivity|].
    destruct (starts_with sep (b :: s)) eqn:Hst.
    + destruct (starts_with_inv _ _ Hst) as [r Hr]. rewrite Hr.
      rewrite split_go_match by assumption.
      rewrite join_cons by apply split_go_nonempty.
      rewrite (IH r []).
      * reflexivity.
      * assert (length (b :: s) = length sep + length r) as Hl
          by (rewrite Hr; apply length_app).
        destruct sep; [congruence|]. simpl in Hl, Hlen |- *. lia.
    + rewrite split_go_other by assumption.
      rewrite (IH s (b :: cur)) by (simpl in Hlen; lia).
      simpl. rewrite <- app_assoc. reflexivity.
Qed.

(** Joining the segments with the separator gives the input back. *)
Lemma join_split (sep s : bytes) (chunks : list bytes) :
  split sep s = Some chunks -> join sep chunks = s.
Proof.
  unfold split. destruct sep as [|a sep'] eqn:E; [discriminate|].
  intros [= <-]. rewrite <- E.
  apply (join_split_go sep ltac:(congruence) (length s) s []). lia.
Qed.

Lemma split_nonempty (sep s : bytes) (chunks : list bytes) :
  split sep s = Some chunks -> chunks <> [].
Proof.
  unfold split. destruct sep; [discriminate|].
  intros [= <-]. apply split_go_nonempty.
Qed.

End BytesFacts.

(** ** Running the monad symbolically *)

(** [mrun] unfolds the monad and the small operations built on it; [mred]
    then reduces field accesses and updates on explicit records. *)
Ltac mrun :=
  cbv beta iota delta
    [bind ret raise blocked get modify log when syscall
     the_sel sel_register sel_unregister sel_modify
     time sleep_tenth fresh load store_in_buf store_out_buf buffers_of] in *.

Ltac mred :=
  cbn [set_open set_serving set_shutdown_request set_timeout set_serial set_sock
       set_sel set_ser_queue set_clients set_objs set_next_id set_clock set_trace
       _open _serving _shutdown_request eol_sock eol_ser kw_timeout kw_write_timeout
       _timeout serial sock sel ser_queue clients objs next_id clock trace
       serial_is_open is_open ser_timeout ser_write_timeout
       cb_sock in_buf out_buf lead acquire ticks listen
       io_accept io_recv io_send io_writes io_reply io_fault
       is_OSError negb andb orb fst snd nonempty] in *.

Ltac msimpl := mrun; mred.

(** [mgo] also rewrites with the hypotheses that decide a pending [match]. *)
Ltac mgo :=
  repeat (mred;
          try match goal with
              | H : ?x = _ |- context [match ?x with _ => _ end] => rewrite H
              end).

Lemma Qltb_true (x y : Q) : (x < y)%Q -> Qltb x y = true.
Proof.
  intros H. unfold Qltb. destruct (Qle_bool y x) eqn:E; [|reflexivity].
  apply Qle_bool_iff in E. lra.
Qed.

Lemma Qltb_false (x y : Q) : (y <= x)%Q -> Qltb x y = false.
Proof.
  intros H. unfold Qltb. apply Qle_bool_iff in H. rewrite H. reflexivity.
Qed.

Lemma add_zero (x y : Q) : (y == 0)%Q -> Binary64.add x y = x.
Proof.
  intros H. unfold Binary64.add.
  rewrite (proj2 (Qeq_bool_iff y 0) H). reflexivity.
Qed.

(** Some sums as binary64 has them. *)
Example add_tenths :
  Qeq_bool (Binary64.add (Binary64.round (1 # 10)) (Binary64.round (2 # 10)))
           (5404319552844596 # 18014398509481984) = true /\
  Qeq_bool (Binary64.add (Binary64.round (1 # 10)) (Binary64.round (2 # 10))) (3 # 10) = false.
Proof. vm_compute. split; reflexivity. Qed.

Example add_absorbed :
  Qeq_bool (Binary64.add 1700000000 (1 # 1000000000)) 1700000000 = true /\
  Qeq_bool (Binary64.add 9007199254740992 1) 9007199254740992 = true /\
  Qeq_bool (Binary64.add 9007199254740992 3) 9007199254740996 = true.
Proof. vm_compute. repeat split; reflexivity. Qed.


(** ** Lifecycle *)

Module Lifecycle.

(** C7. [close()] on a server whose Serving flag is set raises
    [RuntimeError] and returns the server exactly as it was: flags, selector,
    device handle, command queue, listening socket, client set and
    everything else. *)
Theorem close_while_serving (fault : action -> option exn) (st : Server) :
  _serving st = true ->
  close fault st = (Raise RuntimeError, st).
Proof.
  intros H. unfold close. msimpl. rewrite H. reflexivity.
Qed.

Lemma close_while_serving_witness :
  _serving Sample.serving = true /\
  close no_fault Sample.serving = (Raise RuntimeError, Sample.serving).
Proof.
  split; [reflexivity|].
  apply (close_while_serving no_fault Sample.serving). reflexivity.
Defined.

End Lifecycle.

Module TimeoutFacts.
Import TimeoutProperty.

(** C9, as the code has it.  The setter never looks at the Serving flag: on
    every server that holds a device handle, serving or not, assigning a
    non-negative value succeeds, and the value becomes the read and the write
    timeout of the device and the stored timeout of the server. *)
Theorem timeout_set_any_state (val : Q) (st : Server) (h : Serial) :
  serial st = Some h ->
  (0 <= val)%Q ->
  exists st',
    timeout_set val st = (Ok tt, st') /\
    serial st' = Some (mkSerial (is_open h) val (Some val)) /\
    _timeout st' = val /\
    _serving st' = _serving st.
Proof.
  intros Hser Hval. unfold timeout_set.
  rewrite (Qltb_false val 0 Hval).
  destruct st. msimpl. subst. msimpl.
  eexists. repeat split; reflexivity.
Qed.

Lemma timeout_set_any_state_witness :
  _serving Sample.serving = true /\
  serial Sample.serving = Some (mkSerial true 1 None) /\
  (0 <= 5)%Q /\
  exists st',
    timeout_set 5 Sample.serving = (Ok tt, st') /\
    serial st' = Some (mkSerial true 5 (Some 5%Q)) /\
    _timeout st' = 5%Q /\
    _serving st' = _serving Sample.serving.
Proof.
  split; [reflexivity|]. split; [reflexivity|]. split; [discriminate|].
  apply (timeout_set_any_state 5 Sample.serving (mkSerial true 1 None)).
  - reflexivity.
  - discriminate.
Defined.

(** C9, as the claim has it, fails: on the serving sample server the device
    timeout is 1, and after assigning 5 it is 5. *)
Lemma timeout_changes_while_serving :
  ~ frozen_while_serving 5 Sample.serving.
Proof.
  unfold frozen_while_serving. intros H.
  specialize (H eq_refl). vm_compute in H. discriminate H.
Qed.

(** The constructor with a timeout that is not negative returns [init]. *)
Lemma SerialServer_init (eol_ser_ eol_sock_ : bytes) (timeout write_timeout : option Q) :
  (0 <= default 1%Q timeout)%Q ->
  SerialServer eol_ser_ eol_sock_ timeout write_timeout
  = (Ok tt, init eol_ser_ eol_sock_ timeout write_timeout).
Proof.
  intros H. unfold SerialServer, timeout_set. rewrite (Qltb_false _ _ H). reflexivity.
Qed.

(** A negative value is rejected and nothing changes. *)
Lemma timeout_set_negative (val : Q) (st : Server) :
  (val < 0)%Q -> timeout_set val st = (Raise ValueError, st).
Proof.
  intros H. unfold timeout_set. rewrite (Qltb_true _ _ H). reflexivity.
Qed.

End TimeoutFacts.

Module AcquisitionFacts.
Import Acquisition.

(** C10. With a configured timeout of 0, [open()] on a closed server never
    calls the [Serial] constructor, whatever the device would answer, and
    raises the [Exception()] it created before the loop.  The clock is read
    twice, for [time_i] and for the loop condition; the only assumption is
    that it does not run backwards between the two readings. *)
Theorem open_zero_timeout (env : OpenEnv) (st : Server) (t : tick) (ts : list tick) :
  _open st = false ->
  (_timeout st == 0)%Q ->
  ticks env = t :: ts ->
  (0 <= lead t)%Q ->
  exists st',
    open env st = (Raise Exception_, st') /\
    trace st' = trace st /\
    attempts (trace st') = attempts (trace st) /\
    serial st' = None /\
    _open st' = false.
Proof.
  intros Hopen Hzero Hticks Hlead.
  unfold open. destruct st, env. msimpl. subst. msimpl.
  rewrite (add_zero _ _ Hzero).
  cbn [open_loop]. msimpl.
  rewrite Qltb_false by lra.
  msimpl. eexists. repeat split; reflexivity.
Qed.

Lemma open_zero_timeout_witness :
  let st := init [LF] [LF] (Some 0%Q) None in
  _open st = false /\ (_timeout st == 0)%Q /\ (0 <= lead (mkTick (1 # 1000) (AcqOk true)))%Q /\
  exists st',
    open (mkOpenEnv [mkTick (1 # 1000) (AcqOk true)] None) st = (Raise Exception_, st') /\
    trace st' = trace st /\
    attempts (trace st') = attempts (trace st) /\
    serial st' = None /\
    _open st' = false.
Proof.
  cbv zeta.
  split; [reflexivity|]. split; [reflexivity|]. split; [discriminate|].
  apply (open_zero_timeout (mkOpenEnv [mkTick (1 # 1000) (AcqOk true)] None)
           (init [LF] [LF] (Some 0%Q) None) (mkTick (1 # 1000) (AcqOk true)) []).
  - reflexivity.
  - reflexivity.
  - reflexivity.
  - discriminate.
Defined.

Lemma attempts_app (t1 t2 : list action) : attempts (t1 ++ t2) = attempts t1 + attempts t2.
Proof.
  induction t1 as [|a t1 IH]; [reflexivity|].
  destruct a; simpl; rewrite IH; reflexivity.
Qed.

Lemma sleeps_app (t1 t2 : list action) : sleeps (t1 ++ t2) = sleeps t1 + sleeps t2.
Proof.
  induction t1 as [|a t1 IH]; [reflexivity|].
  destruct a; simpl; rewrite IH; reflexivity.
Qed.

Lemma last_cons_default {A} (l : list A) (a d : A) :
  List.last (a :: l) d = List.last l a.
Proof.
  revert a d. induction l as [|b l IH]; intros a d; [reflexivity|].
  change (List.last (a :: b :: l) d) with (List.last (b :: l) d).
  rewrite (IH b d), (IH b a). reflexivity.
Qed.

Lemma failure_log_attempts (fs : list failure) : attempts (failure_log fs) = length fs.
Proof.
  induction fs as [|f fs IH]; [reflexivity|].
  cbn [failure_log attempts length]. rewrite attempts_app, IH.
  destruct (busy f); reflexivity.
Qed.

Lemma failure_log_sleeps (fs : list failure) : sleeps (failure_log fs) = busy_count fs.
Proof.
  induction fs as [|f fs IH]; [reflexivity|].
  cbn [failure_log sleeps busy_count]. rewrite sleeps_app, IH.
  destruct (busy f); reflexivity.
Qed.

(** The loop over attempts that all fail with an [OSError] inside the
    window: it goes on with the next turn, the last error in [exc]. *)
Lemma open_loop_skip (d : Q) (fs : list failure) :
  forall (exc : exn) (st : Server) (rest : list tick),
    window_open d (clock st) fs ->
    open_loop d exc (map to_tick fs ++ rest) st =
    open_loop d (last_error exc fs) rest
      (set_trace (trace st ++ failure_log fs) (set_clock (clock_after (clock st) fs) st)).
Proof.
  induction fs as [|f fs IH]; intros exc st rest Hwin.
  - cbn [map app failure_log clock_after]. unfold last_error. cbn [map List.last].
    destruct st. mred. rewrite app_nil_r. reflexivity.
  - destruct Hwin as [Hnow Hwin]. destruct f as [l en].
    assert (last_error exc ((l, en) :: fs) = last_error (OSError en) fs) as Hlast.
    { unfold last_error. cbn [map snd]. apply last_cons_default. }
    cbn [map app].
    change (to_tick (l, en)) with (mkTick l (AcqRaise (OSError en))).
    cbn [open_loop]. destruct st. msimpl.
    rewrite Qltb_true by exact Hnow. msimpl.
    cbn [failure_log clock_after]. unfold after_failure, busy in *. msimpl.
    destruct (errno_is (OSError en) EBUSY) eqn:Hbusy; msimpl.
    + rewrite IH by exact Hwin. mred.
      f_equal; [symmetry; exact Hlast | rewrite <- !app_assoc; reflexivity].
    + rewrite IH by exact Hwin. mred.
      f_equal; [symmetry; exact Hlast | rewrite <- !app_assoc; reflexivity].
Qed.

(** The window closes on attempts that have all failed with an [OSError]:
    [open] raises the error of the last one. *)
Lemma open_window_closes
    (env : OpenEnv) (st : Server) (fs : list failure) (tl : tick) (ts : list tick) :
  _open st = false ->
  ticks env = map to_tick fs ++ tl :: ts ->
  window_open (window_end st) (clock st) fs ->
  (window_end st <= clock_after (clock st) fs + lead tl)%Q ->
  exists st',
    open env st = (Raise (last_error Exception_ fs), st') /\
    attempts (trace st') = attempts (trace st) + length fs /\
    sleeps (trace st') = sleeps (trace st) + busy_count fs /\
    _open st' = false.
Proof.
  intros Hopen Hticks Hwin Hend. unfold window_end in *.
  unfold open. destruct st, env. msimpl. subst. msimpl.
  rewrite open_loop_skip by exact Hwin. mred.
  cbn [open_loop]. msimpl.
  rewrite Qltb_false by exact Hend. msimpl.
  eexists. split; [reflexivity|]. mred.
  rewrite attempts_app, sleeps_app, failure_log_attempts, failure_log_sleeps.
  repeat split; reflexivity.
Qed.

(** An exception of the constructor that is not an [OSError] is not caught:
    it leaves the loop, and [open], at once, however many attempts have
    failed with an [OSError] before. *)
Lemma open_other_exception
    (env : OpenEnv) (st : Server) (fs : list failure) (t : tick) (ts : list tick) (e : exn) :
  _open st = false ->
  ticks env = map to_tick fs ++ t :: ts ->
  window_open (window_end st) (clock st) fs ->
  (clock_after (clock st) fs + lead t < window_end st)%Q ->
  acquire t = AcqRaise e ->
  is_OSError e = false ->
  exists st',
    open env st = (Raise e, st') /\
    attempts (trace st') = attempts (trace st) + length fs + 1 /\
    sleeps (trace st') = sleeps (trace st) + busy_count fs /\
    _open st' = false.
Proof.
  intros Hopen Hticks Hwin Hnow Hacq Hos. unfold window_end in *.
  unfold open. destruct st, env. msimpl. subst. msimpl.
  rewrite open_loop_skip by exact Hwin. mred.
  cbn [open_loop]. msimpl.
  rewrite Qltb_true by exact Hnow. rewrite Hacq, Hos. msimpl.
  eexists. split; [reflexivity|]. mred.
  rewrite !attempts_app, !sleeps_app, failure_log_attempts, failure_log_sleeps.
  cbn [attempts sleeps]. repeat split; lia.
Qed.

(** An attempt that succeeds ends the loop as well: the port is kept, the
    listening socket is created and the server is open. *)
Lemma open_acquires
    (env : OpenEnv) (st : Server) (fs : list failure) (t : tick) (ts : list tick) :
  _open st = false ->
  ticks env = map to_tick fs ++ t :: ts ->
  window_open (window_end st) (clock st) fs ->
  (clock_after (clock st) fs + lead t < window_end st)%Q ->
  acquire t = AcqOk true ->
  listen env = None ->
  exists st',
    open env st = (Ok tt, st') /\
    attempts (trace st') = attempts (trace st) + length fs + 1 /\
    sleeps (trace st') = sleeps (trace st) + busy_count fs /\
    serial_is_open st' = true /\
    _open st' = true.
Proof.
  intros Hopen Hticks Hwin Hnow Hacq Hlisten. unfold window_end in *.
  unfold open. destruct st, env. msimpl. subst. msimpl.
  rewrite open_loop_skip by exact Hwin. mred.
  cbn [open_loop]. msimpl.
  rewrite Qltb_true by exact Hnow. rewrite Hacq. msimpl.
  rewrite lookup_empty. mred.
  eexists. split; [reflexivity|]. mred.
  rewrite !attempts_app, !sleeps_app, failure_log_attempts, failure_log_sleeps.
  cbn [attempts sleeps]. repeat split; lia.
Qed.

(** C5, as the code has it.  The grace window ends at the float sum
    [time_i + self.timeout]; an attempt is made whenever the clock reads less
    than that.  Inside the window every [OSError] of the constructor, busy
    or not, is followed by another attempt; [sleep(0.1)] is called after the
    busy ones only.  After any number of such failures the acquisition ends
    in one of three ways.  The loop condition finds the window closed:
    [open] raises the error of the last attempt.  The constructor raises
    something that is not an [OSError]: this ends the acquisition at once,
    it is the last attempt and it is what [open] raises.  The constructor
    returns an open port: [open] goes on and the server is open. *)
Theorem open_retries_until_window_closes :
  (forall (env : OpenEnv) (st : Server) (fs : list failure) (tl : tick) (ts : list tick),
      _open st = false ->
      ticks env = map to_tick fs ++ tl :: ts ->
      window_open (window_end st) (clock st) fs ->
      (window_end st <= clock_after (clock st) fs + lead tl)%Q ->
      exists st',
        open env st = (Raise (last_error Exception_ fs), st') /\
        attempts (trace st') = attempts (trace st) + length fs /\
        sleeps (trace st') = sleeps (trace st) + busy_count fs /\
        _open st' = false) /\
  (forall (env : OpenEnv) (st : Server) (fs : list failure) (t : tick) (ts : list tick) (e : exn),
      _open st = false ->
      ticks env = map to_tick fs ++ t :: ts ->
      window_open (window_end st) (clock st) fs ->
      (clock_after (clock st) fs + lead t < window_end st)%Q ->
      acquire t = AcqRaise e ->
      is_OSError e = false ->
      exists st',
        open env st = (Raise e, st') /\
        attempts (trace st') = attempts (trace st) + length fs + 1 /\
        sleeps (trace st') = sleeps (trace st) + busy_count fs /\
        _open st' = false) /\
  (forall (env : OpenEnv) (st : Server) (fs : list failure) (t : tick) (ts : list tick),
      _open st = false ->
      ticks env = map to_tick fs ++ t :: ts ->
      window_open (window_end st) (clock st) fs ->
      (clock_after (clock st) fs + lead t < window_end st)%Q ->
      acquire t = AcqOk true ->
      listen env = None ->
      exists st',
        open env st = (Ok tt, st') /\
        attempts (trace st') = attempts (trace st) + length fs + 1 /\
        sleeps (trace st') = sleeps (trace st) + busy_count fs /\
        serial_is_open st' = true /\
        _open st' = true).
Proof.
  split; [exact open_window_closes|].
  split; [exact open_other_exception | exact open_acquires].
Qed.

Lemma open_retries_until_window_closes_witness :
  let st := init [LF] [LF] None None in
  let fs := [(0%Q, Some ENOENT); ((1 # 2)%Q, Some EBUSY)] in
  let tl := mkTick 1 (AcqOk true) in
  let t := mkTick (1 # 10) (AcqRaise KeyError) in
  let t' := mkTick (1 # 10) (AcqOk true) in
  _open st = false /\
  window_open (window_end st) (clock st) fs /\
  (window_end st <= clock_after (clock st) fs + lead tl)%Q /\
  (clock_after (clock st) fs + lead t < window_end st)%Q /\
  is_OSError KeyError = false /\
  (exists st',
    open (mkOpenEnv (map to_tick fs ++ [tl]) None) st = (Raise (OSError (Some EBUSY)), st') /\
    attempts (trace st') = 2 /\
    sleeps (trace st') = 1 /\
    _open st' = false) /\
  (exists st',
    open (mkOpenEnv (map to_tick fs ++ [t]) None) st = (Raise KeyError, st') /\
    attempts (trace st') = 3 /\
    sleeps (trace st') = 1 /\
    _open st' = false) /\
  (exists st',
    open (mkOpenEnv (map to_tick fs ++ [t']) None) st = (Ok tt, st') /\
    attempts (trace st') = 3 /\
    sleeps (trace st') = 1 /\
    serial_is_open st' = true /\
    _open st' = true).
Proof.
  cbv zeta.
  assert (Hwin : window_open (window_end (init [LF] [LF] None None))
                   (clock (init [LF] [LF] None None))
                   [(0%Q, Some ENOENT); ((1 # 2)%Q, Some EBUSY)])
    by (cbn; split; [reflexivity | split; [reflexivity | exact I]]).
  split; [reflexivity|]. split; [exact Hwin|].
  split; [discriminate|]. split; [reflexivity|]. split; [reflexivity|].
  split; [|split].
  - apply (proj1 open_retries_until_window_closes
             (mkOpenEnv (map to_tick [(0%Q, Some ENOENT); ((1 # 2)%Q, Some EBUSY)]
                           ++ [mkTick 1 (AcqOk true)]) None)
             (init [LF] [LF] None None)
             [(0%Q, Some ENOENT); ((1 # 2)%Q, Some EBUSY)]
             (mkTick 1 (AcqOk true)) []).
    + reflexivity.
    + reflexivity.
    + exact Hwin.
    + discriminate.
  - apply (proj1 (proj2 open_retries_until_window_closes)
             (mkOpenEnv (map to_tick [(0%Q, Some ENOENT); ((1 # 2)%Q, Some EBUSY)]
                           ++ [mkTick (1 # 10) (AcqRaise KeyError)]) None)
             (init [LF] [LF] None None)
             [(0%Q, Some ENOENT); ((1 # 2)%Q, Some EBUSY)]
             (mkTick (1 # 10) (AcqRaise KeyError)) [] KeyError).
    + reflexivity.
    + reflexivity.
    + exact Hwin.
    + reflexivity.
    + reflexivity.
    + reflexivity.
  - apply (proj2 (proj2 open_retries_until_window_closes)
             (mkOpenEnv (map to_tick [(0%Q, Some ENOENT); ((1 # 2)%Q, Some EBUSY)]
                           ++ [mkTick (1 # 10) (AcqOk true)]) None)
             (init [LF] [LF] None None)
             [(0%Q, Some ENOENT); ((1 # 2)%Q, Some EBUSY)]
             (mkTick (1 # 10) (AcqOk true)) []).
    + reflexivity.
    + reflexivity.
    + exact Hwin.
    + reflexivity.
    + reflexivity.
    + reflexivity.
Defined.

(** A timeout too small to move the clock reading gives no attempt at all:
    at the clock reading 1.7e9 and a timeout of 1e-9 the float sum is the
    clock reading itself. *)
Example open_window_rounded_away :
  let st := set_clock 1700000000
              (init [LF] [LF] (Some (Binary64.round (1 # 1000000000))) None) in
  let r := open (mkOpenEnv [mkTick 0 (AcqOk true)] None) st in
  fst r = Raise Exception_ /\ attempts (trace (snd r)) = 0.
Proof. vm_compute. split; reflexivity. Qed.

(** C5, as the claim has it, fails: the first attempt finds no device
    ([ENOENT], not busy), the loop goes on, the second attempt succeeds and
    [open] returns normally. *)
Lemma open_retries_other_failure :
  ~ aborts_at_first_other_failure late_device (init [LF] [LF] None None).
Proof.
  intros H.
  destruct (H (mkTick 0 (AcqRaise (OSError (Some ENOENT))))
              [mkTick (1 # 2) (AcqOk true)]
              (OSError (Some ENOENT))
              eq_refl ltac:(reflexivity) eq_refl eq_refl) as [Hraise _].
  vm_compute in Hraise. discriminate Hraise.
Qed.

(** What happens on that run: two attempts, no [sleep], the server open. *)
Example late_device_run :
  let r := open late_device (init [LF] [LF] None None) in
  fst r = Ok tt /\
  attempts (trace (snd r)) = 2 /\ sleeps (trace (snd r)) = 0 /\ _open (snd r) = true.
Proof. vm_compute. repeat split; reflexivity. Qed.

End AcquisitionFacts.

(** ** The handlers, step by step *)

Section HandlerSteps.

Lemma set_trace_nil (st : Server) : set_trace (trace st ++ []) st = st.
Proof. destruct st. mred. rewrite app_nil_r. reflexivity. Qed.

(** The write loop changes nothing but the trace. *)
Lemma write_all_run (ws : list wres) :
  forall (query : bytes) (st : Server),
    exists r, write_all ws query st = (r, set_trace (trace st ++ write_log ws query) st) /\
              (drains ws (length query) = true -> r = Ok tt).
Proof.
  induction ws as [|w ws IH]; intros query st.
  - destruct query as [|b query]; cbn [write_all write_log drains length].
    + exists (Ok tt). rewrite set_trace_nil. split; reflexivity.
    + exists Blocked. rewrite set_trace_nil. split; [reflexivity | discriminate].
  - destruct query as [|b query]; cbn [write_all write_log drains length].
    + exists (Ok tt). rewrite set_trace_nil. split; reflexivity.
    + destruct w as [n|e].
      * destruct st. msimpl.
        match goal with |- context [write_all ws ?q ?s] =>
          destruct (IH q s) as (r & Hrun & Hok)
        end.
        exists r. rewrite Hrun. mred. rewrite <- app_assoc. split; [reflexivity|].
        intros Hd. apply Hok. rewrite length_drop. exact Hd.
      * exists (Raise e). mrun. rewrite set_trace_nil. split; [reflexivity | discriminate].
Qed.

(** If the script lets the whole query through, the device has received
    exactly the query. *)
Lemma write_log_received (ws : list wres) :
  forall query, drains ws (length query) = true -> device_received (write_log ws query) = query.
Proof.
  induction ws as [|w ws IH]; intros query Hd.
  - destruct query; [reflexivity | discriminate].
  - destruct query as [|b query]; [reflexivity|].
    cbn [write_log drains length] in *. destruct w as [n|e]; [|discriminate].
    cbn [device_received]. rewrite IH.
    + apply take_drop.
    + rewrite length_drop. exact Hd.
Qed.

Lemma write_log_served (ws : list wres) (query : bytes) : served (write_log ws query) = [].
Proof.
  revert query. induction ws as [|w ws IH]; intros [|b query]; try reflexivity.
  cbn [write_log]. destruct w; [apply IH | reflexivity].
Qed.

Lemma write_log_submitted (ws : list wres) (query : bytes) : submitted (write_log ws query) = [].
Proof.
  revert query. induction ws as [|w ws IH]; intros [|b query]; try reflexivity.
  cbn [write_log]. destruct w; [apply IH | reflexivity].
Qed.

Lemma write_log_no_send (ws : list wres) (query : bytes) (s : nat) : sent_to s (write_log ws query) = [].
Proof.
  revert query. induction ws as [|w ws IH]; intros [|b query]; try reflexivity.
  cbn [write_log]. destruct w; [apply IH | reflexivity].
Qed.

(** The loop of appends. *)
Lemma for_each_enqueue (b : nat) (cmds : list bytes) :
  forall st,
    for_each cmds (fun cmd => enqueue cmd b) st =
    (Ok tt, set_trace (trace st ++ map (fun cmd => Enqueue cmd b) cmds)
              (set_ser_queue (ser_queue st ++ map (fun cmd => (cmd, b)) cmds) st)).
Proof.
  induction cmds as [|cmd cmds IH]; intros st.
  - destruct st. cbn [for_each map]. msimpl. rewrite !app_nil_r. reflexivity.
  - destruct st. cbn [for_each map]. unfold enqueue at 1. mrun. rewrite IH. mred.
    rewrite <- !app_assoc. reflexivity.
Qed.

End HandlerSteps.

Section Transaction.

(** One device transaction, in full.  The queue head [(cmd, b)] is taken;
    the device registration goes when nothing is left; the device receives
    [cmd] followed by the device marker; the translated reply is appended to
    the [out_buf] of the object [b]; the socket of [b] is armed for writing
    only if that buffer was empty and the socket is an active client. *)
Lemma process_serial_run (st : Server) (mask : N) (w : io)
    (cmd : bytes) (b : nat) (rest : list (bytes * nat)) (cb : ClientBuffers) (m : selector) :
  truthy (N.land mask EVENT_WRITE) = true ->
  ser_queue st = (cmd, b) :: rest ->
  objs st !! b = Some cb ->
  sel st = Some m ->
  is_Some (m !! FSerial) ->
  (negb (nonempty (out_buf cb)) && bool_decide (cb_sock cb ∈ clients st) = true ->
   is_Some (m !! FSock (cb_sock cb))) ->
  drains (io_writes w) (length (cmd ++ eol_ser st)) = true ->
  exists st',
    process_serial DQueue mask w st = (Ok tt, st') /\
    ser_queue st' = rest /\
    trace st' = trace st ++ Transact cmd b :: write_log (io_writes w) (cmd ++ eol_ser st)
                  ++ [DevFlush; DevRead (io_reply w)] /\
    objs st' = <[b := mkClientBuffers (cb_sock cb) (in_buf cb)
                        (out_buf cb ++ replace (eol_ser st) (eol_sock st) (io_reply w))]> (objs st) /\
    sel st' = Some
      (let m1 := if nonempty rest then m else delete FSerial m in
       if negb (nonempty (out_buf cb)) && bool_decide (cb_sock cb ∈ clients st)
       then <[FSock (cb_sock cb) := (N.lor EVENT_READ EVENT_WRITE, DClient b)]> m1
       else m1) /\
    clients st' = clients st /\
    eol_ser st' = eol_ser st /\ eol_sock st' = eol_sock st /\
    serial st' = serial st /\ _serving st' = _serving st /\ _open st' = _open st /\
    _shutdown_request st' = _shutdown_request st.
Proof.
  intros Hmask Hq Hobj Hsel [k Hk] Harm Hdr.
  unfold process_serial. rewrite Hmask. cbn [when].
  destruct st. mred. subst. msimpl.
  destruct rest as [|e rest]; mred.
  - rewrite Hk. mrun. mred.
    match goal with |- context [write_all ?ws ?q ?s] =>
      destruct (write_all_run ws q s) as (r & Hrun & Hok)
    end.
    specialize (Hok Hdr). subst r. mgo.
    destruct (negb (nonempty (out_buf cb)) && bool_decide (cb_sock cb ∈ clients0)) eqn:Earm.
    + destruct (Harm eq_refl) as [k' Hk']. mred.
      rewrite lookup_delete_ne by discriminate. mgo.
      eexists. split; [reflexivity|]. mred.
      rewrite <- !app_assoc. repeat split; reflexivity.
    + mgo.
      eexists. split; [reflexivity|]. mred.
      rewrite <- !app_assoc. repeat split; reflexivity.
  - match goal with |- context [write_all ?ws ?q ?s] =>
      destruct (write_all_run ws q s) as (r & Hrun & Hok)
    end.
    specialize (Hok Hdr). subst r. mgo.
    destruct (negb (nonempty (out_buf cb)) && bool_decide (cb_sock cb ∈ clients0)) eqn:Earm.
    + destruct (Harm eq_refl) as [k' Hk']. mgo.
      eexists. split; [reflexivity|]. mred.
      rewrite <- !app_assoc. repeat split; reflexivity.
    + mgo.
      eexists. split; [reflexivity|]. mred.
      rewrite <- !app_assoc. repeat split; reflexivity.
Qed.

End Transaction.

Section Reading.

(** One read from a client socket that returns data, in full.  The data
    joins [in_buf]; the buffer is split on the socket marker; the last
    segment is the new [in_buf]; every other segment is appended to the
    queue with a reference to the client's object; the device is registered
    for writing if the queue was empty and there is something to append. *)
Lemma process_socket_recv_run (st : Server) (s b : nat) (mask : N) (w : io)
    (received : bytes) (cb : ClientBuffers) (m : selector) :
  truthy (N.land mask EVENT_READ) = true ->
  io_recv w = inl received ->
  received <> [] ->
  objs st !! b = Some cb ->
  eol_sock st <> [] ->
  sel st = Some m ->
  is_Some (serial st) ->
  (ser_queue st = [] -> m !! FSerial = None) ->
  exists chunks st',
    split (eol_sock st) (in_buf cb ++ received) = Some chunks /\
    process_socket s (DClient b) mask w st = (Ok tt, st') /\
    objs st' = <[b := mkClientBuffers (cb_sock cb) (List.last chunks []) (out_buf cb)]> (objs st) /\
    ser_queue st' = ser_queue st ++ map (fun cmd => (cmd, b)) (removelast chunks) /\
    trace st' = trace st ++ map (fun cmd => Enqueue cmd b) (removelast chunks) /\
    sel st' = Some (if nonempty (removelast chunks) && negb (nonempty (ser_queue st))
                    then <[FSerial := (EVENT_WRITE, DQueue)]> m else m) /\
    clients st' = clients st /\
    eol_ser st' = eol_ser st /\ eol_sock st' = eol_sock st /\
    serial st' = serial st /\ _serving st' = _serving st /\ _open st' = _open st /\
    _shutdown_request st' = _shutdown_request st.
Proof.
  intros Hmask Hrecv Hne Hobj Heol Hsel [h Hser] Hfree.
  unfold process_socket. rewrite Hmask, Hrecv.
  destruct received as [|x received]; [congruence|]. cbn [nonempty].
  destruct st. mred. subst. msimpl. mgo.
  destruct (split eol_sock0 (in_buf cb ++ x :: received)) as [chunks|] eqn:Hsplit;
    [|destruct eol_sock0; [congruence | discriminate]].
  exists chunks. mred. rewrite lookup_insert_eq. mred. rewrite insert_insert_eq.
  destruct (removelast chunks) as [|c cs] eqn:Hcmds; mred.
  - eexists. split; [reflexivity|]. split; [reflexivity|]. mred.
    rewrite !app_nil_r. repeat split; reflexivity.
  - destruct ser_queue0 as [|q0 qs]; mred.
    + rewrite (Hfree eq_refl). mred.
      rewrite for_each_enqueue. mred.
      eexists. split; [reflexivity|]. split; [reflexivity|]. mred.
      repeat split; reflexivity.
    + rewrite for_each_enqueue. mred.
      eexists. split; [reflexivity|]. split; [reflexivity|]. mred.
      repeat split; reflexivity.
Qed.

End Reading.

Section SingleByteMarkers.

Lemma starts_with_single (b x : byte) (s : bytes) :
  b <> x -> starts_with [b] (x :: s) = false.
Proof.
  intros Hne. cbn [starts_with].
  destruct (byte_eqb b x) eqn:E; [|reflexivity].
  apply byte_eqb_eq in E. contradiction.
Qed.

(** A line that ends with the marker and has it nowhere else splits into the
    line and an empty remainder. *)
Lemma split_go_single (b : byte) (s : bytes) :
  forall cur, b ∉ s -> split_go [b] 0 cur (s ++ [b]) = [rev cur ++ s; []].
Proof.
  induction s as [|x s IH]; intros cur Hnot.
  - pose proof (split_go_match [b] [] cur ltac:(discriminate)) as H.
    cbn [app] in *. rewrite H, app_nil_r. reflexivity.
  - apply not_elem_of_cons in Hnot as [Hne Hnot].
    cbn [app]. rewrite split_go_other by (apply starts_with_single; exact Hne).
    rewrite (IH (x :: cur) Hnot). cbn [rev]. rewrite <- app_assoc. reflexivity.
Qed.

(** A reply that ends with the device marker and has it nowhere else ends
    with the socket marker after the replacement. *)
Lemma replace_go_single (b : byte) (new s : bytes) :
  b ∉ s -> replace_go [b] new 0 (s ++ [b]) = s ++ new.
Proof.
  induction s as [|x s IH]; intros Hnot.
  - cbn [app replace_go starts_with length Nat.sub].
    assert (byte_eqb b b = true) as -> by (apply byte_eqb_eq; reflexivity).
    cbn [andb]. rewrite app_nil_r. reflexivity.
  - apply not_elem_of_cons in Hnot as [Hne Hnot].
    cbn [app replace_go]. rewrite starts_with_single by exact Hne.
    rewrite (IH Hnot). reflexivity.
Qed.

End SingleByteMarkers.

Lemma sent_to_app (s : nat) (t1 t2 : list action) :
  sent_to s (t1 ++ t2) = sent_to s t1 ++ sent_to s t2.
Proof.
  induction t1 as [|a t1 IH]; [reflexivity|].
  destruct a; cbn [app sent_to]; try exact IH.
  destruct (Nat.eqb s s0); [rewrite IH, app_assoc|]; auto.
Qed.

Lemma device_received_app (t1 t2 : list action) :
  device_received (t1 ++ t2) = device_received t1 ++ device_received t2.
Proof.
  induction t1 as [|a t1 IH]; [reflexivity|].
  destruct a; cbn [app device_received]; try exact IH.
  rewrite IH, app_assoc. reflexivity.
Qed.

Example connected_sel_eq : sel Sample.connected = Some Sample.connected_sel.
Proof. vm_compute. reflexivity. Qed.

Example connected_trace : trace Sample.connected = [Acquire].
Proof. vm_compute. reflexivity. Qed.

Module Relay.

(** C3. A read that returns data appends it to the connection's inbound
    buffer and splits the buffer on the socket marker: the segments joined
    with the marker are the buffer, every segment but the last is appended to
    the queue as one command of this connection, and the last segment is the
    new inbound buffer.  In particular, with marker LF, after "AB" nothing is
    queued and "AB" is buffered, and after "CD" LF the queue holds the one
    command "ABCD" and the buffer is empty. *)
Theorem line_reassembly :
  (forall (st : Server) (s b : nat) (mask : N) (w : io)
          (received : bytes) (cb : ClientBuffers) (m : selector),
      truthy (N.land mask EVENT_READ) = true ->
      io_recv w = inl received ->
      received <> [] ->
      objs st !! b = Some cb ->
      eol_sock st <> [] ->
      sel st = Some m ->
      is_Some (serial st) ->
      (ser_queue st = [] -> m !! FSerial = None) ->
      exists chunks st',
        split (eol_sock st) (in_buf cb ++ received) = Some chunks /\
        join (eol_sock st) chunks = in_buf cb ++ received /\
        chunks = removelast chunks ++ [List.last chunks []] /\
        process_socket s (DClient b) mask w st = (Ok tt, st') /\
        ser_queue st' = ser_queue st ++ map (fun cmd => (cmd, b)) (removelast chunks) /\
        in_buf <$> objs st' !! b = Some (List.last chunks [])) /\
  (let r1 := process_socket 1 (DClient 1) EVENT_READ
               (Sample.recvs (of_string "AB")) Sample.connected in
   let r2 := process_socket 1 (DClient 1) EVENT_READ
               (Sample.recvs (of_string "CD" ++ [LF])) (snd r1) in
   fst r1 = Ok tt /\ ser_queue (snd r1) = [] /\
   in_buf <$> objs (snd r1) !! 1 = Some (of_string "AB") /\
   fst r2 = Ok tt /\ ser_queue (snd r2) = [(of_string "ABCD", 1)] /\
   in_buf <$> objs (snd r2) !! 1 = Some []).
Proof.
  split.
  - intros st s b mask w received cb m Hmask Hrecv Hne Hobj Heol Hsel Hser Hfree.
    destruct (process_socket_recv_run st s b mask w received cb m
                Hmask Hrecv Hne Hobj Heol Hsel Hser Hfree)
      as (chunks & st' & Hsplit & Hrun & Hobjs & Hq & _).
    exists chunks, st'. split; [exact Hsplit|].
    split; [exact (join_split _ _ _ Hsplit)|].
    split; [apply app_removelast_last; exact (split_nonempty _ _ _ Hsplit)|].
    split; [exact Hrun|]. split; [exact Hq|].
    rewrite Hobjs, lookup_insert_eq. reflexivity.
  - vm_compute. repeat split; reflexivity.
Qed.

Lemma line_reassembly_witness :
  let st := snd (process_socket 1 (DClient 1) EVENT_READ
                   (Sample.recvs (of_string "AB")) Sample.connected) in
  let w := Sample.recvs (of_string "CD" ++ [LF]) in
  truthy (N.land EVENT_READ EVENT_READ) = true /\
  io_recv w = inl (of_string "CD" ++ [LF]) /\
  objs st !! 1 = Some (mkClientBuffers 1 (of_string "AB") []) /\
  eol_sock st <> [] /\
  sel st = Some Sample.connected_sel /\
  is_Some (serial st) /\
  exists chunks st',
    split (eol_sock st) (of_string "AB" ++ of_string "CD" ++ [LF]) = Some chunks /\
    join (eol_sock st) chunks = of_string "AB" ++ of_string "CD" ++ [LF] /\
    chunks = removelast chunks ++ [List.last chunks []] /\
    process_socket 1 (DClient 1) EVENT_READ w st = (Ok tt, st') /\
    ser_queue st' = ser_queue st ++ map (fun cmd => (cmd, 1)) (removelast chunks) /\
    in_buf <$> objs st' !! 1 = Some (List.last chunks []).
Proof.
  cbv zeta.
  split; [reflexivity|]. split; [reflexivity|]. split; [vm_compute; reflexivity|].
  split; [discriminate|]. split; [vm_compute; reflexivity|].
  split; [vm_compute; eexists; reflexivity|].
  apply (proj1 line_reassembly
           (snd (process_socket 1 (DClient 1) EVENT_READ
                   (Sample.recvs (of_string "AB")) Sample.connected))
           1 1 EVENT_READ (Sample.recvs (of_string "CD" ++ [LF]))
           (of_string "CD" ++ [LF]) (mkClientBuffers 1 (of_string "AB") [])
           Sample.connected_sel).
  - reflexivity.
  - reflexivity.
  - discriminate.
  - vm_compute. reflexivity.
  - discriminate.
  - vm_compute. reflexivity.
  - vm_compute. eexists. reflexivity.
  - intros _. vm_compute. reflexivity.
Defined.

End Relay.

Module Replies.

Example connected_facts :
  eol_sock Sample.connected = [LF] /\ eol_ser Sample.connected = [CR] /\
  ser_queue Sample.connected = [] /\
  objs Sample.connected !! 1 = Some (mkClientBuffers 1 [] []) /\
  bool_decide (1 ∈ clients Sample.connected) = true /\
  is_Some (serial Sample.connected).
Proof. vm_compute. repeat split; try reflexivity. eexists; reflexivity. Qed.

(** C4. Device marker CR, socket marker LF, one client connected.  The
    client sends a line [cmd] LF: the device receives exactly [cmd] CR, the
    command bytes as they came, in however many pieces it accepts them.  The
    device answers [body] CR: exactly [body] LF is appended to the client's
    outbound buffer, and the client's socket is armed for writing. *)
Theorem eol_round_trip (cmd body : bytes) (ws : list wres) :
  LF ∉ cmd ->
  CR ∉ body ->
  drains ws (length (cmd ++ [CR])) = true ->
  let r1 := process_socket 1 (DClient 1) EVENT_READ
              (Sample.recvs (cmd ++ [LF])) Sample.connected in
  let r2 := process_serial DQueue EVENT_WRITE
              (Sample.device ws (body ++ [CR])) (snd r1) in
  fst r1 = Ok tt /\ ser_queue (snd r1) = [(cmd, 1)] /\
  fst r2 = Ok tt /\ ser_queue (snd r2) = [] /\
  device_received (trace (snd r2)) = cmd ++ [CR] /\
  out_buf <$> objs (snd r2) !! 1 = Some (body ++ [LF]) /\
  interest (snd r2) (FSock 1) = Some (N.lor EVENT_READ EVENT_WRITE, DClient 1).
Proof.
  intros Hcmd Hbody Hdr. cbv zeta.
  destruct connected_facts as (Esock & Eser & Eq & Eobj & Ecl & Eserial).
  destruct (process_socket_recv_run Sample.connected 1 1 EVENT_READ
              (Sample.recvs (cmd ++ [LF])) (cmd ++ [LF]) (mkClientBuffers 1 [] [])
              Sample.connected_sel)
    as (chunks & st1 & Hsplit & Hrun1 & Hobjs1 & Hq1 & Htr1 & Hsel1 & Hcl1 & Heser1 & Hesock1 & _).
  { reflexivity. }
  { reflexivity. }
  { destruct cmd; discriminate. }
  { exact Eobj. }
  { rewrite Esock. discriminate. }
  { exact connected_sel_eq. }
  { exact Eserial. }
  { intros _. vm_compute. reflexivity. }
  rewrite Esock in Hsplit. cbn [in_buf app split] in Hsplit.
  rewrite split_go_single in Hsplit by exact Hcmd.
  injection Hsplit as <-. cbn [rev app removelast List.last map nonempty negb andb] in *.
  rewrite Eq in *. cbn [app nonempty negb andb cb_sock out_buf] in *.
  rewrite Hrun1. cbn [fst snd].
  destruct (process_serial_run st1 EVENT_WRITE (Sample.device ws (body ++ [CR]))
              cmd 1 [] (mkClientBuffers 1 [] [])
              (<[FSerial := (EVENT_WRITE, DQueue)]> Sample.connected_sel)
              eq_refl Hq1)
    as (st2 & Hrun2 & Hq2 & Htr2 & Hobjs2 & Hsel2 & _).
  { rewrite Hobjs1. apply lookup_insert_eq. }
  { exact Hsel1. }
  { rewrite lookup_insert_eq. eexists; reflexivity. }
  { intros _. rewrite lookup_insert_ne by discriminate. vm_compute. eexists; reflexivity. }
  { rewrite Heser1, Eser. exact Hdr. }
  rewrite Hrun2. cbn [fst snd].
  split; [reflexivity|]. split; [exact Hq1|]. split; [reflexivity|].
  split; [exact Hq2|].
  split; [|split].
  - rewrite Htr2, Htr1, connected_trace, Heser1, Eser.
    cbn [Sample.device io_writes io_reply].
    rewrite !device_received_app. cbn [device_received app].
    rewrite device_received_app. cbn [device_received].
    rewrite write_log_received by exact Hdr. rewrite app_nil_r. reflexivity.
  - rewrite Hobjs2, lookup_insert_eq. cbn [fmap option_fmap option_map out_buf app].
    rewrite Heser1, Hesock1, Eser, Esock. cbn [Sample.device io_reply replace].
    rewrite replace_go_single by exact Hbody. reflexivity.
  - unfold interest. rewrite Hsel2. cbn [out_buf nonempty negb cb_sock andb].
    rewrite Hcl1, Ecl. apply lookup_insert_eq.
Qed.

Lemma eol_round_trip_witness :
  let cmd := of_string "PING" in
  let body := of_string "PONG" in
  let ws := [Wrote 2; Wrote 3] in
  let r1 := process_socket 1 (DClient 1) EVENT_READ
              (Sample.recvs (cmd ++ [LF])) Sample.connected in
  let r2 := process_serial DQueue EVENT_WRITE
              (Sample.device ws (body ++ [CR])) (snd r1) in
  (LF ∉ cmd) /\ (CR ∉ body) /\ drains ws (length (cmd ++ [CR])) = true /\
  fst r1 = Ok tt /\ ser_queue (snd r1) = [(cmd, 1)] /\
  fst r2 = Ok tt /\ ser_queue (snd r2) = [] /\
  device_received (trace (snd r2)) = of_string "PING" ++ [CR] /\
  out_buf <$> objs (snd r2) !! 1 = Some (of_string "PONG" ++ [LF]) /\
  interest (snd r2) (FSock 1) = Some (N.lor EVENT_READ EVENT_WRITE, DClient 1).
Proof.
  cbv zeta.
  assert (LF ∉ of_string "PING") as H1.
  { intros H. repeat (apply elem_of_cons in H as [H|H]; [discriminate H|]).
    apply elem_of_nil in H. exact H. }
  assert (CR ∉ of_string "PONG") as H2.
  { intros H. repeat (apply elem_of_cons in H as [H|H]; [discriminate H|]).
    apply elem_of_nil in H. exact H. }
  split; [exact H1|]. split; [exact H2|]. split; [reflexivity|].
  exact (eol_round_trip (of_string "PING") (of_string "PONG") [Wrote 2; Wrote 3]
           H1 H2 eq_refl).
Defined.

(** C6. The head of the queue belongs to a connection whose socket is no
    longer in [self.clients].  The transaction runs to its end without an
    exception; no registration of any socket changes, the departed one
    included; nothing is sent on any socket; the client set is as before.
    The translated reply ends up in the [out_buf] of the departed
    connection's [ClientBuffers] object, which no registration refers to any
    more.  The device is registered, as it is whenever the queue is not
    empty, and the device accepts the query. *)
Theorem reply_for_departed_client (st : Server) (mask : N) (w : io)
    (cmd : bytes) (b : nat) (rest : list (bytes * nat)) (cb : ClientBuffers) :
  truthy (N.land mask EVENT_WRITE) = true ->
  ser_queue st = (cmd, b) :: rest ->
  objs st !! b = Some cb ->
  cb_sock cb ∉ clients st ->
  is_Some (interest st FSerial) ->
  drains (io_writes w) (length (cmd ++ eol_ser st)) = true ->
  exists st',
    process_serial DQueue mask w st = (Ok tt, st') /\
    (forall s, interest st' (FSock s) = interest st (FSock s)) /\
    (forall s, sent_to s (trace st') = sent_to s (trace st)) /\
    clients st' = clients st /\
    objs st' !! b = Some (mkClientBuffers (cb_sock cb) (in_buf cb)
                            (out_buf cb ++ replace (eol_ser st) (eol_sock st) (io_reply w))).
Proof.
  intros Hmask Hq Hobj Hgone Hreg Hdr.
  unfold interest in Hreg. destruct (sel st) as [m|] eqn:Hsel;
    [|destruct Hreg; discriminate].
  assert (Harm : negb (nonempty (out_buf cb)) && bool_decide (cb_sock cb ∈ clients st) = false).
  { rewrite (bool_decide_eq_false_2 _ Hgone). apply andb_false_r. }
  destruct (process_serial_run st mask w cmd b rest cb m Hmask Hq Hobj Hsel Hreg)
    as (st' & Hrun & _ & Htr & Hobjs & Hsel' & Hcl & _).
  { rewrite Harm. discriminate. }
  { exact Hdr. }
  exists st'. split; [exact Hrun|].
  split; [|split; [|split]].
  - intros s. unfold interest. rewrite Hsel', Hsel, Harm. cbv zeta.
    destruct (nonempty rest); [reflexivity|].
    apply lookup_delete_ne. discriminate.
  - intros s. rewrite Htr, sent_to_app. cbn [sent_to].
    rewrite sent_to_app, write_log_no_send. cbn [sent_to app].
    apply app_nil_r.
  - exact Hcl.
  - rewrite Hobjs. apply lookup_insert_eq.
Qed.

Example gone_facts :
  ser_queue Sample.gone = [(of_string "PING", 1)] /\
  objs Sample.gone !! 1 = Some (mkClientBuffers 1 [] []) /\
  elements (clients Sample.gone) = [] /\
  interest Sample.gone (FSock 1) = None /\
  interest Sample.gone FSerial = Some (EVENT_WRITE, DQueue) /\
  trace Sample.gone = [Acquire; Enqueue (of_string "PING") 1; SockShutdown 1; SockClose 1].
Proof. vm_compute. repeat split; reflexivity. Qed.

Lemma reply_for_departed_client_witness :
  let w := Sample.device [Wrote 5] (of_string "PONG" ++ [CR]) in
  ser_queue Sample.gone = [(of_string "PING", 1)] /\
  objs Sample.gone !! 1 = Some (mkClientBuffers 1 [] []) /\
  (1 ∉ clients Sample.gone) /\
  is_Some (interest Sample.gone FSerial) /\
  drains (io_writes w) (length (of_string "PING" ++ eol_ser Sample.gone)) = true /\
  exists st',
    process_serial DQueue EVENT_WRITE w Sample.gone = (Ok tt, st') /\
    (forall s, interest st' (FSock s) = interest Sample.gone (FSock s)) /\
    (forall s, sent_to s (trace st') = sent_to s (trace Sample.gone)) /\
    clients st' = clients Sample.gone /\
    objs st' !! 1 = Some (mkClientBuffers 1 []
                            ([] ++ replace (eol_ser Sample.gone) (eol_sock Sample.gone)
                                     (of_string "PONG" ++ [CR]))).
Proof.
  cbv zeta.
  assert (1 ∉ clients Sample.gone) as Hgone.
  { apply (bool_decide_eq_false_1 (1 ∈ clients Sample.gone)). vm_compute. reflexivity. }
  split; [vm_compute; reflexivity|]. split; [vm_compute; reflexivity|].
  split; [exact Hgone|]. split; [vm_compute; eexists; reflexivity|].
  split; [vm_compute; reflexivity|].
  apply (reply_for_departed_client Sample.gone EVENT_WRITE
           (Sample.device [Wrote 5] (of_string "PONG" ++ [CR]))
           (of_string "PING") 1 [] (mkClientBuffers 1 [] [])).
  - reflexivity.
  - vm_compute. reflexivity.
  - vm_compute. reflexivity.
  - exact Hgone.
  - vm_compute. eexists. reflexivity.
  - vm_compute. reflexivity.
Defined.

End Replies.

Module CleanupFacts.
Import Cleanup.

(** C8 at the failing input.  One client is connected, its peer has reset
    the connection, and [stop()] is requested.  [serve_forever] returns
    normally with the Serving flag cleared and the client set empty, but
    [shutdown] raised inside [with suppress(OSError)], which ended the [for]
    loop: [close()] was never called on the client's socket, and the socket
    is still registered in the selector. *)
Theorem serve_forever_leaves_socket_open :
  let r := serve_forever (connect_then_stop peer_reset) (init [CR] [LF] None None) in
  fst r = Ok tt /\
  _serving (snd r) = false /\
  elements (clients (snd r)) = [] /\
  trace (snd r) = [Acquire] /\
  interest (snd r) (FSock 1) = Some (EVENT_READ, DClient 1).
Proof. vm_compute. repeat split; reflexivity. Qed.

(** The loop of the [finally] block when no call fails. *)
Lemma cleanup_loop_no_fault (l : list nat) :
  forall st,
    for_each l (shutdown_and_close no_fault) st =
    (Ok tt, set_trace (trace st ++ flat_map (fun c => [SockShutdown c; SockClose c]) l) st).
Proof.
  induction l as [|c l IH]; intros st.
  - destruct st. cbn [for_each flat_map]. mrun. mred. rewrite app_nil_r. reflexivity.
  - destruct st. cbn [for_each flat_map]. unfold shutdown_and_close at 1, no_fault at 1 2.
    mrun. rewrite IH. mred.
    rewrite <- !app_assoc. reflexivity.
Qed.

(** When neither [shutdown] nor [close] raises, the cleanup does what C8
    says: every socket of the client set is shut down and closed, the set is
    emptied and the Serving flag cleared. *)
Lemma serve_cleanup_no_fault (st : Server) :
  exists st',
    serve_cleanup no_fault st = (Ok tt, st') /\
    clients st' = ∅ /\ _serving st' = false /\
    forall c, c ∈ clients st -> SockShutdown c ∈ trace st' /\ SockClose c ∈ trace st'.
Proof.
  unfold serve_cleanup, suppress_OSError. destruct st. mrun. mred.
  rewrite cleanup_loop_no_fault. mred.
  eexists. split; [reflexivity|]. mred. split; [reflexivity|]. split; [reflexivity|].
  intros c Hc. apply elem_of_elements in Hc.
  split; apply elem_of_app; right; apply list_elem_of_In, in_flat_map;
    exists c; (split; [apply list_elem_of_In; exact Hc | cbn; auto]).
Qed.

(** Whatever [OSError]s the calls raise, the cleanup returns normally with
    the client set empty and the Serving flag cleared. *)
Lemma cleanup_loop_any (fault : action -> option exn) (l : list nat) :
  (forall a e, fault a = Some e -> is_OSError e = true) ->
  forall st,
    exists r t,
      for_each l (shutdown_and_close fault) st = (r, set_trace (trace st ++ t) st) /\
      (r = Ok tt \/ exists e, r = Raise e /\ is_OSError e = true).
Proof.
  intros Hos. induction l as [|c l IH]; intros st.
  - exists (Ok tt), []. rewrite set_trace_nil. split; [reflexivity | left; reflexivity].
  - cbn [for_each]. unfold shutdown_and_close at 1. unfold syscall at 1 2.
    destruct (fault (SockShutdown c)) as [e|] eqn:E1.
    { exists (Raise e), []. rewrite set_trace_nil. mrun.
      split; [reflexivity | right; exists e; split; [reflexivity | exact (Hos _ _ E1)]]. }
    destruct (fault (SockClose c)) as [e|] eqn:E2.
    { exists (Raise e), [SockShutdown c]. destruct st. mrun. mred.
      split; [reflexivity | right; exists e; split; [reflexivity | exact (Hos _ _ E2)]]. }
    destruct st. mrun. mred.
    match goal with |- context [for_each l _ ?s] =>
      destruct (IH s) as (r & t & Hrun & Hr)
    end.
    exists r, ([SockShutdown c; SockClose c] ++ t). rewrite Hrun. mred.
    rewrite <- !app_assoc. split; [reflexivity | exact Hr].
Qed.

Lemma serve_cleanup_flags (fault : action -> option exn) (st : Server) :
  (forall a e, fault a = Some e -> is_OSError e = true) ->
  exists st',
    serve_cleanup fault st = (Ok tt, st') /\
    clients st' = ∅ /\ _serving st' = false.
Proof.
  intros Hos. unfold serve_cleanup, suppress_OSError. destruct st.
  cbv beta iota delta [bind get modify ret]. mred.
  match goal with |- context [for_each ?l _ ?s] =>
    destruct (cleanup_loop_any fault l Hos s) as (r & t & Hrun & Hr)
  end.
  rewrite Hrun.
  destruct Hr as [-> | (e & -> & He)]; [|rewrite He];
    mred; eexists; repeat split; reflexivity.
Qed.

(** The same run when [shutdown] does not raise: the socket is shut down and
    closed. *)
Example serve_forever_closes_socket :
  let r := serve_forever (connect_then_stop no_fault) (init [CR] [LF] None None) in
  fst r = Ok tt /\
  _serving (snd r) = false /\
  elements (clients (snd r)) = [] /\
  trace (snd r) = [Acquire; SockShutdown 1; SockClose 1].
Proof. vm_compute. repeat split; reflexivity. Qed.

End CleanupFacts.

(** ** The device registration and the queue *)

(** [open_loop] touches the clock, the trace and the device handle only, and
    writes nothing about the queue into the trace. *)
Lemma open_loop_frame (deadline : Q) (ts : list tick) :
  forall (exc : exn) (st : Server),
    let r := open_loop deadline exc ts st in
    sel (snd r) = sel st /\ ser_queue (snd r) = ser_queue st /\
    next_id (snd r) = next_id st /\ sock (snd r) = sock st /\
    exists t, trace (snd r) = trace st ++ t /\ served t = [] /\ submitted t = [].
Proof.
  induction ts as [|t ts IH]; intros exc st; cbv zeta.
  - cbn [open_loop]. mrun. cbn [snd]. repeat split; try reflexivity.
    exists []. rewrite app_nil_r. repeat split; reflexivity.
  - cbn [open_loop]. destruct st. mrun. mred.
    destruct (Qltb (clock0 + lead t) deadline).
    + destruct (acquire t) as [o|e]; mred.
      * repeat split; try reflexivity.
        exists [Acquire]. repeat split; reflexivity.
      * destruct (is_OSError e); mred.
        -- destruct (errno_is e EBUSY); mred.
           ++ match goal with |- context [open_loop _ _ _ ?s] =>
                destruct (IH e s) as (H1 & H2 & H3 & H4 & t' & H5 & H6 & H7)
              end.
              mred. rewrite H1, H2, H3, H4, H5. repeat split; try reflexivity.
              exists ([Acquire; Sleep] ++ t'). rewrite <- !app_assoc.
              repeat split; try reflexivity; cbn; assumption.
           ++ match goal with |- context [open_loop _ _ _ ?s] =>
                destruct (IH e s) as (H1 & H2 & H3 & H4 & t' & H5 & H6 & H7)
              end.
              mred. rewrite H1, H2, H3, H4, H5. repeat split; try reflexivity.
              exists ([Acquire] ++ t'). rewrite <- !app_assoc.
              repeat split; try reflexivity; cbn; assumption.
        -- repeat split; try reflexivity.
           exists [Acquire]. repeat split; reflexivity.
    + mred. repeat split; try reflexivity.
      exists []. rewrite app_nil_r. repeat split; reflexivity.
Qed.

Module QueueFacts.
Import Queue.

(** Case analysis on whatever the next pending [match] looks at. *)
Ltac split_match :=
  match goal with
  | |- context [match ?x with _ => _ end] =>
      lazymatch x with
      | context [match _ with _ => _ end] => fail
      | _ => destruct x eqn:?
      end
  end.

Ltac queue_nonempty :=
  solve [ assumption
        | discriminate
        | cbn; discriminate
        | let H := fresh in
          intros H; apply app_eq_nil in H; destruct H; congruence ].

Ltac armed_leaf :=
  unfold armed_iff_pending; mred; eexists; split; [reflexivity|];
  rewrite ?lookup_insert_ne, ?lookup_delete_ne by discriminate;
  rewrite ?lookup_insert_eq, ?lookup_delete_eq;
  first [ left; split; [first [assumption | reflexivity] | queue_nonempty]
        | right; split; first [assumption | reflexivity] ].

(** Turn what is known about [nonempty q] into the shape of [q]. *)
Ltac queue_shape :=
  repeat match goal with
         | H : context [nonempty ?q] |- _ =>
             destruct q eqn:?; cbn [nonempty negb] in H; try discriminate H
         end.

Lemma open_armed (env : OpenEnv) (st st' : Server) :
  _open st = false ->
  open env st = (Ok tt, st') ->
  armed_iff_pending st'.
Proof.
  intros Hopen. unfold open. destruct st. mred. subst. mrun. mred.
  match goal with |- context [open_loop ?d ?e ?l ?s] =>
    destruct (open_loop_frame d l e s) as (H1 & H2 & H3 & H4 & _);
    destruct (open_loop d e l s) as [[exc| |] st1]
  end; try discriminate.
  cbn [snd] in *. mred. destruct st1. mred. subst.
  repeat (mred; split_match); intros [= <-]; try discriminate.
  all: armed_leaf.
Qed.

Lemma process_socket_armed (s : nat) (data : keydata) (mask : N) (w : io) (st : Server) :
  armed_iff_pending st ->
  armed_iff_pending (snd (process_socket s data mask w st)).
Proof.
  intros (m & Hsel & H). unfold process_socket.
  destruct st. mred. subst. mrun.
  repeat (mred; rewrite ?for_each_enqueue; split_match).
  all: mred; rewrite ?for_each_enqueue; mred.
  all: destruct H as [[H1 H2]|[H1 H2]]; simplify_eq.
  all: queue_shape.
  all: try congruence.
  all: try armed_leaf.
Qed.

Ltac run_write_all :=
  match goal with
  | |- context [write_all ?ws ?q ?s] =>
      let r := fresh "r" in
      let Hrun := fresh "Hrun" in
      destruct (write_all_run ws q s) as (r & Hrun & _); rewrite Hrun; clear Hrun
  end.

Lemma process_serial_armed (data : keydata) (mask : N) (w : io) (st : Server) :
  armed_iff_pending st ->
  armed_iff_pending (snd (process_serial data mask w st)).
Proof.
  intros (m & Hsel & H). unfold process_serial.
  destruct st. mred. subst. mrun.
  repeat (mred; try run_write_all; split_match).
  all: mred.
  all: destruct H as [[H1 H2]|[H1 H2]]; simplify_eq.
  all: queue_shape.
  all: try congruence.
  all: try armed_leaf.
Qed.

Lemma reachable_armed (st : Server) : reachable st -> armed_iff_pending st.
Proof.
  induction 1 as [env st st' Hclosed Hopen | s data mask w st _ IH | data mask w st _ IH].
  - exact (open_armed env st st' Hclosed Hopen).
  - apply process_socket_armed. exact IH.
  - apply process_serial_armed. exact IH.
Qed.

(** C2. In every state a freshly opened server reaches by calls of
    [process_socket] and [process_serial], the device is registered for
    write-readiness exactly when [ser_queue] is not empty. *)
Theorem device_armed_iff_pending (st : Server) :
  reachable st ->
  device_armed st <-> ser_queue st <> [].
Proof.
  intros Hreach. destruct (reachable_armed st Hreach) as (m & Hsel & H).
  unfold device_armed, interest. rewrite Hsel.
  destruct H as [[H1 H2]|[H1 H2]]; rewrite H1, ?H2; split; intros H; congruence.
Qed.

Lemma sample_reachable : reachable Sample.asked.
Proof.
  unfold Sample.asked. apply reach_socket.
  unfold Sample.connected. apply reach_socket.
  apply (reach_open Sample.plug (init [CR] [LF] None None)).
  - reflexivity.
  - vm_compute. reflexivity.
Defined.

Lemma device_armed_iff_pending_witness :
  reachable Sample.asked /\
  (device_armed Sample.asked <-> ser_queue Sample.asked <> []).
Proof.
  split; [exact sample_reachable|].
  apply (device_armed_iff_pending Sample.asked). exact sample_reachable.
Defined.

Example asked_armed :
  interest Sample.asked FSerial = Some (EVENT_WRITE, DQueue) /\
  ser_queue Sample.asked = [(of_string "PING", 1)] /\
  interest Sample.connected FSerial = None /\ ser_queue Sample.connected = [].
Proof. vm_compute. repeat split; reflexivity. Qed.

(** *** First in, first out *)

Lemma served_app (t1 t2 : list action) : served (t1 ++ t2) = served t1 ++ served t2.
Proof.
  induction t1 as [|a t1 IH]; [reflexivity|].
  destruct a; cbn [app served]; rewrite ?IH; reflexivity.
Qed.

Lemma submitted_app (t1 t2 : list action) : submitted (t1 ++ t2) = submitted t1 ++ submitted t2.
Proof.
  induction t1 as [|a t1 IH]; [reflexivity|].
  destruct a; cbn [app submitted]; rewrite ?IH; reflexivity.
Qed.

Lemma served_enqueues (b : nat) (cmds : list bytes) :
  served (map (fun cmd => Enqueue cmd b) cmds) = [].
Proof. induction cmds; [reflexivity | exact IHcmds]. Qed.

Lemma submitted_enqueues (b : nat) (cmds : list bytes) :
  submitted (map (fun cmd => Enqueue cmd b) cmds) = map (fun cmd => (cmd, b)) cmds.
Proof. induction cmds; [reflexivity | cbn [map submitted]; rewrite IHcmds; reflexivity]. Qed.

Lemma fifo_refl (st : Server) : fifo_step st st.
Proof. exists []. rewrite !app_nil_r. split; reflexivity. Qed.

Lemma fifo_trans (a b c : Server) : fifo_step a b -> fifo_step b c -> fifo_step a c.
Proof.
  intros (t1 & Ht1 & Hq1) (t2 & Ht2 & Hq2). exists (t1 ++ t2). split.
  - rewrite Ht2, Ht1, app_assoc. reflexivity.
  - rewrite served_app, submitted_app, <- app_assoc, Hq2, !app_assoc, Hq1. reflexivity.
Qed.

Lemma fifo_bind {A B} (c : M A) (k : A -> M B) (st : Server) :
  fifo_step st (snd (c st)) ->
  (forall a st1, fifo_step st1 (snd (k a st1))) ->
  fifo_step st (snd (bind c k st)).
Proof.
  intros Hc Hk. unfold bind. destruct (c st) as [[a|e|] st1]; cbn [snd] in *.
  - exact (fifo_trans _ _ _ Hc (Hk a st1)).
  - exact Hc.
  - exact Hc.
Qed.

Ltac fifo_leaf :=
  unfold fifo_step; mred; rewrite <- ?app_assoc;
  first
    [ exists []; split; [rewrite app_nil_r; reflexivity|];
      cbn [served submitted]; rewrite ?app_nil_r; reflexivity
    | eexists; split; [reflexivity|];
      rewrite ?served_app, ?submitted_app;
      cbn [served submitted app];
      rewrite ?served_app, ?submitted_app, ?write_log_served, ?write_log_submitted,
              ?served_enqueues, ?submitted_enqueues;
      cbn [served submitted app]; rewrite ?app_nil_r; reflexivity ].

Lemma process_socket_fifo (s : nat) (data : keydata) (mask : N) (w : io) (st : Server) :
  fifo_step st (snd (process_socket s data mask w st)).
Proof.
  unfold process_socket. destruct st. mrun.
  repeat (mred; rewrite ?for_each_enqueue; split_match).
  all: mred; rewrite ?for_each_enqueue; mred.
  all: fifo_leaf.
Qed.

Lemma process_serial_fifo (data : keydata) (mask : N) (w : io) (st : Server) :
  fifo_step st (snd (process_serial data mask w st)).
Proof.
  unfold process_serial. destruct st. mrun.
  repeat (mred; try run_write_all; split_match).
  all: mred.
  all: fifo_leaf.
Qed.

Lemma stop_fifo (st : Server) : fifo_step st (snd (stop st)).
Proof. unfold stop. destruct st. mrun. mred. destruct _serving0; mred; fifo_leaf. Qed.

Lemma handle_events_fifo (evs : list event) :
  forall st, fifo_step st (snd (handle_events evs st)).
Proof.
  induction evs as [|ev evs IH]; intros st.
  - apply fifo_refl.
  - destruct ev as [f data mask w|]; cbn [handle_events].
    + apply fifo_bind; [apply fifo_refl|].
      intros a st1. destruct (_shutdown_request a); [apply fifo_refl|].
      apply fifo_bind; [|intros _; exact IH].
      destruct f; [apply process_socket_fifo | apply process_serial_fifo].
    + apply fifo_bind; [apply stop_fifo | intros _; exact IH].
Qed.

Lemma the_sel_fifo (st : Server) : fifo_step st (snd (the_sel st)).
Proof. destruct st. mrun. mred. destruct sel0; apply fifo_refl. Qed.

Lemma serve_loop_fifo (script : list (list item)) :
  forall st, fifo_step st (snd (serve_loop script st)).
Proof.
  induction script as [|its script IH]; intros st; cbn [serve_loop].
  - apply fifo_bind; [apply fifo_refl|].
    intros a st1. destruct (_shutdown_request a); apply fifo_refl.
  - apply fifo_bind; [apply fifo_refl|].
    intros a st1. destruct (_shutdown_request a); [apply fifo_refl|].
    apply fifo_bind; [apply the_sel_fifo|].
    intros m st2. apply fifo_bind; [apply handle_events_fifo | intros _; exact IH].
Qed.

Lemma syscall_fifo (fault : action -> option exn) (a : action) (st : Server) :
  served [a] = [] -> submitted [a] = [] ->
  fifo_step st (snd (syscall fault a st)).
Proof.
  intros Hs Hq. unfold syscall. destruct (fault a); [apply fifo_refl|].
  destruct st. mrun. mred. exists [a]. mred. rewrite Hs, Hq, app_nil_r.
  split; reflexivity.
Qed.

Lemma for_each_fifo {A} (body : A -> M unit) (xs : list A) :
  (forall x st, fifo_step st (snd (body x st))) ->
  forall st, fifo_step st (snd (for_each xs body st)).
Proof.
  intros Hbody. induction xs as [|x xs IH]; intros st; cbn [for_each].
  - apply fifo_refl.
  - apply fifo_bind; [apply Hbody | intros _; exact IH].
Qed.

Lemma suppress_fifo (body : M unit) (st : Server) :
  fifo_step st (snd (body st)) -> fifo_step st (snd (suppress_OSError body st)).
Proof.
  unfold suppress_OSError. destruct (body st) as [[u|e|] st1]; cbn [snd]; auto.
  destruct (is_OSError e); auto.
Qed.

Lemma modify_fifo (f : Server -> Server) (st : Server) :
  trace (f st) = trace st -> ser_queue (f st) = ser_queue st ->
  fifo_step st (snd (modify f st)).
Proof.
  intros Ht Hq. exists []. cbn [modify snd]. rewrite Ht, Hq, !app_nil_r.
  split; reflexivity.
Qed.

Lemma serve_cleanup_fifo (fault : action -> option exn) (st : Server) :
  fifo_step st (snd (serve_cleanup fault st)).
Proof.
  unfold serve_cleanup.
  apply fifo_bind.
  - apply suppress_fifo. apply fifo_bind; [apply fifo_refl|].
    intros a st1. apply for_each_fifo. intros c st2. unfold shutdown_and_close.
    apply fifo_bind; [apply syscall_fifo; reflexivity|].
    intros _ st3. apply syscall_fifo; reflexivity.
  - intros _ st1. apply fifo_bind.
    + apply modify_fifo; destruct st1; reflexivity.
    + intros _ st2. apply modify_fifo; destruct st2; reflexivity.
Qed.

Lemma try_finally_fifo (body cleanup : M unit) (st : Server) :
  fifo_step st (snd (body st)) ->
  (forall st1, fifo_step st1 (snd (cleanup st1))) ->
  fifo_step st (snd (try_finally body cleanup st)).
Proof.
  intros Hb Hc. unfold try_finally.
  destruct (body st) as [[u|e|] st1]; cbn [snd] in *.
  - exact (fifo_trans _ _ _ Hb (Hc st1)).
  - specialize (Hc st1). destruct (cleanup st1) as [[u|e'|] st2]; cbn [snd] in *;
      exact (fifo_trans _ _ _ Hb Hc).
  - exact Hb.
Qed.

(** [open] on a server that is not open empties the queue and writes
    nothing about the queue into the trace, however it ends. *)
Lemma open_resets (env : OpenEnv) (st : Server) :
  _open st = false ->
  exists t, trace (snd (open env st)) = trace st ++ t /\
            served t = [] /\ submitted t = [] /\
            ser_queue (snd (open env st)) = [].
Proof.
  intros Hopen. unfold open. destruct st. mred. subst. mrun. mred.
  match goal with |- context [open_loop ?d ?e ?l ?s] =>
    destruct (open_loop_frame d l e s) as (H1 & H2 & H3 & H4 & t & H5 & H6 & H7);
    destruct (open_loop d e l s) as [[exc| |] st1]
  end; cbn [snd] in *; mred; destruct st1; mred; subst.
  - repeat (mred; split_match); mred; exists t; repeat split; assumption.
  - exists t. repeat split; assumption.
  - exists t. repeat split; assumption.
Qed.

Lemma serving_fifo (env : ServeEnv) (st : Server) :
  fifo_step st
    (snd ((modify (set_serving true) >>
           try_finally (serve_loop (sf_script env)) (serve_cleanup (sf_fault env))) st)).
Proof.
  apply fifo_bind.
  - apply modify_fifo; destruct st; reflexivity.
  - intros _ st1. apply try_finally_fifo.
    + apply serve_loop_fifo.
    + intros st2. apply serve_cleanup_fifo.
Qed.

(** The queue over one whole call of [serve_forever], however it ends and
    whatever the readiness events, signals and answers of the environment
    are: the entries taken from the queue, in the order they were taken,
    followed by the entries still queued, are the entries queued at the
    start (none, if the call opened the server) followed by the entries
    appended by [process_socket], in the order of the appends. *)
Lemma queue_order (env : ServeEnv) (st : Server) :
  let st' := snd (serve_forever env st) in
  exists t,
    trace st' = trace st ++ t /\
    served t ++ ser_queue st' = (if _open st then ser_queue st else []) ++ submitted t.
Proof.
  cbv zeta. remember (snd (serve_forever env st)) as st' eqn:Hst'.
  unfold serve_forever in Hst'.
  pose proof (serving_fifo env) as Hrest.
  set (rest := modify (set_serving true) >>
               try_finally (serve_loop (sf_script env)) (serve_cleanup (sf_fault env))) in *.
  unfold bind at 1 in Hst'. unfold bind at 1 in Hst'. cbn [get] in Hst'.
  destruct (_open st) eqn:Hopen; cbn [negb when ret] in Hst'.
  - subst st'. exact (Hrest st).
  - destruct (open_resets (sf_open env) st Hopen) as (t1 & Ht1 & Hs1 & Hq1 & Hempty).
    destruct (open (sf_open env) st) as [[u|e|] st1]; cbn [snd] in *; subst st'.
    + destruct (Hrest st1) as (t2 & Ht2 & Hq2).
      exists (t1 ++ t2). split.
      * rewrite Ht2, Ht1, app_assoc. reflexivity.
      * rewrite served_app, submitted_app, Hs1, Hq1. cbn [app].
        rewrite Hq2, Hempty. reflexivity.
    + exists t1. rewrite Hs1, Hq1, Hempty. split; [exact Ht1 | reflexivity].
    + exists t1. rewrite Hs1, Hq1, Hempty. split; [exact Ht1 | reflexivity].
Qed.

Lemma served_transactions (t : list action) : map fst (transactions t) = served t.
Proof.
  induction t as [|a t IH]; [reflexivity|].
  destruct a; cbn [transactions served map fst]; rewrite ?IH; reflexivity.
Qed.

Lemma transactions_served_nil (t : list action) : served t = [] -> transactions t = [].
Proof.
  intros H. rewrite <- served_transactions in H.
  destruct (transactions t); [reflexivity | discriminate].
Qed.

Lemma written_received_nil (t : list action) : device_received t = [] -> written t = [].
Proof.
  induction t as [|a t IH]; [reflexivity|].
  destruct a; cbn [device_received written]; auto.
  intros H. apply app_eq_nil in H as [-> H]. cbn [app]. auto.
Qed.

Lemma written_app (t1 t2 : list action) : written t2 = [] -> written (t1 ++ t2) = written t1.
Proof.
  intros H. induction t1 as [|a t1 IH]; [exact H|].
  destruct a; cbn [app written]; rewrite ?IH; reflexivity.
Qed.

Lemma transactions_app (t1 t2 : list action) :
  written t2 = [] -> transactions (t1 ++ t2) = transactions t1 ++ transactions t2.
Proof.
  intros H. induction t1 as [|a t1 IH]; [reflexivity|].
  destruct a; cbn [app transactions]; rewrite ?IH, ?(written_app _ _ H); reflexivity.
Qed.

(** Every byte the device accepted belongs to a transaction, or comes before
    the first one. *)
Lemma received_transactions (t : list action) :
  device_received t = written t ++ concat (map snd (transactions t)).
Proof.
  induction t as [|a t IH]; [reflexivity|].
  destruct a; cbn [device_received written transactions map snd concat app]; try exact IH.
  rewrite IH, app_assoc. reflexivity.
Qed.

Lemma in_order_nil (eol : bytes) (ok : bool) : in_order eol ok [].
Proof.
  destruct ok; cbn; [constructor|]. split; [constructor | discriminate].
Qed.

Lemma in_order_weaken (eol : bytes) (txs : list ((bytes * nat) * bytes)) :
  in_order eol true txs -> in_order eol false txs.
Proof.
  cbn. intros H. destruct txs as [|x txs _] using rev_ind.
  - split; [constructor | discriminate].
  - apply Forall_app in H as [H1 H2]. rewrite removelast_last, last_snoc.
    split; [exact H1|]. intros y [= <-]. apply Forall_inv in H2.
    unfold sent_whole in H2. unfold sent_part. rewrite H2. reflexivity.
Qed.

Lemma in_order_app (eol : bytes) (ok : bool) (tx1 tx2 : list ((bytes * nat) * bytes)) :
  in_order eol true tx1 -> in_order eol ok tx2 -> in_order eol ok (tx1 ++ tx2).
Proof.
  intros H1 H2. destruct ok.
  - cbn in *. apply Forall_app. split; assumption.
  - destruct tx2 as [|x tx2 _] using rev_ind.
    + rewrite app_nil_r. apply in_order_weaken. exact H1.
    + cbn in *. destruct H2 as [H2 H3].
      rewrite removelast_last in H2. rewrite last_snoc in H3.
      rewrite app_assoc, removelast_last, last_snoc.
      split; [apply Forall_app; split; assumption | exact H3].
Qed.

Lemma silent_refl (st : Server) : silent_step st st.
Proof. exists []. rewrite app_nil_r. repeat split; reflexivity. Qed.

Lemma silent_trans (a b c : Server) : silent_step a b -> silent_step b c -> silent_step a c.
Proof.
  intros (t1 & Ht1 & He1 & Hs1 & Hd1) (t2 & Ht2 & He2 & Hs2 & Hd2).
  exists (t1 ++ t2). rewrite Ht2, Ht1, app_assoc, served_app, device_received_app.
  rewrite Hs1, Hs2, Hd1, Hd2. repeat split; congruence.
Qed.

Lemma silent_bind {A B} (c : M A) (k : A -> M B) (st : Server) :
  silent_step st (snd (c st)) ->
  (forall a st1, silent_step st1 (snd (k a st1))) ->
  silent_step st (snd (bind c k st)).
Proof.
  intros Hc Hk. unfold bind. destruct (c st) as [[a|e|] st1]; cbn [snd] in *.
  - exact (silent_trans _ _ _ Hc (Hk a st1)).
  - exact Hc.
  - exact Hc.
Qed.

Lemma silent_device {A} (st : Server) (out : result A * Server) :
  silent_step st (snd out) -> device_step st out.
Proof.
  intros (t & Ht & He & Hs & Hd). exists t.
  rewrite (transactions_served_nil _ Hs).
  repeat split; [exact Ht | exact He | apply written_received_nil; exact Hd | apply in_order_nil].
Qed.

Lemma device_step_trans {A B} (st st1 : Server) (a : A) (out : result B * Server) :
  device_step st (Ok a, st1) -> device_step st1 out -> device_step st out.
Proof.
  intros (t1 & Ht1 & He1 & Hw1 & Ho1) (t2 & Ht2 & He2 & Hw2 & Ho2). cbn [fst snd returned] in *.
  exists (t1 ++ t2). rewrite Ht2, Ht1, app_assoc.
  rewrite (written_app _ _ Hw2), (transactions_app _ _ Hw2).
  split; [reflexivity|]. split; [congruence|]. split; [exact Hw1|].
  apply in_order_app; [exact Ho1|]. rewrite <- He1. exact Ho2.
Qed.

Lemma device_step_bind {A B} (c : M A) (k : A -> M B) (st : Server) :
  device_step st (c st) ->
  (forall a st1, device_step st1 (k a st1)) ->
  device_step st (bind c k st).
Proof.
  intros Hc Hk. unfold bind. destruct (c st) as [[a|e|] st1].
  - exact (device_step_trans _ _ _ _ Hc (Hk a st1)).
  - exact Hc.
  - exact Hc.
Qed.

Lemma received_enqueues (b : nat) (cmds : list bytes) :
  device_received (map (fun cmd => Enqueue cmd b) cmds) = [].
Proof. induction cmds; [reflexivity | exact IHcmds]. Qed.

Ltac silent_leaf :=
  unfold silent_step; mred; rewrite <- ?app_assoc;
  first
    [ exists []; split; [rewrite app_nil_r; reflexivity|]; repeat split; reflexivity
    | eexists; split; [reflexivity|]; split; [reflexivity|];
      rewrite ?served_app, ?device_received_app, ?served_enqueues, ?received_enqueues;
      cbn [served device_received app]; split; reflexivity ].

Lemma process_socket_silent (s : nat) (data : keydata) (mask : N) (w : io) (st : Server) :
  silent_step st (snd (process_socket s data mask w st)).
Proof.
  unfold process_socket. destruct st. mrun.
  repeat (mred; rewrite ?for_each_enqueue; split_match).
  all: mred; rewrite ?for_each_enqueue; mred.
  all: silent_leaf.
Qed.

Lemma stop_silent (st : Server) : silent_step st (snd (stop st)).
Proof. unfold stop. destruct st. mrun. mred. destruct _serving0; mred; silent_leaf. Qed.

(** The write loop sends the device a beginning of the query, and all of it
    when it returns. *)
Lemma write_all_sent (ws : list wres) :
  forall (query : bytes) (st : Server),
    exists r, write_all ws query st = (r, set_trace (trace st ++ write_log ws query) st) /\
              device_received (write_log ws query) `prefix_of` query /\
              (r = Ok tt -> device_received (write_log ws query) = query).
Proof.
  induction ws as [|w ws IH]; intros query st.
  - destruct query as [|b query]; cbn [write_all write_log device_received].
    + exists (Ok tt). rewrite set_trace_nil. repeat split; reflexivity.
    + exists Blocked. rewrite set_trace_nil.
      split; [reflexivity|]. split; [apply prefix_nil | discriminate].
  - destruct query as [|b query]; cbn [write_all write_log device_received].
    + exists (Ok tt). rewrite set_trace_nil. repeat split; reflexivity.
    + destruct w as [n|e].
      * destruct st. msimpl.
        match goal with |- context [write_all ws ?q ?s] =>
          destruct (IH q s) as (r & Hrun & Hpre & Hok)
        end.
        exists r. rewrite Hrun. mred. rewrite <- app_assoc.
        split; [reflexivity|]. cbn [device_received]. split.
        -- destruct Hpre as [k Hk]. exists k.
           rewrite <- app_assoc, <- Hk. symmetry. apply take_drop.
        -- intros Hr. rewrite (Hok Hr). apply take_drop.
      * exists (Raise e). mrun. rewrite set_trace_nil.
        split; [reflexivity|]. split; [apply prefix_nil | discriminate].
Qed.

Lemma written_write_log (ws : list wres) (tail : list action) :
  forall query, written (write_log ws query ++ tail)
                = device_received (write_log ws query) ++ written tail.
Proof.
  induction ws as [|w ws IH]; intros [|b query]; try reflexivity.
  cbn [write_log]. destruct w; [|reflexivity].
  cbn [app written device_received]. rewrite IH, app_assoc. reflexivity.
Qed.

Lemma transactions_write_log (ws : list wres) (tail : list action) :
  forall query, transactions (write_log ws query ++ tail) = transactions tail.
Proof.
  induction ws as [|w ws IH]; intros [|b query]; try reflexivity.
  cbn [write_log]. destruct w; [|reflexivity].
  cbn [app transactions]. apply IH.
Qed.

Lemma written_write_log_end (ws : list wres) (query : bytes) :
  written (write_log ws query) = device_received (write_log ws query).
Proof.
  rewrite <- (app_nil_r (write_log ws query)) at 1.
  rewrite written_write_log. apply app_nil_r.
Qed.

Lemma transactions_write_log_end (ws : list wres) (query : bytes) :
  transactions (write_log ws query) = [].
Proof.
  rewrite <- (app_nil_r (write_log ws query)). apply transactions_write_log.
Qed.

Ltac run_write_sent :=
  match goal with
  | |- context [write_all ?ws ?q ?s] =>
      let r := fresh "r" in
      let Hrun := fresh "Hrun" in
      let Hpre := fresh "Hpre" in
      let Hok := fresh "Hok" in
      destruct (write_all_sent ws q s) as (r & Hrun & Hpre & Hok); rewrite Hrun; clear Hrun
  end.

Lemma process_serial_device (data : keydata) (mask : N) (w : io) (st : Server) :
  device_step st (process_serial data mask w st).
Proof.
  unfold process_serial. destruct st. mrun.
  repeat (mred; try run_write_sent; split_match).
  all: mred.
  all: unfold device_step; mred; rewrite <- ?app_assoc.
  all: try (exists []; split; [rewrite app_nil_r; reflexivity|];
            split; [reflexivity|]; split; [reflexivity|]; apply in_order_nil).
  all: eexists; (split; [reflexivity|]); (split; [reflexivity|]).
  all: cbn [app written transactions].
  all: rewrite ?written_write_log, ?transactions_write_log,
         ?written_write_log_end, ?transactions_write_log_end.
  all: cbn [app written transactions returned fst]; rewrite ?app_nil_r.
  all: (split; [reflexivity|]).
  all: try (repeat constructor; unfold sent_whole; cbn [fst snd];
            apply Hok; f_equal; apply unit_eq || (destruct a; reflexivity)).
  all: split; [constructor|]; intros y [= <-]; unfold sent_part; cbn [fst snd].
  all: first [exact Hpre | apply prefix_nil].
Qed.

Lemma handle_events_device (evs : list event) :
  forall st, device_step st (handle_events evs st).
Proof.
  induction evs as [|ev evs IH]; intros st.
  - apply silent_device, silent_refl.
  - destruct ev as [f data mask w|]; cbn [handle_events].
    + apply device_step_bind; [apply silent_device, silent_refl|].
      intros a st1. destruct (_shutdown_request a); [apply silent_device, silent_refl|].
      apply device_step_bind; [|intros _; exact IH].
      destruct f; [apply silent_device, process_socket_silent | apply process_serial_device].
    + apply device_step_bind; [apply silent_device, stop_silent | intros _; exact IH].
Qed.

Lemma serve_loop_device (script : list (list item)) :
  forall st, device_step st (serve_loop script st).
Proof.
  induction script as [|its script IH]; intros st; cbn [serve_loop].
  - apply device_step_bind; [apply silent_device, silent_refl|].
    intros a st1. destruct (_shutdown_request a); apply silent_device, silent_refl.
  - apply device_step_bind; [apply silent_device, silent_refl|].
    intros a st1. destruct (_shutdown_request a); [apply silent_device, silent_refl|].
    apply device_step_bind.
    + apply silent_device. unfold the_sel, bind, get. destruct (sel st1); apply silent_refl.
    + intros m st2. apply device_step_bind; [apply handle_events_device | intros _; exact IH].
Qed.

Lemma syscall_silent (fault : action -> option exn) (a : action) (st : Server) :
  served [a] = [] -> device_received [a] = [] ->
  silent_step st (snd (syscall fault a st)).
Proof.
  intros Hs Hd. unfold syscall. destruct (fault a); [apply silent_refl|].
  destruct st. mrun. mred. exists [a]. mred. repeat split; assumption.
Qed.

Lemma for_each_silent {A} (body : A -> M unit) (xs : list A) :
  (forall x st, silent_step st (snd (body x st))) ->
  forall st, silent_step st (snd (for_each xs body st)).
Proof.
  intros Hbody. induction xs as [|x xs IH]; intros st; cbn [for_each].
  - apply silent_refl.
  - apply silent_bind; [apply Hbody | intros _; exact IH].
Qed.

Lemma suppress_silent (body : M unit) (st : Server) :
  silent_step st (snd (body st)) -> silent_step st (snd (suppress_OSError body st)).
Proof.
  unfold suppress_OSError. destruct (body st) as [[u|e|] st1]; cbn [snd]; auto.
  destruct (is_OSError e); auto.
Qed.

Lemma modify_silent (f : Server -> Server) (st : Server) :
  trace (f st) = trace st -> eol_ser (f st) = eol_ser st ->
  silent_step st (snd (modify f st)).
Proof.
  intros Ht He. exists []. cbn [modify snd]. rewrite Ht, He, app_nil_r.
  repeat split; reflexivity.
Qed.

Lemma serve_cleanup_silent (fault : action -> option exn) (st : Server) :
  silent_step st (snd (serve_cleanup fault st)).
Proof.
  unfold serve_cleanup.
  apply silent_bind.
  - apply suppress_silent. apply silent_bind; [apply silent_refl|].
    intros a st1. apply for_each_silent. intros c st2. unfold shutdown_and_close.
    apply silent_bind; [apply syscall_silent; reflexivity|].
    intros _ st3. apply syscall_silent; reflexivity.
  - intros _ st1. apply silent_bind.
    + apply modify_silent; destruct st1; reflexivity.
    + intros _ st2. apply modify_silent; destruct st2; reflexivity.
Qed.

(** What is silent after a call adds nothing to its transactions. *)
Lemma device_then_silent {A B} (st st1 st2 : Server) (r : result A) (r' : result B) :
  device_step st (r, st1) ->
  silent_step st1 st2 ->
  (returned r' = true -> returned r = true) ->
  device_step st (r', st2).
Proof.
  intros (t1 & Ht1 & He1 & Hw1 & Ho1) (t2 & Ht2 & He2 & Hs2 & Hd2) Hr.
  cbn [fst snd] in *.
  pose proof (written_received_nil _ Hd2) as Hw2.
  exists (t1 ++ t2). cbn [fst snd]. rewrite Ht2, Ht1, app_assoc.
  rewrite (written_app _ _ Hw2), (transactions_app _ _ Hw2).
  rewrite (transactions_served_nil _ Hs2), app_nil_r.
  split; [reflexivity|]. split; [congruence|]. split; [exact Hw1|].
  destruct (returned r') eqn:E'.
  - rewrite (Hr eq_refl) in Ho1. exact Ho1.
  - destruct (returned r); [apply in_order_weaken|]; exact Ho1.
Qed.

Lemma try_finally_device (body cleanup : M unit) (st : Server) :
  device_step st (body st) ->
  (forall st1, silent_step st1 (snd (cleanup st1))) ->
  device_step st (try_finally body cleanup st).
Proof.
  intros Hb Hc. unfold try_finally.
  destruct (body st) as [[u|e|] st1].
  - exact (device_step_trans _ _ _ _ Hb (silent_device _ _ (Hc st1))).
  - specialize (Hc st1). destruct (cleanup st1) as [[u|e'|] st2]; cbn [snd] in Hc.
    + exact (device_then_silent _ _ _ _ _ Hb Hc (fun H => H)).
    + exact (device_then_silent _ _ _ _ _ Hb Hc (fun H => H)).
    + exact (device_then_silent _ _ _ _ _ Hb Hc (fun H => H)).
  - exact Hb.
Qed.

Lemma open_loop_silent (d : Q) (ts : list tick) :
  forall (exc : exn) (st : Server), silent_step st (snd (open_loop d exc ts st)).
Proof.
  induction ts as [|t ts IH]; intros exc st.
  - cbn [open_loop]. mrun. cbn [snd]. apply silent_refl.
  - cbn [open_loop]. destruct st. mrun. mred.
    destruct (Qltb (clock0 + lead t) d).
    + destruct (acquire t) as [o|e]; mred.
      * silent_leaf.
      * destruct (is_OSError e); mred; [|silent_leaf].
        destruct (errno_is e EBUSY); mred.
        -- eapply silent_trans; [|apply IH]. silent_leaf.
        -- eapply silent_trans; [|apply IH]. silent_leaf.
    + mred. silent_leaf.
Qed.

Lemma open_silent (env : OpenEnv) (st : Server) : silent_step st (snd (open env st)).
Proof.
  unfold open. destruct st. mrun. mred.
  destruct _open0; mred; [silent_leaf|].
  match goal with |- context [open_loop ?d ?e ?l ?s] =>
    pose proof (open_loop_silent d l e s) as H;
    destruct (open_loop d e l s) as [[exc| |] st1]
  end; cbn [snd] in H; destruct H as (t & Ht & He & Hs & Hd); destruct st1; mred; subst.
  - repeat (mred; split_match); mred; exists t; repeat split; assumption.
  - exists t. repeat split; assumption.
  - exists t. repeat split; assumption.
Qed.

(** The device side of a whole call of [serve_forever]. *)
Lemma serve_forever_device (env : ServeEnv) (st : Server) :
  device_step st (serve_forever env st).
Proof.
  unfold serve_forever.
  apply device_step_bind.
  - apply silent_device. apply silent_bind; [apply silent_refl|].
    intros a st1. destruct (negb (_open a)); cbn [when]; [apply open_silent | apply silent_refl].
  - intros _ st1. apply device_step_bind.
    + apply silent_device, modify_silent; destruct st1; reflexivity.
    + intros _ st2. apply try_finally_device.
      * apply serve_loop_device.
      * intros st3. apply serve_cleanup_silent.
Qed.

(** C1. Commands are serviced in the order they were queued.  Over one
    whole call of [serve_forever], however it ends and whatever the
    readiness events, signals and answers of the environment are: the
    entries of the device transactions, in the order of the transactions,
    followed by the entries still queued, are the entries queued at the
    start (none, if the call opened the server) followed by the entries
    [process_socket] appended, in the order of the appends, whichever
    connection an entry came from; the device is sent nothing outside a
    transaction; and in each transaction it is sent the command of that
    entry followed by the device marker, except that the last transaction of
    a call that did not return may have stopped inside its query.  This is
    not for want of transactions or appends: a write event on the device
    with a query the device accepts is one transaction, for the entry at the
    head of the queue, and a read event on a client socket appends every
    complete line it finds, in the order of the lines, at the end of the
    queue. *)
Theorem fifo_service :
  (forall (env : ServeEnv) (st : Server),
     let out := serve_forever env st in
     exists t,
       trace (snd out) = trace st ++ t /\
       map fst (transactions t) ++ ser_queue (snd out)
         = (if _open st then ser_queue st else []) ++ submitted t /\
       device_received t = concat (map snd (transactions t)) /\
       in_order (eol_ser st) (returned (fst out)) (transactions t)) /\
  (forall (st : Server) (mask : N) (w : io) (cmd : bytes) (b : nat)
          (rest : list (bytes * nat)) (cb : ClientBuffers) (m : selector),
     truthy (N.land mask EVENT_WRITE) = true ->
     ser_queue st = (cmd, b) :: rest ->
     objs st !! b = Some cb ->
     sel st = Some m ->
     is_Some (m !! FSerial) ->
     (negb (nonempty (out_buf cb)) && bool_decide (cb_sock cb ∈ clients st) = true ->
      is_Some (m !! FSock (cb_sock cb))) ->
     drains (io_writes w) (length (cmd ++ eol_ser st)) = true ->
     exists st' t,
       process_serial DQueue mask w st = (Ok tt, st') /\
       ser_queue st' = rest /\
       trace st' = trace st ++ t /\
       transactions t = [((cmd, b), cmd ++ eol_ser st)] /\
       device_received t = cmd ++ eol_ser st) /\
  (forall (st : Server) (s b : nat) (mask : N) (w : io) (received : bytes)
          (cb : ClientBuffers) (m : selector),
     truthy (N.land mask EVENT_READ) = true ->
     io_recv w = inl received ->
     received <> [] ->
     objs st !! b = Some cb ->
     eol_sock st <> [] ->
     sel st = Some m ->
     is_Some (serial st) ->
     (ser_queue st = [] -> m !! FSerial = None) ->
     exists chunks st' t,
       split (eol_sock st) (in_buf cb ++ received) = Some chunks /\
       process_socket s (DClient b) mask w st = (Ok tt, st') /\
       ser_queue st' = ser_queue st ++ map (fun cmd => (cmd, b)) (removelast chunks) /\
       trace st' = trace st ++ t /\
       submitted t = map (fun cmd => (cmd, b)) (removelast chunks)).
Proof.
  split; [|split].
  - intros env st. cbv zeta.
    destruct (queue_order env st) as (t & Ht & Hq).
    destruct (serve_forever_device env st) as (t' & Ht' & _ & Hw & Ho).
    assert (t' = t) as -> by (rewrite Ht in Ht'; exact (app_inv_head _ _ _ (eq_sym Ht'))).
    exists t. split; [exact Ht|]. split; [rewrite served_transactions; exact Hq|].
    split; [rewrite received_transactions, Hw; reflexivity | exact Ho].
  - intros st mask w cmd b rest cb m Hmask Hq Hobj Hsel Hreg Harm Hdr.
    destruct (process_serial_run st mask w cmd b rest cb m Hmask Hq Hobj Hsel Hreg Harm Hdr)
      as (st' & Hrun & Hrest & Htr & _).
    exists st'. eexists. split; [exact Hrun|]. split; [exact Hrest|].
    split; [exact Htr|]. cbn [transactions device_received].
    rewrite written_write_log, transactions_write_log, device_received_app.
    cbn [written transactions device_received].
    rewrite !app_nil_r, (write_log_received _ _ Hdr). split; reflexivity.
  - intros st s b mask w received cb m Hmask Hrecv Hne Hobj Heol Hsel Hser Hfree.
    destruct (process_socket_recv_run st s b mask w received cb m
                Hmask Hrecv Hne Hobj Heol Hsel Hser Hfree)
      as (chunks & st' & Hsplit & Hrun & _ & Hq & Htr & _).
    exists chunks, st'. eexists. split; [exact Hsplit|]. split; [exact Hrun|].
    split; [exact Hq|]. split; [exact Htr|]. apply submitted_enqueues.
Qed.

Lemma fifo_service_witness :
  let w := Sample.device [Wrote 5] (of_string "PONG" ++ [CR]) in
  let m := <[FSerial := (EVENT_WRITE, DQueue)]> Sample.connected_sel in
  let w' := Sample.recvs (of_string "A1" ++ [LF] ++ of_string "A2" ++ [LF]) in
  ser_queue Sample.asked = [(of_string "PING", 1)] /\
  objs Sample.asked !! 1 = Some (mkClientBuffers 1 [] []) /\
  sel Sample.asked = Some m /\
  is_Some (m !! FSerial) /\
  drains (io_writes w) (length (of_string "PING" ++ eol_ser Sample.asked)) = true /\
  io_recv w' = inl (of_string "A1" ++ [LF] ++ of_string "A2" ++ [LF]) /\
  eol_sock Sample.asked <> [] /\
  is_Some (serial Sample.asked) /\
  (exists st' t,
     process_serial DQueue EVENT_WRITE w Sample.asked = (Ok tt, st') /\
     ser_queue st' = [] /\
     trace st' = trace Sample.asked ++ t /\
     transactions t = [((of_string "PING", 1), of_string "PING" ++ eol_ser Sample.asked)] /\
     device_received t = of_string "PING" ++ eol_ser Sample.asked) /\
  (exists chunks st' t,
     split (eol_sock Sample.asked) ([] ++ of_string "A1" ++ [LF] ++ of_string "A2" ++ [LF])
       = Some chunks /\
     process_socket 1 (DClient 1) EVENT_READ w' Sample.asked = (Ok tt, st') /\
     ser_queue st' = ser_queue Sample.asked ++ map (fun cmd => (cmd, 1)) (removelast chunks) /\
     trace st' = trace Sample.asked ++ t /\
     submitted t = map (fun cmd => (cmd, 1)) (removelast chunks)).
Proof.
  cbv zeta.
  split; [vm_compute; reflexivity|]. split; [vm_compute; reflexivity|].
  split; [vm_compute; reflexivity|]. split; [vm_compute; eexists; reflexivity|].
  split; [vm_compute; reflexivity|]. split; [reflexivity|].
  split; [discriminate|]. split; [vm_compute; eexists; reflexivity|].
  split.
  - apply (proj1 (proj2 fifo_service) Sample.asked EVENT_WRITE
             (Sample.device [Wrote 5] (of_string "PONG" ++ [CR]))
             (of_string "PING") 1 [] (mkClientBuffers 1 [] [])
             (<[FSerial := (EVENT_WRITE, DQueue)]> Sample.connected_sel)).
    + reflexivity.
    + vm_compute. reflexivity.
    + vm_compute. reflexivity.
    + vm_compute. reflexivity.
    + vm_compute. eexists. reflexivity.
    + intros _. vm_compute. eexists. reflexivity.
    + vm_compute. reflexivity.
  - apply (proj2 (proj2 fifo_service) Sample.asked 1 1 EVENT_READ
             (Sample.recvs (of_string "A1" ++ [LF] ++ of_string "A2" ++ [LF]))
             (of_string "A1" ++ [LF] ++ of_string "A2" ++ [LF])
             (mkClientBuffers 1 [] [])
             (<[FSerial := (EVENT_WRITE, DQueue)]> Sample.connected_sel)).
    + reflexivity.
    + reflexivity.
    + discriminate.
    + vm_compute. reflexivity.
    + discriminate.
    + vm_compute. reflexivity.
    + vm_compute. eexists. reflexivity.
    + vm_compute. discriminate.
Defined.

(** A run with two clients: the device is sent the three commands in the
    order they were appended, not grouped by client. *)
Example two_clients_run :
  let r := serve_forever two_clients (init [CR] [LF] None None) in
  fst r = Ok tt /\
  submitted (trace (snd r)) = [(of_string "B1", 2); (of_string "A1", 1); (of_string "A2", 1)] /\
  served (trace (snd r)) = [(of_string "B1", 2); (of_string "A1", 1); (of_string "A2", 1)] /\
  transactions (trace (snd r))
    = [((of_string "B1", 2), of_string "B1" ++ [CR]);
       ((of_string "A1", 1), of_string "A1" ++ [CR]);
       ((of_string "A2", 1), of_string "A2" ++ [CR])] /\
  device_received (trace (snd r))
    = of_string "B1" ++ [CR] ++ of_string "A1" ++ [CR] ++ of_string "A2" ++ [CR] /\
  sent_to 2 (trace (snd r)) = of_string "b1" ++ [LF] /\
  sent_to 1 (trace (snd r)) = [] /\
  out_buf <$> objs (snd r) !! 1 = Some (of_string "a1" ++ [LF] ++ of_string "a2" ++ [LF]) /\
  ser_queue (snd r) = [].
Proof. vm_compute. repeat split; reflexivity. Qed.

End QueueFacts.

(** * Further properties of the class *)

(** ** Cooperative shutdown *)

Module Shutdown.

Lemma stop_when_requested (st : Server) :
  _shutdown_request st = true -> stop st = (Ok tt, st).
Proof.
  intros H. unfold stop. destruct st. mred. subst. mrun. mred.
  destruct _serving0; reflexivity.
Qed.

Lemma handle_events_when_requested (evs : list event) (st : Server) :
  _shutdown_request st = true -> handle_events evs st = (Ok tt, st).
Proof.
  intros H. induction evs as [|ev evs IH]; [reflexivity|].
  destruct ev as [f data mask w|]; cbn [handle_events].
  - unfold bind, get. rewrite H. reflexivity.
  - unfold bind. rewrite (stop_when_requested st H). exact IH.
Qed.

(** [stop()] on a serving server sets the shutdown request, and from then on
    no event is handled: the events left in the batch are skipped whatever
    they are, and the loop condition ends the loop whatever would still
    come.  A termination signal in the middle of a batch has the same
    effect. *)
Theorem no_event_after_stop (st : Server) (evs : list event) (script : list (list item)) :
  _serving st = true ->
  let st1 := snd (stop st) in
  _shutdown_request st1 = true /\
  handle_events evs st1 = (Ok tt, st1) /\
  serve_loop script st1 = (Ok tt, st1) /\
  handle_events (EvSignal :: evs) st = (Ok tt, st1).
Proof.
  intros Hserving. cbv zeta.
  assert (Hstop : stop st = (Ok tt, set_shutdown_request true st)).
  { unfold stop. destruct st. mred. subst. reflexivity. }
  rewrite Hstop. cbn [snd].
  assert (Hreq : _shutdown_request (set_shutdown_request true st) = true)
    by (destruct st; reflexivity).
  split; [exact Hreq|].
  split; [exact (handle_events_when_requested _ _ Hreq)|].
  split.
  - destruct script; cbn [serve_loop]; unfold bind, get; rewrite Hreq; reflexivity.
  - cbn [handle_events]. unfold bind. rewrite Hstop.
    exact (handle_events_when_requested _ _ Hreq).
Qed.

Lemma no_event_after_stop_witness :
  _serving Sample.serving = true /\
  let st1 := snd (stop Sample.serving) in
  let evs := [Ev (FSock 0) DNone EVENT_READ Sample.accepts] in
  let script := [[Ready (FSock 0) EVENT_READ Sample.accepts]] in
  _shutdown_request st1 = true /\
  handle_events evs st1 = (Ok tt, st1) /\
  serve_loop script st1 = (Ok tt, st1) /\
  handle_events (EvSignal :: evs) Sample.serving = (Ok tt, st1).
Proof.
  split; [reflexivity|].
  apply (no_event_after_stop Sample.serving
           [Ev (FSock 0) DNone EVENT_READ Sample.accepts]
           [[Ready (FSock 0) EVENT_READ Sample.accepts]]).
  reflexivity.
Defined.

End Shutdown.

(** ** Opening *)

Module Opening.

(** The acquisition loop changes the clock, the trace and, when an attempt
    succeeds, the device handle; the handle then carries the timeouts of
    [ser_kwargs]. *)
Lemma open_loop_post (deadline : Q) (ts : list tick) :
  forall (exc : exn) (st : Server) (r : result exn) (st' : Server),
    open_loop deadline exc ts st = (r, st') ->
    exists t c sr,
      st' = set_trace (trace st ++ t) (set_clock c (set_serial sr st)) /\
      (sr = serial st \/
       exists o, sr = Some (mkSerial o (kw_timeout st) (kw_write_timeout st))).
Proof.
  induction ts as [|t ts IH]; intros exc st r st' Hrun.
  - cbn [open_loop] in Hrun. injection Hrun as <- <-.
    exists [], (clock st), (serial st). destruct st. cbn. rewrite app_nil_r.
    split; [reflexivity | left; reflexivity].
  - cbn [open_loop] in Hrun. destruct st.
    cbv beta iota delta [bind ret raise blocked get modify log when time sleep_tenth] in Hrun.
    cbn [set_clock set_trace set_serial clock trace kw_timeout kw_write_timeout fst snd] in Hrun.
    destruct (Qltb (clock0 + lead t) deadline).
    + destruct (acquire t) as [o|e].
      * injection Hrun as <- <-.
        exists [Acquire], (clock0 + lead t)%Q,
               (Some (mkSerial o kw_timeout0 kw_write_timeout0)).
        split; [reflexivity | right; exists o; reflexivity].
      * destruct (is_OSError e).
        -- destruct (errno_is e EBUSY);
             cbn [set_clock set_trace set_serial clock trace fst snd] in Hrun;
             apply IH in Hrun; destruct Hrun as (t' & c & sr & Hst & Hser);
             cbn [set_clock set_trace set_serial clock trace serial kw_timeout kw_write_timeout] in Hst, Hser.
           ++ exists ([Acquire; Sleep] ++ t'), c, sr.
              cbn [set_clock set_trace set_serial clock trace serial kw_timeout kw_write_timeout].
              rewrite <- !app_assoc in Hst. split; [exact Hst | exact Hser].
           ++ exists ([Acquire] ++ t'), c, sr.
              cbn [set_clock set_trace set_serial clock trace serial kw_timeout kw_write_timeout].
              rewrite <- !app_assoc in Hst. split; [exact Hst | exact Hser].
        -- injection Hrun as <- <-.
           exists [Acquire], (clock0 + lead t)%Q, serial0.
           split; [reflexivity | left; reflexivity].
    + injection Hrun as <- <-.
      exists [], (clock0 + lead t)%Q, serial0. cbn. rewrite app_nil_r.
      split; [reflexivity | left; reflexivity].
Qed.

Lemma open_when_open (env : OpenEnv) (st : Server) :
  _open st = true -> open env st = (Ok tt, st).
Proof. intros H. unfold open, bind, get. rewrite H. reflexivity. Qed.

(** What [open] comes to on a server that is not open. *)
Lemma open_outcome (env : OpenEnv) (st : Server) (r : result unit) (st' : Server) :
  _open st = false ->
  open env st = (r, st') ->
  ser_queue st' = [] /\ clients st' = clients st /\ _timeout st' = _timeout st /\
  _serving st' = _serving st /\ _shutdown_request st' = _shutdown_request st /\
  match r with
  | Ok _ =>
      _open st' = true /\
      serial st' = Some (mkSerial true (kw_timeout st) (kw_write_timeout st)) /\
      sock st' = Some (next_id st) /\
      sel st' = Some {[FSock (next_id st) := (EVENT_READ, DNone)]}
  | _ =>
      _open st' = false /\ sock st' = sock st /\ sel st' = Some ∅
  end.
Proof.
  intros Hclosed. unfold open. destruct st. mred. subst. mrun. mred.
  match goal with |- context [open_loop ?d ?e ?l ?s] =>
    destruct (open_loop d e l s) as [r1 st1] eqn:Hloop
  end.
  apply open_loop_post in Hloop. destruct Hloop as (t & c & sr & Hst & Hser).
  cbn [set_clock set_trace set_serial clock trace serial kw_timeout kw_write_timeout] in Hst, Hser.
  subst st1.
  destruct r1 as [exc| |]; mred.
  - destruct Hser as [->|[o ->]]; mred.
    + intros [= <- <-]. mred. repeat split; reflexivity.
    + destruct o; mred.
      * destruct (listen env) as [e|]; mred.
        -- intros [= <- <-]. mred. repeat split; reflexivity.
        -- rewrite lookup_empty. mred. intros [= <- <-]. mred. repeat split; reflexivity.
      * intros [= <- <-]. mred. repeat split; reflexivity.
  - intros [= <- <-]. mred. repeat split; reflexivity.
  - intros [= <- <-]. mred. repeat split; reflexivity.
Qed.

(** What [open()] leaves behind on a server that was not open.  In every
    case the queue is empty, and the client set and the stored timeout are
    untouched.  If it returns, the server is open, the device handle is open
    and carries the timeouts of [ser_kwargs], and the selector holds exactly
    the new listening socket, registered for reading with no data.  If it
    raises (or is still retrying), the server is not open and the selector
    is a new, empty one. *)
Theorem open_post (env : OpenEnv) (st : Server) (r : result unit) (st' : Server) :
  _open st = false ->
  open env st = (r, st') ->
  ser_queue st' = [] /\ clients st' = clients st /\ _timeout st' = _timeout st /\
  _serving st' = _serving st /\ _shutdown_request st' = _shutdown_request st /\
  match r with
  | Ok _ =>
      _open st' = true /\
      serial st' = Some (mkSerial true (kw_timeout st) (kw_write_timeout st)) /\
      sock st' = Some (next_id st) /\
      sel st' = Some {[FSock (next_id st) := (EVENT_READ, DNone)]}
  | _ =>
      _open st' = false /\ sock st' = sock st /\ sel st' = Some ∅
  end.
Proof. exact (open_outcome env st r st'). Qed.

Lemma open_post_witness :
  let st := init [CR] [LF] None None in
  _open st = false /\
  open Sample.plug st = (Ok tt, Sample.opened) /\
  ser_queue Sample.opened = [] /\ clients Sample.opened = clients st /\
  _timeout Sample.opened = _timeout st /\
  _serving Sample.opened = _serving st /\
  _shutdown_request Sample.opened = _shutdown_request st /\
  _open Sample.opened = true /\
  serial Sample.opened = Some (mkSerial true (kw_timeout st) (kw_write_timeout st)) /\
  sock Sample.opened = Some (next_id st) /\
  sel Sample.opened = Some {[FSock (next_id st) := (EVENT_READ, DNone)]}.
Proof.
  cbv zeta.
  assert (H : open Sample.plug (init [CR] [LF] None None) = (Ok tt, Sample.opened))
    by (vm_compute; reflexivity).
  split; [reflexivity|]. split; [exact H|].
  exact (open_post Sample.plug (init [CR] [LF] None None) (Ok tt) Sample.opened eq_refl H).
Defined.

(** [open()] twice is [open()] once: after a call that returned, a second
    call returns at once and changes nothing. *)
Theorem open_twice (env env2 : OpenEnv) (st st1 : Server) :
  open env st = (Ok tt, st1) ->
  open env2 st1 = (Ok tt, st1).
Proof.
  intros H. apply open_when_open.
  destruct (_open st) eqn:Hopen.
  - rewrite (open_when_open env st Hopen) in H. injection H as <-. exact Hopen.
  - destruct (open_outcome env st (Ok tt) st1 Hopen H) as (_ & _ & _ & _ & _ & Ho & _).
    exact Ho.
Qed.

Lemma open_twice_witness :
  open Sample.plug (init [CR] [LF] None None) = (Ok tt, Sample.opened) /\
  open Acquisition.late_device Sample.opened = (Ok tt, Sample.opened).
Proof.
  assert (H : open Sample.plug (init [CR] [LF] None None) = (Ok tt, Sample.opened))
    by (vm_compute; reflexivity).
  split; [exact H|].
  exact (open_twice Sample.plug Acquisition.late_device _ _ H).
Defined.

(** The timeout property and the device handle.  A value assigned before
    [open()], while there is no device handle, becomes the stored timeout
    that bounds the grace window, but the handle [open()] then creates
    carries the timeout of [ser_kwargs], not the assigned value. *)
Theorem timeout_before_open (val : Q) (env : OpenEnv) (st st2 : Server) :
  _open st = false ->
  serial st = None ->
  (0 <= val)%Q ->
  open env (snd (timeout_set val st)) = (Ok tt, st2) ->
  fst (timeout_set val st) = Ok tt /\
  _timeout st2 = val /\
  TimeoutProperty.device_timeout st2 = Some (kw_timeout st).
Proof.
  intros Hclosed Hser Hval Hopen.
  assert (Hset : timeout_set val st = (Ok tt, set_timeout val st)).
  { unfold timeout_set. rewrite (Qltb_false _ _ Hval). destruct st. mred. subst. reflexivity. }
  rewrite Hset in *. cbn [fst snd] in *.
  destruct (open_outcome env (set_timeout val st) (Ok tt) st2) as (_ & _ & Ht & _ & _ & _ & Hs & _).
  - destruct st; exact Hclosed.
  - exact Hopen.
  - split; [reflexivity|]. split.
    + rewrite Ht. destruct st; reflexivity.
    + unfold TimeoutProperty.device_timeout. rewrite Hs. destruct st; reflexivity.
Qed.

Lemma timeout_before_open_witness :
  let st := init [CR] [LF] None None in
  let st2 := snd (open Sample.plug (snd (timeout_set 5 st))) in
  _open st = false /\ serial st = None /\ (0 <= 5)%Q /\
  open Sample.plug (snd (timeout_set 5 st)) = (Ok tt, st2) /\
  fst (timeout_set 5 st) = Ok tt /\
  _timeout st2 = 5%Q /\
  TimeoutProperty.device_timeout st2 = Some (kw_timeout st).
Proof.
  cbv zeta.
  assert (H : open Sample.plug (snd (timeout_set 5 (init [CR] [LF] None None)))
              = (Ok tt, snd (open Sample.plug (snd (timeout_set 5 (init [CR] [LF] None None))))))
    by (vm_compute; reflexivity).
  split; [reflexivity|]. split; [reflexivity|]. split; [discriminate|]. split; [exact H|].
  exact (timeout_before_open 5 Sample.plug (init [CR] [LF] None None) _
           eq_refl eq_refl ltac:(discriminate) H).
Defined.

End Opening.

(** ** Closing *)

Module Closing.
Import QueueFacts.

(** The loop over the clients in [close()] changes nothing but the trace. *)
Lemma close_loop_run (fault : action -> option exn) (l : list nat) :
  forall st,
    exists r t,
      for_each l (fun c => syscall fault (SockClose c)) st = (r, set_trace (trace st ++ t) st) /\
      (r = Ok tt \/ exists e a, r = Raise e /\ fault a = Some e) /\
      (fault = no_fault -> r = Ok tt /\ t = map SockClose l).
Proof.
  induction l as [|c l IH]; intros st.
  - exists (Ok tt), []. rewrite set_trace_nil.
    split; [reflexivity|]. split; [left; reflexivity | intros _; split; reflexivity].
  - cbn [for_each]. unfold syscall at 1.
    destruct (fault (SockClose c)) as [e|] eqn:E.
    + exists (Raise e), []. rewrite set_trace_nil. mrun.
      split; [reflexivity|]. split; [right; exists e, (SockClose c); split; [reflexivity | exact E]|].
      intros ->. discriminate E.
    + destruct st. mrun. mred.
      match goal with |- context [for_each l _ ?s] =>
        destruct (IH s) as (r & t & Hrun & Hr & Hnf)
      end.
      exists r, (SockClose c :: t). rewrite Hrun. mred. rewrite <- app_assoc.
      split; [reflexivity|]. split; [exact Hr|].
      intros Hf. destruct (Hnf Hf) as [-> ->]. split; reflexivity.
Qed.

Ltac run_close_loop :=
  match goal with
  | |- context [for_each ?l (fun c => syscall ?fault (SockClose c)) ?s] =>
      let r := fresh "r" in
      let t := fresh "t" in
      let Hrun := fresh "Hrun" in
      let Hr := fresh "Hr" in
      let Hnf := fresh "Hnf" in
      destruct (close_loop_run fault l s) as (r & t & Hrun & Hr & Hnf); rewrite Hrun
  end.

(** What [close] does when nothing fails. *)
Lemma close_run (st : Server) (m : selector) (h : Serial) (l : nat) :
  _serving st = false ->
  _open st = true ->
  sel st = Some m ->
  serial st = Some h ->
  sock st = Some l ->
  exists st',
    close no_fault st = (Ok tt, st') /\
    _open st' = false /\ sel st' = None /\ serial st' = None /\ sock st' = None /\
    ser_queue st' = [] /\ clients st' = ∅ /\
    trace st' = trace st ++ [SockShutdown l; SockClose l] ++ map SockClose (elements (clients st)).
Proof.
  intros Hserving Hopen Hsel Hser Hsock.
  unfold close, suppress_OSError. destruct st. mred. subst.
  cbv beta iota delta [bind get modify ret raise when the_sel log syscall no_fault]. mred.
  destruct (close_loop_run no_fault (elements clients0)
              (mkServer true false _shutdown_request0 eol_sock0 eol_ser0 kw_timeout0
                 kw_write_timeout0 _timeout0 None None None [] clients0 objs0 next_id0 clock0
                 ((trace0 ++ [SockShutdown l]) ++ [SockClose l])))
    as (r & t & Hrun & _ & Hnf).
  destruct (Hnf eq_refl) as [-> ->].
  unfold syscall, no_fault in Hrun.
  cbv beta iota delta [bind get modify ret raise when the_sel log syscall no_fault] in Hrun.
  rewrite Hrun. mred.
  eexists. split; [reflexivity|]. mred. rewrite <- !app_assoc. repeat split; reflexivity.
Qed.

(** [close()] on an open server that is not serving, when no call fails:
    the selector and the device handle are released, the queue is emptied,
    the listening socket is shut down and closed, every socket still in the
    client set is closed (not shut down), the set is emptied, and the server
    is closed. *)
Theorem close_releases (st : Server) (m : selector) (h : Serial) (l : nat) :
  _serving st = false ->
  _open st = true ->
  sel st = Some m ->
  serial st = Some h ->
  sock st = Some l ->
  exists st',
    close no_fault st = (Ok tt, st') /\
    _open st' = false /\ sel st' = None /\ serial st' = None /\ sock st' = None /\
    ser_queue st' = [] /\ clients st' = ∅ /\
    trace st' = trace st ++ [SockShutdown l; SockClose l] ++ map SockClose (elements (clients st)).
Proof. exact (close_run st m h l). Qed.

Lemma close_releases_witness :
  _serving Sample.connected = false /\ _open Sample.connected = true /\
  sel Sample.connected = Some Sample.connected_sel /\
  serial Sample.connected = Some (mkSerial true 1 None) /\
  sock Sample.connected = Some 0 /\
  exists st',
    close no_fault Sample.connected = (Ok tt, st') /\
    _open st' = false /\ sel st' = None /\ serial st' = None /\ sock st' = None /\
    ser_queue st' = [] /\ clients st' = ∅ /\
    trace st' = trace Sample.connected ++ [SockShutdown 0; SockClose 0]
                  ++ map SockClose (elements (clients Sample.connected)).
Proof.
  split; [reflexivity|]. split; [reflexivity|]. split; [vm_compute; reflexivity|].
  split; [reflexivity|]. split; [reflexivity|].
  apply (close_releases Sample.connected Sample.connected_sel (mkSerial true 1 None) 0).
  - reflexivity.
  - reflexivity.
  - vm_compute. reflexivity.
  - reflexivity.
  - reflexivity.
Defined.

(** [close()] is best effort.  On an open server that is not serving, if
    [shutdown] and [close] raise nothing but [OSError], [close()] returns
    normally and the server is closed, with the selector and the device
    handle released and the queue empty.  But the first [OSError] ends the
    whole [with suppress(OSError)] block: if it comes from the [shutdown] of
    the listening socket, that socket is neither closed nor forgotten, and
    the client set is left as it was. *)
Theorem close_best_effort (fault : action -> option exn) (st : Server)
    (m : selector) (h : Serial) (l : nat) :
  (forall a e, fault a = Some e -> is_OSError e = true) ->
  _serving st = false ->
  _open st = true ->
  sel st = Some m ->
  serial st = Some h ->
  sock st = Some l ->
  exists st',
    close fault st = (Ok tt, st') /\
    _open st' = false /\ sel st' = None /\ serial st' = None /\ ser_queue st' = [] /\
    (is_Some (fault (SockShutdown l)) ->
     sock st' = Some l /\ clients st' = clients st /\ trace st' = trace st).
Proof.
  intros Hos Hserving Hopen Hsel Hser Hsock.
  unfold close, suppress_OSError. destruct st. mred. subst.
  cbv beta iota delta [bind get modify ret raise when the_sel log syscall]. mred.
  destruct (fault (SockShutdown l)) as [e1|] eqn:E1; mred.
  { rewrite (Hos _ _ E1). eexists. split; [reflexivity|]. mred.
    repeat split; reflexivity. }
  destruct (fault (SockClose l)) as [e2|] eqn:E2; mred.
  { rewrite (Hos _ _ E2). eexists. split; [reflexivity|]. mred.
    repeat split; try reflexivity; exfalso; eapply is_Some_None; eassumption. }
  match goal with |- context [for_each ?l0 _ ?s] =>
    destruct (close_loop_run fault l0 s) as (r & t & Hrun & Hr & _)
  end.
  unfold syscall in Hrun.
  cbv beta iota delta [bind get modify ret raise when the_sel log syscall] in Hrun.
  rewrite Hrun. mred.
  destruct Hr as [-> | (e & a & -> & Ha)]; [|rewrite (Hos _ _ Ha)];
    (eexists; split; [reflexivity|]; mred;
     repeat split; try reflexivity; exfalso; eapply is_Some_None; eassumption).
Qed.

Lemma close_best_effort_witness :
  let fault := fun a => match a with
                        | SockShutdown 0 => Some (OSError (Some Cleanup.ENOTCONN))
                        | _ => None
                        end in
  (forall a e, fault a = Some e -> is_OSError e = true) /\
  is_Some (fault (SockShutdown 0)) /\
  exists st',
    close fault Sample.connected = (Ok tt, st') /\
    _open st' = false /\ sel st' = None /\ serial st' = None /\ ser_queue st' = [] /\
    (is_Some (fault (SockShutdown 0)) ->
     sock st' = Some 0 /\ clients st' = clients Sample.connected /\
     trace st' = trace Sample.connected).
Proof.
  cbv zeta.
  assert (Hos : forall a e,
             match a with
             | SockShutdown 0 => Some (OSError (Some Cleanup.ENOTCONN))
             | _ => None
             end = Some e -> is_OSError e = true).
  { intros a e H. destruct a as [| | | | | | | |[|n]|]; try discriminate H.
    injection H as <-. reflexivity. }
  split; [exact Hos|]. split; [eexists; reflexivity|].
  apply (close_best_effort _ Sample.connected Sample.connected_sel (mkSerial true 1 None) 0 Hos).
  - reflexivity.
  - reflexivity.
  - vm_compute. reflexivity.
  - reflexivity.
  - reflexivity.
Defined.

(** [close()] twice is [close()] once: after a call that returned, whatever
    state the server was in and whatever failed on the way, a second call
    returns and changes nothing. *)
Theorem close_twice (fault fault2 : action -> option exn) (st st1 : Server) :
  close fault st = (Ok tt, st1) ->
  close fault2 st1 = (Ok tt, st1).
Proof.
  unfold close at 1, suppress_OSError. destruct st. mred.
  cbv beta iota delta [bind get modify ret raise when the_sel log syscall]. mred.
  assert (Hclosed : forall s, _serving s = false -> _open s = false ->
                              close fault2 s = (Ok tt, s)).
  { intros s H1 H2. unfold close, bind, get. rewrite H1, H2. reflexivity. }
  destruct _serving0; [discriminate|].
  destruct _open0; mred; [|intros [= <-]; apply Hclosed; reflexivity].
  repeat (mred;
          try (match goal with
               | |- context [for_each ?l _ ?s] =>
                   let r := fresh "r" in
                   let t := fresh "t" in
                   let Hrun := fresh "Hrun" in
                   destruct (close_loop_run fault l s) as (r & t & Hrun & _ & _);
                   unfold syscall in Hrun;
                   cbv beta iota delta [bind get modify ret raise log] in Hrun;
                   rewrite Hrun; clear Hrun
               end);
          split_match).
  all: mred; intros [= <-]; apply Hclosed; reflexivity.
Qed.

Lemma close_twice_witness :
  let st1 := snd (close no_fault Sample.connected) in
  close no_fault Sample.connected = (Ok tt, st1) /\
  close Cleanup.peer_reset st1 = (Ok tt, st1).
Proof.
  cbv zeta.
  assert (H : close no_fault Sample.connected = (Ok tt, snd (close no_fault Sample.connected)))
    by (vm_compute; reflexivity).
  split; [exact H|].
  exact (close_twice no_fault Cleanup.peer_reset _ _ H).
Defined.

(** The context manager: [__enter__] on a closed, idle server with no
    clients followed by [__exit__], nothing failing in between, gives every
    resource back; the only socket touched is the listening socket that
    [__enter__] created. *)
Theorem enter_exit (env : OpenEnv) (st st1 : Server) :
  _open st = false ->
  _serving st = false ->
  clients st = ∅ ->
  __enter__ env st = (Ok tt, st1) ->
  exists st2,
    __exit__ no_fault st1 = (Ok tt, st2) /\
    _open st2 = false /\ sel st2 = None /\ serial st2 = None /\ sock st2 = None /\
    ser_queue st2 = [] /\ clients st2 = ∅ /\
    trace st2 = trace st1 ++ [SockShutdown (next_id st); SockClose (next_id st)].
Proof.
  intros Hclosed Hidle Hnone Henter. unfold __enter__ in Henter. unfold __exit__.
  destruct (Opening.open_outcome env st (Ok tt) st1 Hclosed Henter)
    as (_ & Hcl & _ & Hserving & _ & Hopen & Hser & Hsock & Hsel).
  destruct (close_run st1 _ _ _ ltac:(congruence) Hopen Hsel Hser Hsock)
    as (st2 & Hrun & H1 & H2 & H3 & H4 & H5 & H6 & H7).
  exists st2. rewrite Hcl, Hnone, elements_empty in H7. cbn [map] in H7.
  repeat split; assumption.
Qed.

Lemma enter_exit_witness :
  let st := init [CR] [LF] None None in
  _open st = false /\ _serving st = false /\ clients st = ∅ /\
  __enter__ Sample.plug st = (Ok tt, Sample.opened) /\
  exists st2,
    __exit__ no_fault Sample.opened = (Ok tt, st2) /\
    _open st2 = false /\ sel st2 = None /\ serial st2 = None /\ sock st2 = None /\
    ser_queue st2 = [] /\ clients st2 = ∅ /\
    trace st2 = trace Sample.opened ++ [SockShutdown (next_id st); SockClose (next_id st)].
Proof.
  cbv zeta.
  assert (H : __enter__ Sample.plug (init [CR] [LF] None None) = (Ok tt, Sample.opened))
    by (vm_compute; reflexivity).
  split; [reflexivity|]. split; [reflexivity|]. split; [reflexivity|]. split; [exact H|].
  exact (enter_exit Sample.plug (init [CR] [LF] None None) Sample.opened
           eq_refl eq_refl eq_refl H).
Defined.

End Closing.

(** ** Lifting a property of the handlers to the loop *)

Section Lift.

Variable R : Server -> Server -> Prop.
Hypothesis R_refl : forall st, R st st.
Hypothesis R_trans : forall a b c, R a b -> R b c -> R a c.

Lemma lift_bind {A B} (c : M A) (k : A -> M B) (st : Server) :
  R st (snd (c st)) ->
  (forall a st1, R st1 (snd (k a st1))) ->
  R st (snd (bind c k st)).
Proof using R_trans.
  intros Hc Hk. unfold bind. destruct (c st) as [[a|e|] st1]; cbn [snd] in *.
  - exact (R_trans _ _ _ Hc (Hk a st1)).
  - exact Hc.
  - exact Hc.
Qed.

Hypothesis R_socket : forall s data mask w st, R st (snd (process_socket s data mask w st)).
Hypothesis R_serial : forall data mask w st, R st (snd (process_serial data mask w st)).
Hypothesis R_stop : forall st, R st (snd (stop st)).

Lemma lift_handle_events (evs : list event) :
  forall st, R st (snd (handle_events evs st)).
Proof using All.
  induction evs as [|ev evs IH]; intros st.
  - apply R_refl.
  - destruct ev as [f data mask w|]; cbn [handle_events].
    + apply lift_bind; [apply R_refl|].
      intros a st1. destruct (_shutdown_request a); [apply R_refl|].
      apply lift_bind; [|intros _; exact IH].
      destruct f; [apply R_socket | apply R_serial].
    + apply lift_bind; [apply R_stop | intros _; exact IH].
Qed.

Lemma lift_serve_loop (script : list (list item)) :
  forall st, R st (snd (serve_loop script st)).
Proof using All.
  induction script as [|its script IH]; intros st; cbn [serve_loop].
  - apply lift_bind; [apply R_refl|].
    intros a st1. destruct (_shutdown_request a); apply R_refl.
  - apply lift_bind; [apply R_refl|].
    intros a st1. destruct (_shutdown_request a); [apply R_refl|].
    apply lift_bind.
    + unfold the_sel, bind, get. destruct (sel st1); apply R_refl.
    + intros m st2. apply lift_bind; [apply lift_handle_events | intros _; exact IH].
Qed.

End Lift.

Module Handlers.
Import QueueFacts.

Lemma keeps_lifecycle_refl (st : Server) : keeps_lifecycle st st.
Proof. unfold keeps_lifecycle. repeat split; auto. Qed.

Lemma keeps_lifecycle_trans (a b c : Server) :
  keeps_lifecycle a b -> keeps_lifecycle b c -> keeps_lifecycle a c.
Proof.
  unfold keeps_lifecycle.
  intros (A1 & A2 & A3 & A4 & A5 & A6 & A7 & A8 & A9 & A10)
         (B1 & B2 & B3 & B4 & B5 & B6 & B7 & B8 & B9 & B10).
  repeat split; try congruence. auto.
Qed.

Ltac lifecycle_leaf := unfold keeps_lifecycle; mred; repeat split; auto.

Lemma process_socket_keeps (s : nat) (data : keydata) (mask : N) (w : io) (st : Server) :
  keeps_lifecycle st (snd (process_socket s data mask w st)).
Proof.
  unfold process_socket. destruct st. mrun.
  repeat (mred; rewrite ?for_each_enqueue; split_match).
  all: mred; rewrite ?for_each_enqueue; mred.
  all: lifecycle_leaf.
Qed.

Lemma process_serial_keeps (data : keydata) (mask : N) (w : io) (st : Server) :
  keeps_lifecycle st (snd (process_serial data mask w st)).
Proof.
  unfold process_serial. destruct st. mrun.
  repeat (mred; try run_write_all; split_match).
  all: mred.
  all: lifecycle_leaf.
Qed.

Lemma stop_keeps (st : Server) : keeps_lifecycle st (snd (stop st)).
Proof. unfold stop. destruct st. mrun. mred. destruct _serving0; mred; lifecycle_leaf. Qed.

(** The event handlers, and the whole loop built on them, never touch the
    lifecycle or the configuration of the server: whatever events, signals
    and failures come, the Open and Serving flags, the device handle, the
    listening socket, the markers and the timeouts stay as they are, and a
    shutdown request is never taken back. *)
Theorem loop_keeps_lifecycle (script : list (list item)) (st : Server)
    (s : nat) (data : keydata) (mask : N) (w : io) :
  keeps_lifecycle st (snd (process_socket s data mask w st)) /\
  keeps_lifecycle st (snd (process_serial data mask w st)) /\
  keeps_lifecycle st (snd (serve_loop script st)).
Proof.
  split; [apply process_socket_keeps|]. split; [apply process_serial_keeps|].
  apply (lift_serve_loop keeps_lifecycle keeps_lifecycle_refl keeps_lifecycle_trans
           process_socket_keeps process_serial_keeps stop_keeps).
Qed.

End Handlers.

(** ** Leaving [serve_forever] *)

Module Leaving.

Lemma serve_loop_when_requested (script : list (list item)) (st : Server) :
  _shutdown_request st = true -> serve_loop script st = (Ok tt, st).
Proof.
  intros H. destruct script; cbn [serve_loop]; unfold bind, get; rewrite H; reflexivity.
Qed.

(** The loop returns only with the shutdown request set. *)
Lemma serve_loop_ok (script : list (list item)) :
  forall st st', serve_loop script st = (Ok tt, st') -> _shutdown_request st' = true.
Proof.
  induction script as [|its script IH]; intros st st'; cbn [serve_loop];
    unfold bind at 1; cbn [get]; destruct (_shutdown_request st) eqn:Hreq.
  - intros [= <-]. exact Hreq.
  - discriminate.
  - intros [= <-]. exact Hreq.
  - unfold bind at 1. destruct (the_sel st) as [[m|e|] st0]; try discriminate.
    unfold bind at 1. destruct (handle_events (select m its) st0) as [[u|e|] st2]; try discriminate.
    apply IH.
Qed.

(** The loop of the [finally] block changes nothing but the trace. *)
Lemma cleanup_loop_run (fault : action -> option exn) (l : list nat) :
  forall st,
    exists r t,
      for_each l (shutdown_and_close fault) st = (r, set_trace (trace st ++ t) st) /\
      (r = Ok tt \/ exists e a, r = Raise e /\ fault a = Some e).
Proof.
  induction l as [|c l IH]; intros st.
  - exists (Ok tt), []. rewrite set_trace_nil. split; [reflexivity | left; reflexivity].
  - cbn [for_each]. unfold shutdown_and_close at 1. unfold syscall at 1 2.
    destruct (fault (SockShutdown c)) as [e|] eqn:E1.
    { exists (Raise e), []. rewrite set_trace_nil. mrun.
      split; [reflexivity | right; exists e, (SockShutdown c); split; [reflexivity | exact E1]]. }
    destruct (fault (SockClose c)) as [e|] eqn:E2.
    { exists (Raise e), [SockShutdown c]. destruct st. mrun. mred.
      split; [reflexivity | right; exists e, (SockClose c); split; [reflexivity | exact E2]]. }
    destruct st. mrun. mred.
    match goal with |- context [for_each l _ ?s] =>
      destruct (IH s) as (r & t & Hrun & Hr)
    end.
    exists r, ([SockShutdown c; SockClose c] ++ t). rewrite Hrun. mred.
    rewrite <- !app_assoc. split; [reflexivity | exact Hr].
Qed.

(** The [finally] block either runs to its end, or stops at an exception
    that is not an [OSError], with nothing but the trace changed. *)
Lemma serve_cleanup_post (fault : action -> option exn) (st : Server) :
  exists t,
    serve_cleanup fault st
    = (Ok tt, set_serving false (set_clients ∅ (set_trace (trace st ++ t) st))) \/
    exists e a, fault a = Some e /\ is_OSError e = false /\
                serve_cleanup fault st = (Raise e, set_trace (trace st ++ t) st).
Proof.
  unfold serve_cleanup, suppress_OSError. destruct st.
  cbv beta iota delta [bind get modify ret]. mred.
  match goal with |- context [for_each ?l _ ?s] =>
    destruct (cleanup_loop_run fault l s) as (r & t & Hrun & Hr)
  end.
  exists t. rewrite Hrun. mred.
  destruct Hr as [-> | (e & a & -> & Ha)].
  - left. reflexivity.
  - destruct (is_OSError e) eqn:He.
    + left. reflexivity.
    + right. exists e, a. repeat split; assumption.
Qed.

Lemma serving_exit (env : ServeEnv) (st : Server) (r : result unit) (st' : Server) :
  (modify (set_serving true) >>
   try_finally (serve_loop (sf_script env)) (serve_cleanup (sf_fault env))) st = (r, st') ->
  r <> Blocked ->
  exists r_loop st_b t,
    serve_loop (sf_script env) (set_serving true st) = (r_loop, st_b) /\
    ((r = r_loop /\
      st' = set_serving false (set_clients ∅ (set_trace (trace st_b ++ t) st_b))) \/
     (exists e a, sf_fault env a = Some e /\ is_OSError e = false /\ r = Raise e /\
                  st' = set_trace (trace st_b ++ t) st_b)).
Proof.
  unfold bind at 1. cbn [modify]. unfold try_finally.
  destruct (serve_loop (sf_script env) (set_serving true st)) as [r_loop st_b] eqn:Hloop.
  destruct (serve_cleanup_post (sf_fault env) st_b) as (t & [Hc | (e & a & Ha & He & Hc)]);
    rewrite Hc; intros Hrun Hnb; exists r_loop, st_b, t; (split; [reflexivity|]).
  - destruct r_loop as [[]|e|]; injection Hrun as <- <-; try congruence; left; split; reflexivity.
  - destruct r_loop as [[]|e0|]; injection Hrun as <- <-; try congruence;
      right; exists e, a; repeat split; assumption.
Qed.

(** How [serve_forever] ends on an open server, when [shutdown] and [close]
    raise nothing but [OSError].  Whether the loop returned or raised, the
    [finally] block has emptied the client set and cleared the Serving flag,
    the server is still open, and the outcome of the call is the outcome of
    the loop: an exception of a handler is passed on to the caller, and a
    normal return means that a shutdown was requested. *)
Theorem serve_forever_exit (env : ServeEnv) (st : Server) (r : result unit) (st' : Server) :
  _open st = true ->
  (forall a e, sf_fault env a = Some e -> is_OSError e = true) ->
  serve_forever env st = (r, st') ->
  r <> Blocked ->
  _serving st' = false /\ clients st' = ∅ /\ _open st' = true /\
  fst (serve_loop (sf_script env) (set_serving true st)) = r /\
  (r = Ok tt -> _shutdown_request st' = true).
Proof.
  intros Hopen Hos Hrun Hnb. unfold serve_forever in Hrun.
  unfold bind at 1 in Hrun. unfold bind at 1 in Hrun. cbn [get] in Hrun.
  rewrite Hopen in Hrun. cbn [negb when ret] in Hrun.
  destruct (serving_exit env st r st' Hrun Hnb)
    as (r_loop & st_b & t & Hloop & [[-> ->] | (e & a & Ha & He & _)]).
  2: { rewrite (Hos _ _ Ha) in He. discriminate. }
  pose proof (lift_serve_loop keeps_lifecycle Handlers.keeps_lifecycle_refl
                Handlers.keeps_lifecycle_trans Handlers.process_socket_keeps
                Handlers.process_serial_keeps Handlers.stop_keeps
                (sf_script env) (set_serving true st)) as Hkeep.
  rewrite Hloop in *. cbn [fst snd] in *.
  destruct Hkeep as (Ho & _).
  assert (Hreq : r_loop = Ok tt -> _shutdown_request st_b = true).
  { intros ->. exact (serve_loop_ok _ _ _ Hloop). }
  destruct st_b, st. mred. subst. repeat split; try reflexivity. exact Hreq.
Qed.

Lemma serve_forever_exit_witness :
  let r := Raise (OSError (Some ECONNRESET)) in
  let st' := snd (serve_forever reset_on_recv Sample.opened) in
  _open Sample.opened = true /\
  (forall a e, sf_fault reset_on_recv a = Some e -> is_OSError e = true) /\
  serve_forever reset_on_recv Sample.opened = (r, st') /\
  r <> Blocked /\
  _serving st' = false /\ clients st' = ∅ /\ _open st' = true /\
  fst (serve_loop (sf_script reset_on_recv) (set_serving true Sample.opened)) = r /\
  (r = Ok tt -> _shutdown_request st' = true).
Proof.
  cbv zeta.
  assert (Hos : forall a e, sf_fault reset_on_recv a = Some e -> is_OSError e = true)
    by (intros a e H; discriminate H).
  assert (Hrun : serve_forever reset_on_recv Sample.opened
                 = (Raise (OSError (Some ECONNRESET)),
                    snd (serve_forever reset_on_recv Sample.opened)))
    by (vm_compute; reflexivity).
  split; [reflexivity|]. split; [exact Hos|]. split; [exact Hrun|].
  split; [discriminate|].
  exact (serve_forever_exit reset_on_recv Sample.opened _ _ eq_refl Hos Hrun
           ltac:(discriminate)).
Defined.

(** After a call of [serve_forever] that returned the shutdown request is
    set, and a second call on the state the first one left handles no event
    at all: it returns at once and leaves the server as it was. *)
Lemma serve_forever_again (env env2 : ServeEnv) (st st1 : Server) :
  serve_forever env st = (Ok tt, st1) ->
  _shutdown_request st1 = true /\
  serve_forever env2 st1 = (Ok tt, st1).
Proof.
  intros Hrun. unfold serve_forever in Hrun.
  unfold bind at 1 in Hrun. unfold bind at 1 in Hrun. cbn [get] in Hrun.
  assert (Hfirst : exists st_a,
             _open st_a = true /\
             (modify (set_serving true) >>
              try_finally (serve_loop (sf_script env)) (serve_cleanup (sf_fault env))) st_a
             = (Ok tt, st1)).
  { destruct (_open st) eqn:Hopen; cbn [negb when ret] in Hrun.
    - exists st. split; assumption.
    - destruct (open (sf_open env) st) as [[[]|e|] st_a] eqn:Ho; try discriminate.
      exists st_a. split; [|exact Hrun].
      destruct (Opening.open_outcome _ _ _ _ Hopen Ho) as (_ & _ & _ & _ & _ & H & _).
      exact H. }
  clear Hrun. destruct Hfirst as (st_a & Hopen & Hrun).
  destruct (serving_exit env st_a (Ok tt) st1 Hrun ltac:(discriminate))
    as (r_loop & st_b & t & Hloop & [[<- ->] | (e & a & _ & _ & He & _)]);
    [|discriminate].
  pose proof (serve_loop_ok _ _ _ Hloop) as Hreq.
  pose proof (lift_serve_loop keeps_lifecycle Handlers.keeps_lifecycle_refl
                Handlers.keeps_lifecycle_trans Handlers.process_socket_keeps
                Handlers.process_serial_keeps Handlers.stop_keeps
                (sf_script env) (set_serving true st_a)) as Hkeep.
  rewrite Hloop in Hkeep. cbn [snd] in Hkeep. destruct Hkeep as (Ho & _).
  assert (Hopen_b : _open st_b = true) by (destruct st_a; mred; congruence).
  clear Hloop Ho Hopen.
  split; [destruct st_b; exact Hreq|].
  unfold serve_forever. destruct st_b. mred. subst.
  unfold bind at 1. unfold bind at 1. cbn [get]. mred. cbn [when ret].
  unfold bind at 1. cbn [modify]. mred. unfold try_finally.
  rewrite serve_loop_when_requested by reflexivity.
  unfold serve_cleanup, suppress_OSError.
  cbv beta iota delta [bind get modify ret]. mred.
  rewrite elements_empty. cbn [for_each ret]. mred.
  reflexivity.
Qed.

End Leaving.

(** ** Connections: accepting, losing, sending *)

Module Connections.

(** A new connection.  The accepted socket is a new object: it joins the
    client set and is registered for reading only, with new, empty buffers;
    no other registration and nothing of the queue changes. *)
Theorem accept_registers (st : Server) (s : nat) (mask : N) (w : io) (m : selector) :
  truthy (N.land mask EVENT_READ) = true ->
  io_accept w = None ->
  sel st = Some m ->
  m !! FSock (next_id st) = None ->
  exists st',
    process_socket s DNone mask w st = (Ok tt, st') /\
    clients st' = {[next_id st]} ∪ clients st /\
    objs st' !! next_id st = Some (mkClientBuffers (next_id st) [] []) /\
    interest st' (FSock (next_id st)) = Some (EVENT_READ, DClient (next_id st)) /\
    (forall f, f <> FSock (next_id st) -> interest st' f = interest st f) /\
    ser_queue st' = ser_queue st /\ trace st' = trace st.
Proof.
  intros Hmask Hacc Hsel Hfresh. unfold process_socket. rewrite Hmask, Hacc. cbn [when].
  destruct st. mred. subst. msimpl. rewrite Hfresh. mred.
  eexists. split; [reflexivity|]. unfold interest. mred.
  split; [reflexivity|]. split; [apply lookup_insert_eq|].
  split; [apply lookup_insert_eq|]. split; [|split; reflexivity].
  intros f Hf. apply lookup_insert_ne. congruence.
Qed.

Lemma accept_registers_witness :
  truthy (N.land EVENT_READ EVENT_READ) = true /\
  io_accept Sample.accepts = None /\
  sel Sample.opened = Some {[FSock 0 := (EVENT_READ, DNone)]} /\
  ({[FSock 0 := (EVENT_READ, DNone)]} : selector) !! FSock (next_id Sample.opened) = None /\
  exists st',
    process_socket 0 DNone EVENT_READ Sample.accepts Sample.opened = (Ok tt, st') /\
    clients st' = {[next_id Sample.opened]} ∪ clients Sample.opened /\
    objs st' !! next_id Sample.opened = Some (mkClientBuffers (next_id Sample.opened) [] []) /\
    interest st' (FSock (next_id Sample.opened))
      = Some (EVENT_READ, DClient (next_id Sample.opened)) /\
    (forall f, f <> FSock (next_id Sample.opened) -> interest st' f = interest Sample.opened f) /\
    ser_queue st' = ser_queue Sample.opened /\ trace st' = trace Sample.opened.
Proof.
  split; [reflexivity|]. split; [reflexivity|]. split; [vm_compute; reflexivity|].
  split; [vm_compute; reflexivity|].
  apply (accept_registers Sample.opened 0 EVENT_READ Sample.accepts
           {[FSock 0 := (EVENT_READ, DNone)]}).
  - reflexivity.
  - reflexivity.
  - vm_compute. reflexivity.
  - vm_compute. reflexivity.
Defined.

(** A lost connection.  When [recv] returns no bytes on a registered client
    socket, the socket is unregistered, removed from the client set, shut
    down and closed, in this order.  The commands of that client that are
    still queued stay queued, its buffers are left as they are, and no other
    registration changes. *)
Theorem disconnect (st : Server) (s : nat) (data : keydata) (mask : N) (w : io)
    (m : selector) (reg : N * keydata) :
  data <> DNone ->
  truthy (N.land mask EVENT_READ) = true ->
  io_recv w = inl [] ->
  sel st = Some m ->
  m !! FSock s = Some reg ->
  s ∈ clients st ->
  io_fault w (SockShutdown s) = None ->
  io_fault w (SockClose s) = None ->
  exists st',
    process_socket s data mask w st = (Ok tt, st') /\
    interest st' (FSock s) = None /\
    clients st' = clients st ∖ {[s]} /\
    trace st' = trace st ++ [SockShutdown s; SockClose s] /\
    ser_queue st' = ser_queue st /\ objs st' = objs st /\
    (forall f, f <> FSock s -> interest st' f = interest st f).
Proof.
  intros Hdata Hmask Hrecv Hsel Hreg Hin Hsh Hcl. unfold process_socket.
  rewrite Hmask, Hrecv. cbn [nonempty].
  destruct st. mred. subst.
  assert (Hbody :
    exists st',
      (sel_unregister (FSock s) >>
       (st <- get ;;
        if bool_decide (s ∈ clients st)
        then modify (set_clients (clients st ∖ {[s]}))
        else raise KeyError) >>
       syscall (io_fault w) (SockShutdown s) >>
       syscall (io_fault w) (SockClose s))
        (mkServer _open0 _serving0 _shutdown_request0 eol_sock0 eol_ser0 kw_timeout0
           kw_write_timeout0 _timeout0 serial0 sock0 (Some m) ser_queue0 clients0 objs0
           next_id0 clock0 trace0) = (Ok tt, st') /\
      interest st' (FSock s) = None /\
      clients st' = clients0 ∖ {[s]} /\
      trace st' = trace0 ++ [SockShutdown s; SockClose s] /\
      ser_queue st' = ser_queue0 /\ objs st' = objs0 /\
      (forall f, f <> FSock s -> interest st' f = m !! f)).
  { msimpl. rewrite Hreg. mred. rewrite (bool_decide_eq_true_2 _ Hin). mred.
    rewrite Hsh. mred. rewrite Hcl. mred.
    eexists. split; [reflexivity|]. unfold interest. mred. rewrite <- app_assoc.
    split; [apply lookup_delete_eq|]. repeat split; try reflexivity.
    intros f Hf. apply lookup_delete_ne. congruence. }
  destruct data; [congruence | exact Hbody | exact Hbody].
Qed.

Lemma disconnect_witness :
  DClient 1 <> DNone /\
  io_recv (Sample.recvs []) = inl [] /\
  (1 ∈ clients Sample.asked) /\
  exists st',
    process_socket 1 (DClient 1) EVENT_READ (Sample.recvs []) Sample.asked = (Ok tt, st') /\
    interest st' (FSock 1) = None /\
    clients st' = clients Sample.asked ∖ {[1]} /\
    trace st' = trace Sample.asked ++ [SockShutdown 1; SockClose 1] /\
    ser_queue st' = ser_queue Sample.asked /\ objs st' = objs Sample.asked /\
    (forall f, f <> FSock 1 -> interest st' f = interest Sample.asked f).
Proof.
  assert (Hin : 1 ∈ clients Sample.asked).
  { apply (bool_decide_eq_true_1 (1 ∈ clients Sample.asked)). vm_compute. reflexivity. }
  split; [discriminate|]. split; [reflexivity|]. split; [exact Hin|].
  apply (disconnect Sample.asked 1 (DClient 1) EVENT_READ (Sample.recvs [])
           (<[FSerial := (EVENT_WRITE, DQueue)]> Sample.connected_sel)
           (EVENT_READ, DClient 1)).
  - discriminate.
  - reflexivity.
  - reflexivity.
  - vm_compute. reflexivity.
  - vm_compute. reflexivity.
  - exact Hin.
  - reflexivity.
  - reflexivity.
Defined.

(** One write event on a client socket, in full. *)
Lemma process_socket_send_run (st : Server) (s b : nat) (mask : N) (w : io) (n : nat)
    (cb : ClientBuffers) (m : selector) (reg : N * keydata) :
  truthy (N.land mask EVENT_READ) = false ->
  truthy (N.land mask EVENT_WRITE) = true ->
  io_send w = inl n ->
  objs st !! b = Some cb ->
  sel st = Some m ->
  m !! FSock s = Some reg ->
  exists st',
    process_socket s (DClient b) mask w st = (Ok tt, st') /\
    trace st' = trace st ++ [SockSend s (take n (out_buf cb))] /\
    objs st' = <[b := mkClientBuffers (cb_sock cb) (in_buf cb) (drop n (out_buf cb))]> (objs st) /\
    sel st' = Some (if nonempty (drop n (out_buf cb)) then m
                    else <[FSock s := (EVENT_READ, DClient b)]> m) /\
    ser_queue st' = ser_queue st /\ clients st' = clients st.
Proof.
  intros Hr Hw Hsend Hobj Hsel Hreg. unfold process_socket. rewrite Hr, Hw, Hsend.
  destruct st. mred. subst. msimpl. rewrite Hobj. mred. rewrite Hobj. mred.
  destruct (drop n (out_buf cb)) as [|x rest] eqn:Hdrop; mred.
  - rewrite Hreg. mred. eexists. split; [reflexivity|]. mred. repeat split; reflexivity.
  - eexists. split; [reflexivity|]. mred. repeat split; reflexivity.
Qed.

Lemma take_plus {A} (n k : nat) (l : list A) :
  take (n + k) l = take n l ++ take k (drop n l).
Proof.
  revert l. induction n as [|n IH]; intros l; [reflexivity|].
  destruct l as [|x l]; cbn [Nat.add take drop app].
  - destruct k; reflexivity.
  - rewrite IH. reflexivity.
Qed.

Lemma sent_to_one (s : nat) (bs : bytes) : sent_to s [SockSend s bs] = bs.
Proof. cbn [sent_to]. rewrite Nat.eqb_refl. apply app_nil_r. Qed.

(** A run of write events on one client socket, the transport accepting
    [ns] bytes at each. *)
Lemma drain_run (s b : nat) (mask : N) (ws : list io) (ns : list nat) :
  truthy (N.land mask EVENT_READ) = false ->
  truthy (N.land mask EVENT_WRITE) = true ->
  Forall2 (fun w n => io_send w = inl n) ws ns ->
  forall (st : Server) (cb : ClientBuffers) (m : selector) (reg : N * keydata),
    objs st !! b = Some cb ->
    sel st = Some m ->
    m !! FSock s = Some reg ->
    exists st',
      for_each ws (fun w => process_socket s (DClient b) mask w) st = (Ok tt, st') /\
      sent_to s (trace st') = sent_to s (trace st) ++ take (list_sum ns) (out_buf cb) /\
      objs st' !! b = Some (mkClientBuffers (cb_sock cb) (in_buf cb)
                              (drop (list_sum ns) (out_buf cb))) /\
      interest st' (FSock s)
      = (if bool_decide (ns <> [] /\ length (out_buf cb) <= list_sum ns)
         then Some (EVENT_READ, DClient b) else Some reg).
Proof.
  intros Hr Hw Hall. induction Hall as [|w n ws ns Hsend Hall IH];
    intros st cb m reg Hobj Hsel Hreg.
  - exists st. cbn [for_each]. change (list_sum []) with 0. split; [reflexivity|].
    rewrite take_0, app_nil_r, drop_0. split; [reflexivity|].
    split; [destruct cb; exact Hobj|].
    unfold interest. rewrite Hsel, Hreg.
    rewrite bool_decide_eq_false_2; [reflexivity | intros [H _]; congruence].
  - cbn [for_each]. change (list_sum (n :: ns)) with (n + list_sum ns).
    destruct (process_socket_send_run st s b mask w n cb m reg Hr Hw Hsend Hobj Hsel Hreg)
      as (st1 & Hrun & Htr & Hobjs & Hsel1 & _).
    unfold bind. rewrite Hrun.
    set (cb1 := mkClientBuffers (cb_sock cb) (in_buf cb) (drop n (out_buf cb))) in *.
    set (m1 := if nonempty (drop n (out_buf cb)) then m
               else <[FSock s := (EVENT_READ, DClient b)]> m) in *.
    set (reg1 := if nonempty (drop n (out_buf cb)) then reg else (EVENT_READ, DClient b)).
    assert (Hreg1 : m1 !! FSock s = Some reg1).
    { subst m1 reg1. destruct (nonempty (drop n (out_buf cb)));
        [exact Hreg | apply lookup_insert_eq]. }
    destruct (IH st1 cb1 m1 reg1) as (st' & Hrun' & Hsent & Hobj' & Hint).
    { rewrite Hobjs. apply lookup_insert_eq. }
    { exact Hsel1. }
    { exact Hreg1. }
    exists st'. split; [exact Hrun'|]. subst cb1. cbn [out_buf cb_sock in_buf] in *.
    split; [|split].
    + rewrite Hsent, Htr, sent_to_app, sent_to_one, take_plus, app_assoc. reflexivity.
    + rewrite Hobj', drop_drop. reflexivity.
    + rewrite Hint. subst reg1.
      assert (Hlen : length (drop n (out_buf cb)) = length (out_buf cb) - n)
        by apply length_drop.
      destruct (drop n (out_buf cb)) as [|x rest] eqn:Hdrop; cbn [nonempty length] in *.
      * rewrite (bool_decide_eq_true_2 (n :: ns <> [] /\ _)); [|split; [discriminate | lia]].
        destruct (bool_decide (ns <> [] /\ 0 <= list_sum ns)); reflexivity.
      * destruct (decide (ns <> [] /\ S (length rest) <= list_sum ns)) as [[H1 H2]|Hno].
        -- rewrite (bool_decide_eq_true_2 _ (conj H1 H2)).
           rewrite bool_decide_eq_true_2; [reflexivity | split; [discriminate | lia]].
        -- rewrite (bool_decide_eq_false_2 _ Hno).
           rewrite bool_decide_eq_false_2; [reflexivity|].
           intros [_ H2]. apply Hno. split; [|lia].
           intros ->. change (list_sum []) with 0 in H2. lia.
Qed.

(** Partial writes.  Over any run of write events on one client socket,
    however many bytes the transport accepts each time, the bytes sent
    followed by the bytes still buffered are the bytes that were buffered:
    nothing is lost, repeated or reordered.  While bytes remain, the
    registration of the socket is untouched; once the buffer is empty the
    socket is registered for reading only. *)
Theorem partial_write_drain (st : Server) (s b : nat) (mask : N) (ws : list io) (ns : list nat)
    (cb : ClientBuffers) (m : selector) (reg : N * keydata) :
  truthy (N.land mask EVENT_READ) = false ->
  truthy (N.land mask EVENT_WRITE) = true ->
  Forall2 (fun w n => io_send w = inl n) ws ns ->
  objs st !! b = Some cb ->
  sel st = Some m ->
  m !! FSock s = Some reg ->
  exists st' sent rest,
    for_each ws (fun w => process_socket s (DClient b) mask w) st = (Ok tt, st') /\
    sent_to s (trace st') = sent_to s (trace st) ++ sent /\
    out_buf <$> objs st' !! b = Some rest /\
    sent ++ rest = out_buf cb /\
    (rest <> [] -> interest st' (FSock s) = interest st (FSock s)) /\
    (rest = [] -> ns <> [] -> interest st' (FSock s) = Some (EVENT_READ, DClient b)).
Proof.
  intros Hr Hw Hall Hobj Hsel Hreg.
  destruct (drain_run s b mask ws ns Hr Hw Hall st cb m reg Hobj Hsel Hreg)
    as (st' & Hrun & Hsent & Hobj' & Hint).
  exists st', (take (list_sum ns) (out_buf cb)), (drop (list_sum ns) (out_buf cb)).
  split; [exact Hrun|]. split; [exact Hsent|].
  split; [rewrite Hobj'; reflexivity|]. split; [apply take_drop|].
  split.
  - intros Hrest. rewrite Hint. unfold interest. rewrite Hsel, Hreg.
    rewrite bool_decide_eq_false_2; [reflexivity|].
    intros [_ Hle]. apply Hrest. apply drop_ge. exact Hle.
  - intros Hrest Hns. rewrite Hint.
    rewrite bool_decide_eq_true_2; [reflexivity|]. split; [exact Hns|].
    apply (f_equal length) in Hrest. rewrite length_drop in Hrest. cbn in Hrest. lia.
Qed.

Lemma partial_write_drain_witness :
  let ws := [Sample.sends 2; Sample.sends 3] in
  let reg := (N.lor EVENT_READ EVENT_WRITE, DClient 1) in
  objs replied !! 1 = Some (mkClientBuffers 1 [] (of_string "PONG" ++ [LF])) /\
  sel replied = Some (<[FSock 1 := reg]> Sample.connected_sel) /\
  (<[FSock 1 := reg]> Sample.connected_sel) !! FSock 1 = Some reg /\
  exists st' sent rest,
    for_each ws (fun w => process_socket 1 (DClient 1) EVENT_WRITE w) replied = (Ok tt, st') /\
    sent_to 1 (trace st') = sent_to 1 (trace replied) ++ sent /\
    out_buf <$> objs st' !! 1 = Some rest /\
    sent ++ rest = of_string "PONG" ++ [LF] /\
    (rest <> [] -> interest st' (FSock 1) = interest replied (FSock 1)) /\
    (rest = [] -> [2; 3] <> [] -> interest st' (FSock 1) = Some (EVENT_READ, DClient 1)).
Proof.
  cbv zeta.
  split; [vm_compute; reflexivity|]. split; [vm_compute; reflexivity|].
  split; [vm_compute; reflexivity|].
  apply (partial_write_drain replied 1 1 EVENT_WRITE [Sample.sends 2; Sample.sends 3] [2; 3]
           (mkClientBuffers 1 [] (of_string "PONG" ++ [LF]))
           (<[FSock 1 := (N.lor EVENT_READ EVENT_WRITE, DClient 1)]> Sample.connected_sel)
           (N.lor EVENT_READ EVENT_WRITE, DClient 1)).
  - reflexivity.
  - reflexivity.
  - repeat constructor.
  - vm_compute. reflexivity.
  - vm_compute. reflexivity.
  - vm_compute. reflexivity.
Defined.

End Connections.

(** ** Device faults and read priority *)

Module Faults.
Import QueueFacts.

Lemma write_all_outcome (ws : list wres) :
  forall (query : bytes) (st : Server),
    write_all ws query st
    = (write_outcome ws (length query), set_trace (trace st ++ write_log ws query) st).
Proof.
  induction ws as [|w ws IH]; intros query st.
  - destruct query; cbn [write_all write_log write_outcome length];
      rewrite set_trace_nil; reflexivity.
  - destruct query as [|b query]; cbn [write_all write_log write_outcome length].
    + rewrite set_trace_nil. reflexivity.
    + destruct w as [n|e].
      * destruct st. mrun. mred. rewrite IH. mred.
        rewrite length_drop, <- app_assoc. reflexivity.
      * mrun. rewrite set_trace_nil. reflexivity.
Qed.

(** A device fault.  If [ser.write] raises while the query is being
    written, [process_serial] raises that exception.  By then the command
    has been taken from the queue, and it is not put back: it is lost.  The
    trace ends with the bytes the device accepted before the fault: the
    device is neither flushed nor read, no reply reaches any buffer, and
    nothing is sent or changed for any socket. *)
Theorem device_write_fault (st : Server) (mask : N) (w : io)
    (cmd : bytes) (b : nat) (rest : list (bytes * nat)) (e : exn) :
  truthy (N.land mask EVENT_WRITE) = true ->
  ser_queue st = (cmd, b) :: rest ->
  is_Some (interest st FSerial) ->
  write_outcome (io_writes w) (length (cmd ++ eol_ser st)) = Raise e ->
  exists st',
    process_serial DQueue mask w st = (Raise e, st') /\
    ser_queue st' = rest /\
    objs st' = objs st /\ clients st' = clients st /\
    (forall s, interest st' (FSock s) = interest st (FSock s)) /\
    (forall s, sent_to s (trace st') = sent_to s (trace st)) /\
    trace st' = trace st ++ Transact cmd b :: write_log (io_writes w) (cmd ++ eol_ser st).
Proof.
  intros Hmask Hq Hreg Hout. unfold interest in Hreg.
  destruct (sel st) as [m|] eqn:Hsel; [|destruct Hreg; discriminate].
  destruct Hreg as [reg Hreg].
  unfold process_serial. rewrite Hmask. cbn [when].
  destruct st. mred. subst. msimpl.
  destruct rest as [|x rest]; mred.
  - rewrite Hreg. mred. rewrite write_all_outcome, Hout. mred.
    eexists. split; [reflexivity|]. unfold interest. mred.
    repeat split; try reflexivity.
    + intros s. apply lookup_delete_ne. discriminate.
    + intros s. rewrite !sent_to_app, write_log_no_send. cbn [sent_to]. rewrite !app_nil_r.
      reflexivity.
    + rewrite <- app_assoc. reflexivity.
  - rewrite write_all_outcome, Hout. mred.
    eexists. split; [reflexivity|]. unfold interest. mred.
    repeat split; try reflexivity.
    + intros s. rewrite !sent_to_app, write_log_no_send. cbn [sent_to]. rewrite !app_nil_r.
      reflexivity.
    + rewrite <- app_assoc. reflexivity.
Qed.

Lemma device_write_fault_witness :
  let w := Sample.device [Wrote 2; WriteRaises (OSError None)] [] in
  ser_queue Sample.asked = [(of_string "PING", 1)] /\
  is_Some (interest Sample.asked FSerial) /\
  write_outcome (io_writes w) (length (of_string "PING" ++ eol_ser Sample.asked))
    = Raise (OSError None) /\
  exists st',
    process_serial DQueue EVENT_WRITE w Sample.asked = (Raise (OSError None), st') /\
    ser_queue st' = [] /\
    objs st' = objs Sample.asked /\ clients st' = clients Sample.asked /\
    (forall s, interest st' (FSock s) = interest Sample.asked (FSock s)) /\
    (forall s, sent_to s (trace st') = sent_to s (trace Sample.asked)) /\
    trace st' = trace Sample.asked ++
                Transact (of_string "PING") 1
                  :: write_log (io_writes w) (of_string "PING" ++ eol_ser Sample.asked).
Proof.
  cbv zeta.
  split; [vm_compute; reflexivity|]. split; [vm_compute; eexists; reflexivity|].
  split; [vm_compute; reflexivity|].
  apply (device_write_fault Sample.asked EVENT_WRITE
           (Sample.device [Wrote 2; WriteRaises (OSError None)] [])
           (of_string "PING") 1 [] (OSError None)).
  - reflexivity.
  - vm_compute. reflexivity.
  - vm_compute. eexists. reflexivity.
  - vm_compute. reflexivity.
Defined.

Lemma sent_to_enqueues (s b : nat) (cmds : list bytes) :
  sent_to s (map (fun cmd => Enqueue cmd b) cmds) = [].
Proof. induction cmds; [reflexivity | exact IHcmds]. Qed.

(** Reading comes first.  An event that reports a client socket readable is
    handled as a read, whether or not it also reports the socket writable:
    nothing is sent on any socket while handling it, so a pending reply
    waits for an event without read-readiness. *)
Theorem readable_is_not_written (st : Server) (s : nat) (data : keydata) (mask : N) (w : io) :
  truthy (N.land mask EVENT_READ) = true ->
  forall s', sent_to s' (trace (snd (process_socket s data mask w st))) = sent_to s' (trace st).
Proof.
  intros Hmask s'. unfold process_socket. rewrite Hmask. destruct st. mrun.
  repeat (mred; rewrite ?for_each_enqueue; split_match).
  all: mred; rewrite ?for_each_enqueue; mred.
  all: rewrite ?sent_to_app, ?sent_to_enqueues; cbn [sent_to]; rewrite ?app_nil_r; reflexivity.
Qed.

Lemma readable_is_not_written_witness :
  let mask := N.lor EVENT_READ EVENT_WRITE in
  let w := mkIo None (inl (of_string "X")) (inl 5) [] [] no_fault in
  truthy (N.land mask EVENT_READ) = true /\
  out_buf <$> objs replied !! 1 = Some (of_string "PONG" ++ [LF]) /\
  forall s', sent_to s' (trace (snd (process_socket 1 (DClient 1) mask w replied)))
             = sent_to s' (trace replied).
Proof.
  cbv zeta. split; [reflexivity|]. split; [vm_compute; reflexivity|].
  apply (readable_is_not_written replied 1 (DClient 1) (N.lor EVENT_READ EVENT_WRITE)
           (mkIo None (inl (of_string "X")) (inl 5) [] [] no_fault)).
  reflexivity.
Defined.

End Faults.

(** ** Line reassembly does not depend on the segmentation *)

Module Segmentation.

Section Split.

Variable sep : bytes.
Hypothesis sep_nonempty : sep <> [].

Lemma split_go_cur (s : bytes) :
  forall cur, split_go sep 0 cur s = prepend (rev cur) (split_go sep 0 [] s).
Proof using sep_nonempty.
  induction s as [|b t IH]; intros cur.
  - cbn [split_go prepend rev]. rewrite app_nil_r. reflexivity.
  - destruct (starts_with sep (b :: t)) eqn:Hst.
    + destruct (starts_with_inv _ _ Hst) as [r ->].
      rewrite !split_go_match by exact sep_nonempty.
      cbn [prepend rev]. rewrite app_nil_r. reflexivity.
    + rewrite !split_go_other by exact Hst.
      rewrite (IH (b :: cur)), (IH [b]).
      destruct (split_go sep 0 [] t) as [|c cs]; [reflexivity|].
      cbn [prepend rev app]. rewrite <- app_assoc. reflexivity.
Qed.

Lemma starts_with_length (p s : bytes) : starts_with p s = true -> length p <= length s.
Proof.
  revert s. induction p as [|a p IH]; intros s H; cbn [length]; [lia|].
  destruct s as [|b s]; [discriminate|]. cbn [starts_with length] in *.
  apply andb_true_iff in H as [_ H]. apply IH in H. lia.
Qed.

Lemma starts_with_straddle (p s s2 : bytes) :
  starts_with p (s ++ s2) = true -> starts_with p s = false -> length s < length p.
Proof.
  revert s. induction p as [|a p IH]; intros s H1 H2; [discriminate|].
  destruct s as [|b s]; cbn [length]; [lia|].
  cbn [app starts_with] in *. apply andb_true_iff in H1 as [Hab H1].
  rewrite Hab in H2. cbn [andb] in H2. specialize (IH s H1 H2). lia.
Qed.

Lemma split_short (s : bytes) :
  length s < length sep -> split_go sep 0 [] s = [s].
Proof using sep_nonempty.
  induction s as [|b t IH]; intros Hlen; [reflexivity|].
  assert (Hst : starts_with sep (b :: t) = false).
  { destruct (starts_with sep (b :: t)) eqn:E; [|reflexivity].
    apply starts_with_length in E. lia. }
  rewrite split_go_other by exact Hst. rewrite (split_go_cur t [b]).
  rewrite IH by (cbn [length] in Hlen; lia). reflexivity.
Qed.

(** Splitting a buffer that has grown: the complete segments found before
    stay, and the remainder is split again together with the new bytes. *)
Lemma split_app (n : nat) :
  forall s1 s2,
    length s1 <= n ->
    split_go sep 0 [] (s1 ++ s2)
    = removelast (split_go sep 0 [] s1)
        ++ split_go sep 0 [] (List.last (split_go sep 0 [] s1) [] ++ s2).
Proof using sep_nonempty.
  induction n as [|n IH]; intros s1 s2 Hlen.
  - destruct s1; [reflexivity | cbn [length] in Hlen; lia].
  - destruct s1 as [|b t]; [reflexivity|].
    destruct (starts_with sep (b :: t)) eqn:Hst.
    + destruct (starts_with_inv _ _ Hst) as [r Hr]. rewrite Hr.
      rewrite <- app_assoc. rewrite !split_go_match by exact sep_nonempty.
      cbn [rev].
      assert (Hne : split_go sep 0 [] r <> []) by apply split_go_nonempty.
      assert (Hr_len : length r <= n).
      { apply (f_equal length) in Hr. rewrite length_app in Hr. cbn [length] in *.
        destruct sep; [congruence|]. cbn [length] in Hr. lia. }
      rewrite (IH r s2 Hr_len).
      destruct (split_go sep 0 [] r) as [|c cs]; [congruence|]. reflexivity.
    + destruct (starts_with sep ((b :: t) ++ s2)) eqn:Hst2.
      * pose proof (starts_with_straddle _ _ _ Hst2 Hst) as Hshort.
        rewrite (split_short (b :: t) Hshort). reflexivity.
      * cbn [app] in *. rewrite (split_go_other sep (t ++ s2) [] b Hst2).
        rewrite (split_go_other sep t [] b Hst).
        rewrite (split_go_cur (t ++ s2) [b]), (split_go_cur t [b]). cbn [rev app].
        pose proof (join_split_go sep sep_nonempty (length t) t [] ltac:(lia)) as Hjoin.
        cbn [rev app] in Hjoin.
        destruct (split_go sep 0 [] t) as [|c [|c2 cs]] eqn:Ht.
        -- exfalso. exact (split_go_nonempty sep t [] 0 Ht).
        -- cbn [join] in Hjoin. subst c. cbn [prepend removelast List.last app].
           rewrite (split_go_other sep (t ++ s2) [] b Hst2).
           rewrite (split_go_cur (t ++ s2) [b]). reflexivity.
        -- rewrite (IH t s2 ltac:(cbn [length] in Hlen; lia)). rewrite Ht.
           reflexivity.
Qed.

End Split.

Lemma last_app_nonempty {A} (l1 l2 : list A) (d : A) :
  l2 <> [] -> List.last (l1 ++ l2) d = List.last l2 d.
Proof.
  intros Hne. induction l1 as [|a l1 IH]; [reflexivity|].
  cbn [app]. destruct (l1 ++ l2) as [|y l] eqn:E.
  - apply app_eq_nil in E as [_ E]. congruence.
  - exact IH.
Qed.

(** The commands a connection gives rise to do not depend on how the
    transport cuts the byte stream: two reads that return [r1] and then
    [r2] leave the queue, the buffers, the registrations and the trace
    exactly as one read that returns [r1 ++ r2]. *)
Theorem reassembly_ignores_segmentation (st : Server) (s b : nat) (mask : N)
    (w1 w2 w12 : io) (r1 r2 : bytes) (cb : ClientBuffers) (m : selector) :
  truthy (N.land mask EVENT_READ) = true ->
  io_recv w1 = inl r1 -> io_recv w2 = inl r2 -> io_recv w12 = inl (r1 ++ r2) ->
  r1 <> [] -> r2 <> [] ->
  objs st !! b = Some cb ->
  eol_sock st <> [] ->
  sel st = Some m ->
  is_Some (serial st) ->
  (ser_queue st = [] -> m !! FSerial = None) ->
  let first := process_socket s (DClient b) mask w1 st in
  let two := process_socket s (DClient b) mask w2 (snd first) in
  let one := process_socket s (DClient b) mask w12 st in
  fst first = Ok tt /\ fst two = Ok tt /\ fst one = Ok tt /\
  ser_queue (snd two) = ser_queue (snd one) /\
  objs (snd two) = objs (snd one) /\
  sel (snd two) = sel (snd one) /\
  trace (snd two) = trace (snd one).
Proof.
  intros Hmask Hw1 Hw2 Hw12 Hr1 Hr2 Hobj Heol Hsel Hser Hfree. cbv zeta.
  destruct (process_socket_recv_run st s b mask w1 r1 cb m
              Hmask Hw1 Hr1 Hobj Heol Hsel Hser Hfree)
    as (ch1 & st1 & Hsp1 & Hrun1 & Hobjs1 & Hq1 & Htr1 & Hsel1 & _ & _ & Heol1 & Hser1 & _).
  assert (Hr12 : r1 ++ r2 <> []) by (destruct r1; [congruence | discriminate]).
  destruct (process_socket_recv_run st s b mask w12 (r1 ++ r2) cb m
              Hmask Hw12 Hr12 Hobj Heol Hsel Hser Hfree)
    as (ch12 & st12 & Hsp12 & Hrun12 & Hobjs12 & Hq12 & Htr12 & Hsel12 & _).
  set (m1 := if nonempty (removelast ch1) && negb (nonempty (ser_queue st))
             then <[FSerial := (EVENT_WRITE, DQueue)]> m else m) in *.
  destruct (process_socket_recv_run st1 s b mask w2 r2
              (mkClientBuffers (cb_sock cb) (List.last ch1 []) (out_buf cb)) m1)
    as (ch2 & st2 & Hsp2 & Hrun2 & Hobjs2 & Hq2 & Htr2 & Hsel2 & _).
  { exact Hmask. }
  { exact Hw2. }
  { exact Hr2. }
  { rewrite Hobjs1. apply lookup_insert_eq. }
  { rewrite Heol1. exact Heol. }
  { exact Hsel1. }
  { rewrite Hser1. exact Hser. }
  { rewrite Hq1. intros Hnil. apply app_eq_nil in Hnil as [Hq0 Hc0].
    apply map_eq_nil in Hc0. subst m1. rewrite Hc0. cbn [nonempty andb].
    exact (Hfree Hq0). }
  rewrite Hrun1, Hrun12. cbn [fst snd]. rewrite Hrun2. cbn [fst snd].
  (* the segments of the two runs against those of the single run *)
  rewrite Heol1 in Hsp2. cbn [in_buf] in Hsp2.
  unfold split in Hsp1, Hsp2, Hsp12.
  destruct (eol_sock st) as [|x sep'] eqn:Esep; [congruence|].
  injection Hsp1 as Hch1. injection Hsp2 as Hch2. injection Hsp12 as Hch12.
  rewrite app_assoc in Hch12.
  rewrite (split_app (x :: sep') ltac:(discriminate) (length (in_buf cb ++ r1))
             (in_buf cb ++ r1) r2 ltac:(lia)) in Hch12.
  rewrite Hch1, Hch2 in Hch12.
  assert (Hne2 : ch2 <> []) by (rewrite <- Hch2; apply split_go_nonempty).
  assert (Hcmds : removelast ch12 = removelast ch1 ++ removelast ch2).
  { rewrite <- Hch12. apply removelast_app. exact Hne2. }
  assert (Hlast : List.last ch12 [] = List.last ch2 []).
  { rewrite <- Hch12. apply last_app_nonempty. exact Hne2. }
  split; [reflexivity|]. split; [reflexivity|]. split; [reflexivity|].
  split; [|split; [|split]].
  - rewrite Hq2, Hq1, Hq12, Hcmds, map_app, app_assoc. reflexivity.
  - rewrite Hobjs2, Hobjs1, Hobjs12, Hlast. cbn [cb_sock out_buf].
    apply insert_insert_eq.
  - rewrite Hsel2, Hsel12, Hq1, Hcmds. subst m1.
    destruct (removelast ch1) as [|c1 cs1], (removelast ch2) as [|c2 cs2],
             (ser_queue st) as [|q0 qs]; cbn [app map nonempty negb andb]; reflexivity.
  - rewrite Htr2, Htr1, Htr12, Hcmds, map_app, app_assoc. reflexivity.
Qed.

Lemma reassembly_ignores_segmentation_witness :
  let r1 := of_string "PI" in
  let r2 := of_string "NG" ++ [LF] ++ of_string "ST" in
  let st := Sample.connected in
  let first := process_socket 1 (DClient 1) EVENT_READ (Sample.recvs r1) st in
  let two := process_socket 1 (DClient 1) EVENT_READ (Sample.recvs r2) (snd first) in
  let one := process_socket 1 (DClient 1) EVENT_READ (Sample.recvs (r1 ++ r2)) st in
  r1 <> [] /\ r2 <> [] /\
  objs st !! 1 = Some (mkClientBuffers 1 [] []) /\
  eol_sock st <> [] /\ sel st = Some Sample.connected_sel /\ is_Some (serial st) /\
  fst first = Ok tt /\ fst two = Ok tt /\ fst one = Ok tt /\
  ser_queue (snd two) = ser_queue (snd one) /\
  objs (snd two) = objs (snd one) /\
  sel (snd two) = sel (snd one) /\
  trace (snd two) = trace (snd one).
Proof.
  cbv zeta.
  split; [discriminate|]. split; [discriminate|]. split; [vm_compute; reflexivity|].
  split; [discriminate|]. split; [vm_compute; reflexivity|].
  split; [vm_compute; eexists; reflexivity|].
  apply (reassembly_ignores_segmentation Sample.connected 1 1 EVENT_READ
           (Sample.recvs (of_string "PI"))
           (Sample.recvs (of_string "NG" ++ [LF] ++ of_string "ST"))
           (Sample.recvs (of_string "PI" ++ of_string "NG" ++ [LF] ++ of_string "ST"))
           (of_string "PI") (of_string "NG" ++ [LF] ++ of_string "ST")
           (mkClientBuffers 1 [] []) Sample.connected_sel).
  - reflexivity.
  - reflexivity.
  - reflexivity.
  - reflexivity.
  - discriminate.
  - discriminate.
  - vm_compute. reflexivity.
  - discriminate.
  - vm_compute. reflexivity.
  - vm_compute. eexists. reflexivity.
  - intros _. vm_compute. reflexivity.
Defined.

End Segmentation.

Module Again.

Lemma keeps_request_refl (st : Server) : keeps_request st st.
Proof. intros H. exact H. Qed.

Lemma keeps_request_trans (a b c : Server) :
  keeps_request a b -> keeps_request b c -> keeps_request a c.
Proof. unfold keeps_request. auto. Qed.

Lemma request_bind {A B} (c : M A) (k : A -> M B) (st : Server) :
  keeps_request st (snd (c st)) ->
  (forall a st1, keeps_request st1 (snd (k a st1))) ->
  keeps_request st (snd (bind c k st)).
Proof. apply (lift_bind keeps_request keeps_request_trans). Qed.

Lemma request_modify (f : Server -> Server) (st : Server) :
  _shutdown_request (f st) = _shutdown_request st ->
  keeps_request st (snd (modify f st)).
Proof. intros H. unfold keeps_request. cbn [modify snd]. rewrite H. auto. Qed.

Lemma request_syscall (fault : action -> option exn) (a : action) (st : Server) :
  keeps_request st (snd (syscall fault a st)).
Proof.
  unfold syscall. destruct (fault a); [apply keeps_request_refl|].
  destruct st. mrun. mred. intros H. exact H.
Qed.

Lemma request_for_each {A} (body : A -> M unit) (xs : list A) :
  (forall x st, keeps_request st (snd (body x st))) ->
  forall st, keeps_request st (snd (for_each xs body st)).
Proof.
  intros Hbody. induction xs as [|x xs IH]; intros st; cbn [for_each].
  - apply keeps_request_refl.
  - apply request_bind; [apply Hbody | intros _; exact IH].
Qed.

Lemma request_suppress (body : M unit) (st : Server) :
  keeps_request st (snd (body st)) -> keeps_request st (snd (suppress_OSError body st)).
Proof.
  unfold suppress_OSError. destruct (body st) as [[u|e|] st1]; cbn [snd]; auto.
  destruct (is_OSError e); auto.
Qed.

Lemma request_try_finally (body cleanup : M unit) (st : Server) :
  keeps_request st (snd (body st)) ->
  (forall st1, keeps_request st1 (snd (cleanup st1))) ->
  keeps_request st (snd (try_finally body cleanup st)).
Proof.
  intros Hb Hc. unfold try_finally.
  destruct (body st) as [[u|e|] st1]; cbn [snd] in *.
  - exact (keeps_request_trans _ _ _ Hb (Hc st1)).
  - specialize (Hc st1). destruct (cleanup st1) as [[u|e'|] st2]; cbn [snd] in *;
      exact (keeps_request_trans _ _ _ Hb Hc).
  - exact Hb.
Qed.

(** Steps through a method body: sequencing, the state-preserving
    operations, and the field updates that leave the request alone. *)
Ltac request_step :=
  lazymatch goal with
  | |- keeps_request _ (snd (bind _ _ _)) => apply request_bind; [|intros ? ?]
  | |- keeps_request _ (snd (modify _ _)) =>
      apply request_modify; cbv beta;
      match goal with |- _ = _shutdown_request ?s => destruct s; reflexivity end
  | |- keeps_request _ (snd (syscall _ _ _)) => apply request_syscall
  | |- keeps_request _ (snd (suppress_OSError _ _)) => apply request_suppress
  | |- keeps_request _ (snd (for_each _ _ _)) => apply request_for_each; intros ? ?
  | |- keeps_request _ (snd (when ?b _ _)) => destruct b; cbn [when]
  | |- keeps_request _ (snd ((if ?b then _ else _) _)) => destruct b
  | |- keeps_request _ (snd ((match ?x with _ => _ end) _)) => destruct x
  | |- keeps_request _ (snd (get _)) => apply keeps_request_refl
  | |- keeps_request _ (snd (ret _ _)) => apply keeps_request_refl
  | |- keeps_request _ (snd (raise _ _)) => apply keeps_request_refl
  | |- keeps_request _ (snd (blocked _)) => apply keeps_request_refl
  end.

Lemma open_loop_keeps_request (d : Q) (ts : list tick) :
  forall (exc : exn) (st : Server), keeps_request st (snd (open_loop d exc ts st)).
Proof.
  induction ts as [|t ts IH]; intros exc st; cbn [open_loop].
  - apply keeps_request_refl.
  - unfold time, sleep_tenth, log. repeat request_step. apply IH.
Qed.

Lemma open_keeps_request (env : OpenEnv) (st : Server) :
  keeps_request st (snd (open env st)).
Proof.
  unfold open, fresh, sel_register, the_sel.
  repeat first [apply open_loop_keeps_request | request_step].
Qed.

Lemma close_keeps_request (fault : action -> option exn) (st : Server) :
  keeps_request st (snd (close fault st)).
Proof.
  unfold close, the_sel. repeat request_step.
Qed.

Lemma stop_keeps_request (st : Server) : keeps_request st (snd (stop st)).
Proof. exact (proj2 (proj2 (proj2 (proj2 (proj2 (proj2 (proj2 (proj2 (proj2
         (Handlers.stop_keeps st)))))))))). Qed.

Lemma socket_keeps_request (s : nat) (data : keydata) (mask : N) (w : io) (st : Server) :
  keeps_request st (snd (process_socket s data mask w st)).
Proof. exact (proj2 (proj2 (proj2 (proj2 (proj2 (proj2 (proj2 (proj2 (proj2
         (Handlers.process_socket_keeps s data mask w st)))))))))). Qed.

Lemma serial_keeps_request (data : keydata) (mask : N) (w : io) (st : Server) :
  keeps_request st (snd (process_serial data mask w st)).
Proof. exact (proj2 (proj2 (proj2 (proj2 (proj2 (proj2 (proj2 (proj2 (proj2
         (Handlers.process_serial_keeps data mask w st)))))))))). Qed.

Lemma timeout_keeps_request (val : Q) (st : Server) :
  keeps_request st (snd (timeout_set val st)).
Proof. unfold timeout_set. repeat request_step. Qed.

Lemma signal_keeps_request (signum : Z) (st : Server) :
  keeps_request st (snd (handle_signals signum st)).
Proof. unfold handle_signals. repeat first [apply stop_keeps_request | request_step]. Qed.

Lemma serve_forever_keeps_request (env : ServeEnv) (st : Server) :
  keeps_request st (snd (serve_forever env st)).
Proof.
  unfold serve_forever.
  apply request_bind; [repeat first [apply open_keeps_request | request_step]|].
  intros _ st1. apply request_bind; [request_step|].
  intros _ st2. apply request_try_finally.
  - apply (lift_serve_loop keeps_request keeps_request_refl keeps_request_trans
             socket_keeps_request serial_keeps_request stop_keeps_request).
  - intros st3. unfold serve_cleanup, shutdown_and_close. repeat request_step.
Qed.

Lemma run_call_keeps_request (c : call) (st : Server) :
  keeps_request st (snd (run_call c st)).
Proof.
  destruct c; cbn [run_call]; unfold __enter__, __exit__.
  - apply open_keeps_request.
  - apply close_keeps_request.
  - apply open_keeps_request.
  - apply close_keeps_request.
  - apply stop_keeps_request.
  - apply timeout_keeps_request.
  - apply signal_keeps_request.
  - apply socket_keeps_request.
  - apply serial_keeps_request.
  - apply serve_forever_keeps_request.
Qed.

Lemma run_calls_keep_request (cs : list call) :
  forall st, keeps_request st (run_calls cs st).
Proof.
  induction cs as [|c cs IH]; intros st; cbn [run_calls].
  - apply keeps_request_refl.
  - exact (keeps_request_trans _ _ _ (run_call_keeps_request c st) (IH _)).
Qed.

Lemma bind_cong {A B} (c : M A) (k k' : A -> M B) (st : Server) :
  (forall a st1, c st = (Ok a, st1) -> k a st1 = k' a st1) ->
  bind c k st = bind c k' st.
Proof. intros H. unfold bind. destruct (c st) as [[a|e|] st1]; auto. Qed.

(** With the request set, [serve_forever] never looks at what has become
    ready. *)
Lemma serve_forever_requested (env : ServeEnv) (st : Server) :
  _shutdown_request st = true ->
  serve_forever env st = serve_forever (no_events env) st.
Proof.
  intros Hreq. unfold serve_forever, no_events. cbn [sf_open sf_script sf_fault].
  apply bind_cong. intros [] st1 H1.
  assert (Hreq1 : _shutdown_request st1 = true).
  { assert (keeps_request st
              (snd ((st <- get ;; when (negb (_open st)) (open (sf_open env))) st))) as Hk
      by (repeat first [apply open_keeps_request | request_step]).
    rewrite H1 in Hk. exact (Hk Hreq). }
  apply bind_cong. intros [] st2 H2. cbn [modify] in H2. injection H2 as <-.
  unfold try_finally.
  rewrite !Leaving.serve_loop_when_requested by (destruct st1; exact Hreq1).
  reflexivity.
Qed.

Lemma loadconfig_refused (read : exn + config) (st : Server) :
  _open st = true -> loadconfig read st = (Raise RuntimeError, st).
Proof. intros H. unfold loadconfig, bind, get. rewrite H. reflexivity. Qed.

Lemma loadconfig_clears (c : config) (st : Server) :
  _open st = false ->
  _shutdown_request (snd (loadconfig (inr c) st)) = false /\
  _serving (snd (loadconfig (inr c) st)) = false.
Proof.
  intros H. unfold loadconfig, __init__, timeout_set. destruct st. mred. subst. mrun. mred.
  destruct (Qltb (default 1%Q (cfg_timeout c)) 0); mred; split; reflexivity.
Qed.

(** The shutdown request is for good.  Once a call of [serve_forever] has
    returned, the request is set, and a second call on the state it left
    handles no event at all: it returns at once and leaves the server as it
    was.  No method of the server other than [__init__] takes the request
    back: whatever calls of [open], [close], [__enter__], [__exit__],
    [stop], the [timeout] setter, the signal handler, the two readiness
    handlers and [serve_forever] are made, and however each ends, a request
    that is set stays set, and with the request set the outcome of
    [serve_forever] does not depend on what becomes ready.  [loadconfig],
    which runs [__init__] again, is refused on an open server; on a closed
    one it clears the request and the Serving flag. *)
Theorem serves_once :
  (forall (env env2 : ServeEnv) (st st1 : Server),
     serve_forever env st = (Ok tt, st1) ->
     _shutdown_request st1 = true /\ serve_forever env2 st1 = (Ok tt, st1)) /\
  (forall (cs : list call) (st : Server),
     _shutdown_request st = true -> _shutdown_request (run_calls cs st) = true) /\
  (forall (env : ServeEnv) (st : Server),
     _shutdown_request st = true ->
     serve_forever env st = serve_forever (no_events env) st) /\
  (forall (read : exn + config) (st : Server),
     _open st = true -> loadconfig read st = (Raise RuntimeError, st)) /\
  (forall (c : config) (st : Server),
     _open st = false ->
     _shutdown_request (snd (loadconfig (inr c) st)) = false /\
     _serving (snd (loadconfig (inr c) st)) = false).
Proof.
  split; [exact Leaving.serve_forever_again|].
  split; [exact run_calls_keep_request|].
  split; [exact serve_forever_requested|].
  split; [exact loadconfig_refused | exact loadconfig_clears].
Qed.

Lemma serves_once_witness :
  let st0 := init [CR] [LF] None None in
  let cs := [CallClose no_fault; CallOpen Sample.plug; CallTimeout 2;
             CallSignal SIGTERM; CallServe second_round] in
  serve_forever (Cleanup.connect_then_stop no_fault) st0 = (Ok tt, has_served) /\
  _open has_served = true /\
  _open closed_again = false /\
  (_shutdown_request has_served = true /\ serve_forever second_round has_served = (Ok tt, has_served)) /\
  _shutdown_request (run_calls cs has_served) = true /\
  serve_forever second_round has_served = serve_forever (no_events second_round) has_served /\
  loadconfig (inr sample_config) has_served = (Raise RuntimeError, has_served) /\
  (_shutdown_request (snd (loadconfig (inr sample_config) closed_again)) = false /\
   _serving (snd (loadconfig (inr sample_config) closed_again)) = false).
Proof.
  cbv zeta.
  assert (H : serve_forever (Cleanup.connect_then_stop no_fault) (init [CR] [LF] None None)
              = (Ok tt, has_served)) by (vm_compute; reflexivity).
  assert (Hreq : _shutdown_request has_served = true) by (vm_compute; reflexivity).
  assert (Hopen : _open has_served = true) by (vm_compute; reflexivity).
  assert (Hclosed : _open closed_again = false) by (vm_compute; reflexivity).
  split; [exact H|]. split; [exact Hopen|]. split; [exact Hclosed|].
  split; [exact (proj1 serves_once _ second_round _ _ H)|].
  split; [exact (proj1 (proj2 serves_once) _ _ Hreq)|].
  split; [exact (proj1 (proj2 (proj2 serves_once)) second_round _ Hreq)|].
  split; [exact (proj1 (proj2 (proj2 (proj2 serves_once))) _ _ Hopen)|].
  exact (proj2 (proj2 (proj2 (proj2 serves_once))) sample_config _ Hclosed).
Defined.

(** After [close] and [loadconfig] the server serves again: the second
    round has its transaction; without [loadconfig] it has none. *)
Example serves_again_after_loadconfig :
  Queue.transactions (trace (snd (serve_forever second_round configured_again)))
    = [((of_string "PING", 3), of_string "PING" ++ [CR])] /\
  Queue.transactions (trace (snd (serve_forever second_round closed_again))) = [].
Proof. vm_compute. split; reflexivity. Qed.

End Again.
